(** * QuizBank: question fingerprinting and answer reconciliation

    A shallow embedding of the pure core of
    [src/database/supabase-manager.js] (class [SupabaseQuizManager]):

    - [calculateTextQuality]   (quality scorer),
    - [generateQuestionHash] and [simpleHash] (fingerprint generator),
    - [updateBestAnswer]       (answer reconciler, single submission path),
    - [processCanvasSubmissionsWithQuestionData] (batch path: merge
      planning, best-answer de-duplication, merge execution).

    Modelling conventions.

    - A JavaScript string is the sequence of its UTF-16 code units; the
      model covers the strings whose code units are below 256 and writes
      them as [string] (one [ascii] per code unit, read as Latin-1).
    - A JavaScript number that holds an identifier, a length or a quality
      score is an integer and is a [Z]; 32-bit wrap-around of the bit
      operators is written out with [to_int32].
    - Points and confidence scores are JavaScript numbers obtained by one
      division; they are modelled as exact rationals [Q] and compared with
      [Qeq]/[Qlt].  [NaN] and infinities are outside the model.
    - [null]/[undefined] is [None], except where the code tells the two
      apart (the knowledge-bank statistics), which use [JsField]; a
      thrown exception is a [JsError].
    - A JavaScript [Map] is an insertion-ordered association list.
    - Remote procedure calls are not executed: a function returns the
      requests it would send. *)

From Stdlib Require Import ZArith QArith Qminmax List String Ascii Bool Lia Lqa.
From Stdlib Require Import Permutation Sorted.
Import ListNotations.

Local Open Scope Z_scope.

(* ================================================================== *)
(** * JavaScript strings                                                *)
(* ================================================================== *)

Module JsString.

(** [s.charCodeAt(i)] of one code unit. *)
Definition code (c : ascii) : Z := Z.of_N (N_of_ascii c).

Definition ofCode (z : Z) : ascii := ascii_of_N (Z.to_N z).

Definition inRange (lo hi : Z) (c : ascii) : bool :=
  (lo <=? code c) && (code c <=? hi).

(** [\d] *)
Definition isDigit (c : ascii) : bool := inRange 48 57 c.

(** [\w] is [[A-Za-z0-9_]]. *)
Definition isWord (c : ascii) : bool :=
  inRange 65 90 c || inRange 97 122 c || isDigit c || (code c =? 95).

(** [\s] below 256: TAB, LF, VT, FF, CR, SPACE, NBSP.  [trim] removes the
    same set. *)
Definition isSpace (c : ascii) : bool :=
  inRange 9 13 c || (code c =? 32) || (code c =? 160).

(** [toLowerCase] on one code unit below 256: A-Z and the Latin-1
    capitals U+00C0..U+00DE (without the multiplication sign U+00D7). *)
Definition lowerChar (c : ascii) : ascii :=
  if inRange 65 90 c || (inRange 192 222 c && negb (code c =? 215))
  then ofCode (code c + 32) else c.

Fixpoint map (f : ascii -> ascii) (s : string) : string :=
  match s with
  | EmptyString => EmptyString
  | String c r => String (f c) (map f r)
  end.

Fixpoint filter (p : ascii -> bool) (s : string) : string :=
  match s with
  | EmptyString => EmptyString
  | String c r => if p c then String c (filter p r) else filter p r
  end.

Fixpoint all (p : ascii -> bool) (s : string) : bool :=
  match s with
  | EmptyString => true
  | String c r => p c && all p r
  end.

(** [s.toLowerCase()] on code units below 256.  Above 255 JavaScript
    lower-cases a few code units to ASCII letters (U+212A to [k]); such
    texts are outside the model, and what is proved about letter case
    is proved for code units below 256. *)
Definition toLowerCase (s : string) : string := map lowerChar s.

Fixpoint trimStart (s : string) : string :=
  match s with
  | EmptyString => EmptyString
  | String c r => if isSpace c then trimStart r else s
  end.

Fixpoint trimEnd (s : string) : string :=
  match s with
  | EmptyString => EmptyString
  | String c r =>
      match trimEnd r with
      | EmptyString => if isSpace c then EmptyString else String c EmptyString
      | r' => String c r'
      end
  end.

Definition trim (s : string) : string := trimEnd (trimStart s).

(** [s.replace(/\s+/g, ' ')]: every maximal run of white space becomes
    one space.  [inRun] tells that the previous unit was white space. *)
Fixpoint collapseSpaces (inRun : bool) (s : string) : string :=
  match s with
  | EmptyString => EmptyString
  | String c r =>
      if isSpace c
      then if inRun then collapseSpaces true r
           else String " "%char (collapseSpaces true r)
      else String c (collapseSpaces false r)
  end.

(** [s.startsWith(p)] *)
Fixpoint startsWith (p s : string) : bool :=
  match p, s with
  | EmptyString, _ => true
  | String a p', String b s' => Ascii.eqb a b && startsWith p' s'
  | String _ _, EmptyString => false
  end.

(** [s.includes(p)] *)
Fixpoint includes (p s : string) : bool :=
  startsWith p s ||
  match s with
  | EmptyString => false
  | String _ r => includes p r
  end.

(** The rest of [s] after the prefix [p], when [s] starts with [p]. *)
Fixpoint stripPrefix (p s : string) : option string :=
  match p, s with
  | EmptyString, _ => Some s
  | String a p', String b s' =>
      if Ascii.eqb a b then stripPrefix p' s' else None
  | String _ _, EmptyString => None
  end.

(** [arr.join(sep)] on an array of strings. *)
Fixpoint join (sep : string) (l : list string) : string :=
  match l with
  | [] => EmptyString
  | [s] => s
  | s :: r => (s ++ sep ++ join sep r)%string
  end.

(** [arr.sort()] without comparator orders strings by code units; on
    strings the order is total and antisymmetric, so the sorted array is
    determined by the multiset of its elements whatever algorithm the
    engine runs.  Insertion sort computes it. *)
Fixpoint insert (x : string) (l : list string) : list string :=
  match l with
  | [] => [x]
  | y :: r => if String.leb x y then x :: l else y :: insert x r
  end.

Fixpoint sort (l : list string) : list string :=
  match l with
  | [] => []
  | x :: r => insert x (sort r)
  end.

End JsString.

(* ================================================================== *)
(** * JavaScript integers                                               *)
(* ================================================================== *)

Module JsNumber.

(** ToInt32: the signed 32-bit integer congruent to [z]. *)
Definition to_int32 (z : Z) : Z := (z + 2 ^ 31) mod 2 ^ 32 - 2 ^ 31.

(** [a << n] *)
Definition shl (a n : Z) : Z := to_int32 (Z.shiftl (to_int32 a) (n mod 32)).

(** [a & b] *)
Definition band (a b : Z) : Z := Z.land (to_int32 a) (to_int32 b).

(** Digit [d] of [toString(radix)]: [0-9] then [a-z]. *)
Definition digitChar (d : Z) : ascii :=
  if d <? 10 then JsString.ofCode (48 + d) else JsString.ofCode (87 + d).

Fixpoint digits (fuel : nat) (radix n : Z) (acc : string) : string :=
  match fuel with
  | O => acc
  | S f =>
      let acc' := String (digitChar (n mod radix)) acc in
      if n / radix =? 0 then acc' else digits f radix (n / radix) acc'
  end.

(** [n.toString(radix)] of an integer; a number below [2^k] has at most
    [k] digits in any radix, so the fuel never runs out. *)
Definition toStringRadix (radix n : Z) : string :=
  let m := Z.abs n in
  let ds := digits (S (Z.to_nat (Z.log2 m))) radix m EmptyString in
  if n <? 0 then String "-"%char ds else ds.

(** Template-literal conversion [`${n}`] of an integer. *)
Definition toString (n : Z) : string := toStringRadix 10 n.

End JsNumber.

(* ================================================================== *)
(** * Fingerprint generator and quality scorer                          *)
(* ================================================================== *)

Definition strlen (s : string) : Z := Z.of_nat (String.length s).

(** [simpleHash], one iteration of the loop body. *)
Definition hashStep (hash : Z) (c : ascii) : Z :=
  let hash1 := JsNumber.shl hash 5 - hash + JsString.code c in
  JsNumber.band hash1 hash1.

Fixpoint hashLoop (hash : Z) (str : string) : Z :=
  match str with
  | EmptyString => hash
  | String c r => hashLoop (hashStep hash c) r
  end.

Definition simpleHash (str : string) : string :=
  JsNumber.toStringRadix 36 (Z.abs (hashLoop 0 str)).

(** [/[^\w\s\?\.!]/] keeps exactly these code units. *)
Definition keepInText (c : ascii) : bool :=
  JsString.isWord c || JsString.isSpace c ||
  Ascii.eqb c "?" || Ascii.eqb c "." || Ascii.eqb c "!".

(** [/[^\w\s]/] keeps exactly these code units. *)
Definition keepInOption (c : ascii) : bool :=
  JsString.isWord c || JsString.isSpace c.

Definition cleanText (questionText : string) : string :=
  JsString.trim
    (JsString.toLowerCase
       (JsString.filter keepInText
          (JsString.collapseSpaces false questionText))).

Definition cleanOption (opt : string) : string :=
  JsString.trim (JsString.filter keepInOption (JsString.toLowerCase opt)).

(** The string that is hashed.  [options] is [None] for [null]; every
    array, the empty one too, is truthy and passes [Array.isArray]. *)
Definition hashInput (questionText questionType : string)
    (options : option (list string)) : string :=
  let base := (questionType ++ ":" ++ cleanText questionText)%string in
  match options with
  | Some opts =>
      (base ++ ":" ++
       JsString.join "|" (JsString.sort (List.map cleanOption opts)))%string
  | None => base
  end.

Definition generateQuestionHash (questionText questionType : string)
    (options : option (list string)) : string :=
  simpleHash (hashInput questionText questionType options).

(** [/^Question \d+$/] *)
Definition isPlaceholderText (s : string) : bool :=
  match JsString.stripPrefix "Question " s with
  | Some rest =>
      negb (String.eqb rest EmptyString) && JsString.all JsString.isDigit rest
  | None => false
  end.

Definition calculateTextQuality (questionText source : string) : Z :=
  let score := 0 in
  let score :=
    if String.eqb source "dom" then score + 100
    else if String.eqb source "canvas_api" then score + 50
    else if String.eqb source "placeholder" then score + 10
    else score in
  let lengthScore := Z.min (strlen questionText) 200 in
  let score := score + lengthScore in
  let score := if isPlaceholderText questionText then score - 50 else score in
  let score :=
    if JsString.includes "Question ID" questionText then score - 30 else score in
  let score := if JsString.includes "?" questionText then score + 20 else score in
  let score := if 20 <? strlen questionText then score + 10 else score in
  Z.max 0 score.

(* ================================================================== *)
(** * JavaScript [Map]                                                  *)
(* ================================================================== *)

(** A [Map] keeps its keys in insertion order; [set] on a present key
    replaces the value and keeps the position. *)
Module JsMap.
Section Ops.
Context {K V : Type} (eqb : K -> K -> bool).

Definition t := list (K * V).

Fixpoint get (m : t) (k : K) : option V :=
  match m with
  | [] => None
  | (k', v) :: r => if eqb k k' then Some v else get r k
  end.

Fixpoint set (m : t) (k : K) (v : V) : t :=
  match m with
  | [] => [(k, v)]
  | (k', v') :: r =>
      if eqb k k' then (k, v) :: r else (k', v') :: set r k v
  end.

Definition has (m : t) (k : K) : bool :=
  match get m k with Some _ => true | None => false end.

Definition values (m : t) : list V := List.map snd m.

Definition keys (m : t) : list K := List.map fst m.
End Ops.
End JsMap.

(* ================================================================== *)
(** * Answer reconciler: [updateBestAnswer]                             *)
(* ================================================================== *)

(** [a > b] on numbers. *)
Definition Qgtb (a b : Q) : bool := negb (Qle_bool a b).

(** Truthiness of a number-or-null: [null], [undefined] and [0] are falsy. *)
Definition truthyNum (x : option Q) : bool :=
  match x with
  | Some q => negb (Qeq_bool q 0%Q)
  | None => false
  end.

(** ToNumber of a number-or-null in arithmetic and comparison. *)
Definition toNumber (x : option Q) : Q :=
  match x with Some q => q | None => 0%Q end.

(** [x || d] on a number-or-null. *)
Definition numOr (x : option Q) (d : Q) : Q :=
  if truthyNum x then toNumber x else d.

Definition truthyBool (b : option bool) : bool :=
  match b with Some true => true | _ => false end.

(** The submission object built by [saveSubmission] and read by
    [updateBestAnswer]. *)
Record Submission := {
  user_answer : option string;
  is_correct : option bool;
  points_earned : option Q;
  points_possible : option Q;
  answer_fields : option (list (string * string))
}.

(** The confidence score computed inside [updateBestAnswer]. *)
Definition confidenceScore (submission : Submission) : Q :=
  let c := if truthyBool (is_correct submission) then 1%Q else 0%Q in
  let c :=
    if truthyNum (points_earned submission)
       && truthyNum (points_possible submission)
       && Qgtb (toNumber (points_possible submission)) 0%Q
    then Qmin 1%Q (toNumber (points_earned submission)
                   / toNumber (points_possible submission))%Q
    else c in
  Qmax 0%Q (Qmin 1%Q c).

(** The record [qb_get_best_answer] returns. *)
Record BestAnswer := {
  best_answer_text : option string;
  best_answer_fields : option (list (string * string));
  confidence_score : option Q;
  source_submission_id : option Z
}.

(** The parameters of one [qb_update_best_answer] request. *)
Record BestAnswerWrite := {
  p_question_hash : string;
  p_answer_text : option string;
  p_answer_fields : option (list (string * string));
  p_confidence_score : Q;
  p_source_submission_id : Z
}.

(** [updateBestAnswer] after [currentBest] has been fetched: the request
    it sends, if any, and the value it returns ([None] for [undefined]). *)
Definition updateBestAnswer (currentBest : option BestAnswer)
    (questionHash : string) (submission : Submission) (submissionId : Z)
  : option BestAnswerWrite * option (string * Q) :=
  let c := confidenceScore submission in
  let better :=
    match currentBest with
    | None => true
    | Some best => Qgtb c (numOr (confidence_score best) 0%Q)
    end in
  if better
  then (Some {| p_question_hash := questionHash;
                p_answer_text := user_answer submission;
                p_answer_fields := answer_fields submission;
                p_confidence_score := c;
                p_source_submission_id := submissionId |},
        Some (questionHash, c))
  else (None, None).

(** Modelled from the spec: the persistence collaborator's best-answer
    table behind [qb_get_best_answer] and [qb_update_best_answer] (the
    stored procedures are not part of the sources).  Section 6 gives
    "find" and "upsert best answer" keyed by fingerprint: one record per
    fingerprint, replaced by an upsert. *)
Definition BestAnswerStore := JsMap.t (K := string) (V := BestAnswer).

Definition qb_get_best_answer (store : BestAnswerStore) (h : string)
  : option BestAnswer := JsMap.get String.eqb store h.

Definition qb_update_best_answer (store : BestAnswerStore)
    (w : BestAnswerWrite) : BestAnswerStore :=
  JsMap.set String.eqb store (p_question_hash w)
    {| best_answer_text := p_answer_text w;
       best_answer_fields := p_answer_fields w;
       confidence_score := Some (p_confidence_score w);
       source_submission_id := Some (p_source_submission_id w) |}.

(** [updateBestAnswer] run against the store. *)
Definition runUpdateBestAnswer (store : BestAnswerStore)
    (questionHash : string) (submission : Submission) (submissionId : Z)
  : BestAnswerStore :=
  match fst (updateBestAnswer (qb_get_best_answer store questionHash)
               questionHash submission submissionId) with
  | Some w => qb_update_best_answer store w
  | None => store
  end.

(** The confidence rule in the words of the specification (section 4.3):
    if [pointsPossible > 0], [clamp(pointsEarned / pointsPossible, 0, 1)];
    else 1.0 if the outcome is correct, 0.0 otherwise. *)
Definition clamp (x lo hi : Q) : Q := Qmax lo (Qmin hi x).

Definition confidence_spec (submission : Submission) : Q :=
  if Qgtb (toNumber (points_possible submission)) 0%Q
  then clamp (toNumber (points_earned submission)
              / toNumber (points_possible submission))%Q 0%Q 1%Q
  else if truthyBool (is_correct submission) then 1%Q else 0%Q.

(* ================================================================== *)
(** * Batch path: [processCanvasSubmissionsWithQuestionData]            *)
(* ================================================================== *)

(** The [correct] field of a Canvas answer: [true], [false], the string
    ['partial'], or absent. *)
Inductive CorrectFlag := CTrue | CFalse | CPartial | CAbsent.

Definition truthyCorrect (c : CorrectFlag) : bool :=
  match c with CTrue | CPartial => true | CFalse | CAbsent => false end.

(** A non-empty string is truthy. *)
Definition truthyStr (o : option string) : option string :=
  match o with
  | Some s => if String.eqb s EmptyString then None else Some s
  | None => None
  end.

(** One element of [submission.submission_data].  [qd_fields] lists the
    other own properties with their values ([None] for [null]). *)
Record QuestionData := {
  question_id : Z;
  qd_question_text : option string;
  qd_question_type : option string;
  qd_text : option string;
  qd_correct : CorrectFlag;
  qd_points : option Q;
  qd_points_possible : option Q;
  qd_fields : list (string * option string)
}.

Record CanvasSubmission := {
  submission_data : option (list QuestionData)
}.

(** One element of [domQuestions]. *)
Record DomQuestion := {
  dom_canvas_question_id : Z;
  questionText : option string;
  questionType : option string;
  options : option (list string)
}.

(** One row of [qb_get_existing_questions_by_canvas_ids]. *)
Record ExistingQuestion := {
  canvas_question_id : option Z;
  question_hash : string;
  text_quality_score : option Z;
  first_seen_quiz_id : option Z
}.

(** [q.text_quality_score || 0] *)
Definition qualityOr0 (q : ExistingQuestion) : Z :=
  match text_quality_score q with Some z => z | None => 0 end.

(** [if (canvasId)]: [null] and [0] are falsy. *)
Definition truthyId (o : option Z) : option Z :=
  match o with
  | Some z => if z =? 0 then None else Some z
  | None => None
  end.

(** An element of [questionsToSave]. *)
Record QuestionRow := {
  row_question_hash : string;
  row_question_text : string;
  row_question_type : string;
  row_course_id : Z;
  row_first_seen_quiz_id : option Z;
  row_text_quality_score : Z;
  row_text_source : string;
  row_metadata : option string
}.

(** An element of [submissionsToSave]. *)
Record SubmissionRow := {
  sub_question_hash : string;
  sub_quiz_id : Z;
  sub_canvas_question_id : Z;
  sub_submission : Submission
}.

(** An element of [bestAnswersToUpdate]. *)
Record BestAnswerRow := {
  ba_question_hash : string;
  ba_answer_text : option string;
  ba_answer_fields : QuestionData;
  ba_confidence_score : Q;
  ba_source_submission_id : option Z
}.

(** The values stored in [processedQuestions]: the two merge-info objects
    and the plain hash string of the last [set]. *)
Inductive ProcessedEntry :=
| MergeInfo (newHash oldHash : string)       (* needsMerge: true  *)
| NoMergeInfo (newHash : string)             (* needsMerge: false *)
| HashOnly (questionHash : string).          (* a string          *)

(** [q.needsMerge] as a filter condition; a string has no such property. *)
Definition needsMerge (e : ProcessedEntry) : bool :=
  match e with
  | MergeInfo _ _ => true
  | NoMergeInfo _ => false
  | HashOnly _ => false
  end.

(** The double quote, code unit 34. *)
Definition dquote : ascii := JsString.ofCode 34.

(** [JSON.stringify] of a string: quotes and escapes. *)
Definition jsonEscape (c : ascii) : string :=
  let n := JsString.code c in
  if n =? 34 then String "\"%char (String dquote EmptyString)
  else if n =? 92 then "\\"%string
  else if n =? 8 then "\b"%string
  else if n =? 12 then "\f"%string
  else if n =? 10 then "\n"%string
  else if n =? 13 then "\r"%string
  else if n =? 9 then "\t"%string
  else if n <? 32 then
    ("\u00" ++ String (JsNumber.digitChar (n / 16))
                 (String (JsNumber.digitChar (n mod 16)) EmptyString))%string
  else String c EmptyString.

Fixpoint jsonEscapeAll (s : string) : string :=
  match s with
  | EmptyString => EmptyString
  | String c r => (jsonEscape c ++ jsonEscapeAll r)%string
  end.

Definition jsonString (s : string) : string :=
  (String dquote (jsonEscapeAll s) ++ String dquote EmptyString)%string.

(** [JSON.stringify(options)] of an array of strings. *)
Definition JSON_stringify (opts : list string) : string :=
  ("[" ++ JsString.join "," (List.map jsonString opts) ++ "]")%string.

(** [sanitizeAnswerFields]: the [answer*] properties whose value is not
    [null]; [null] when there is none. *)
Definition sanitizeAnswerFields (questionData : QuestionData)
  : option (list (string * string)) :=
  let answerFields :=
    List.flat_map
      (fun kv : string * option string =>
         match snd kv with
         | Some v =>
             if JsString.startsWith "answer" (fst kv) then [(fst kv, v)] else []
         | None => []
         end)
      (qd_fields questionData) in
  match answerFields with
  | [] => None
  | _ => Some answerFields
  end.

(** The arrays and the map filled by the main loop. *)
Record BatchState := {
  questionsToSave : list QuestionRow;
  submissionsToSave : list SubmissionRow;
  bestAnswersToUpdate : list BestAnswerRow;
  processedQuestions : JsMap.t (K := Z) (V := ProcessedEntry)
}.

Definition emptyBatch : BatchState :=
  {| questionsToSave := []; submissionsToSave := [];
     bestAnswersToUpdate := []; processedQuestions := [] |}.

(** [domQuestionMap]: later entries for one id replace earlier ones. *)
Definition buildDomQuestionMap (domQuestions : list DomQuestion)
  : JsMap.t (K := Z) (V := DomQuestion) :=
  List.fold_left
    (fun m d => JsMap.set Z.eqb m (dom_canvas_question_id d) d)
    domQuestions [].

(** [existingByCanvasId]: per Canvas id the row of highest quality, the
    first one among equals. *)
Definition buildExistingByCanvasId (existingQuestions : list ExistingQuestion)
  : JsMap.t (K := Z) (V := ExistingQuestion) :=
  List.fold_left
    (fun m q =>
       match truthyId (canvas_question_id q) with
       | Some canvasId =>
           match JsMap.get Z.eqb m canvasId with
           | None => JsMap.set Z.eqb m canvasId q
           | Some existing =>
               if qualityOr0 existing <? qualityOr0 q
               then JsMap.set Z.eqb m canvasId q else m
           end
       | None => m
       end)
    existingQuestions [].

(** [allExistingQuestions] *)
Definition buildAllExistingQuestions (existingQuestions : list ExistingQuestion)
  : list (Z * ExistingQuestion) :=
  List.flat_map
    (fun q =>
       match truthyId (canvas_question_id q) with
       | Some canvasId => [(canvasId, q)]
       | None => []
       end)
    existingQuestions.

(** [o?.f] *)
Definition optionalChain {A B : Type} (f : A -> option B) (o : option A)
  : option B :=
  match o with Some a => f a | None => None end.

(** The text, type, options and provenance chosen for one answer. *)
Definition chooseText (domQuestion : option DomQuestion)
    (questionData : QuestionData) : string :=
  match truthyStr (optionalChain questionText domQuestion) with
  | Some t => t
  | None =>
      match truthyStr (qd_question_text questionData) with
      | Some t => t
      | None =>
          ("Question " ++ JsNumber.toString (question_id questionData))%string
      end
  end.

Definition chooseType (domQuestion : option DomQuestion)
    (questionData : QuestionData) : string :=
  match truthyStr (optionalChain questionType domQuestion) with
  | Some t => t
  | None =>
      match truthyStr (qd_question_type questionData) with
      | Some t => t
      | None => "unknown"%string
      end
  end.

Definition chooseOptions (domQuestion : option DomQuestion)
  : option (list string) := optionalChain options domQuestion.

Definition chooseSource (domQuestion : option DomQuestion)
    (questionData : QuestionData) : string :=
  match truthyStr (optionalChain questionText domQuestion) with
  | Some _ => "dom"%string
  | None =>
      match truthyStr (qd_question_text questionData) with
      | Some t => if isPlaceholderText t then "placeholder"%string
                  else "canvas_api"%string
      | None => "placeholder"%string
      end
  end.

(** The outcome of the hash decision for one answer: [questionHash],
    [shouldSaveQuestion] and [oldHashToMerge]. *)
Record HashDecision := {
  questionHash : string;
  shouldSaveQuestion : bool;
  oldHashToMerge : option string
}.

Definition decideHash (courseId : Z) (questionId : Z)
    (existingQuestion : option ExistingQuestion)
    (questionText questionType : string) (opts : option (list string))
    (textSource : string) (textQuality : Z) : HashDecision :=
  match existingQuestion with
  | Some existing =>
      let existingQuality := qualityOr0 existing in
      if existingQuality <? textQuality then
        let oldHash := question_hash existing in
        let newHash :=
          if String.eqb textSource "placeholder" then oldHash
          else generateQuestionHash questionText questionType opts in
        if negb (String.eqb newHash oldHash)
        then {| questionHash := newHash; shouldSaveQuestion := true;
                oldHashToMerge := Some oldHash |}
        else {| questionHash := oldHash; shouldSaveQuestion := true;
                oldHashToMerge := None |}
      else {| questionHash := question_hash existing;
              shouldSaveQuestion := false; oldHashToMerge := None |}
  | None =>
      if String.eqb textSource "placeholder"
      then {| questionHash :=
                ("canvas_" ++ JsNumber.toString questionId ++ "_"
                 ++ JsNumber.toString courseId)%string;
              shouldSaveQuestion := true; oldHashToMerge := None |}
      else {| questionHash :=
                generateQuestionHash questionText questionType opts;
              shouldSaveQuestion := true; oldHashToMerge := None |}
  end.

(** The entry stored first ("Store merge info for later processing"). *)
Definition mergeInfoEntry (d : HashDecision) : ProcessedEntry :=
  match truthyStr (oldHashToMerge d) with
  | Some oldHash => MergeInfo (questionHash d) oldHash
  | None => NoMergeInfo (questionHash d)
  end.

(** The row pushed to [questionsToSave]. *)
Definition questionRow (courseId quizId : Z)
    (existingQuestion : option ExistingQuestion) (d : HashDecision)
    (questionText questionType : string) (opts : option (list string))
    (textSource : string) (textQuality : Z) : QuestionRow :=
  {| row_question_hash := questionHash d;
     row_question_text := questionText;
     row_question_type := questionType;
     row_course_id := courseId;
     row_first_seen_quiz_id :=
       match existingQuestion with
       | Some existing => first_seen_quiz_id existing
       | None => Some quizId
       end;
     row_text_quality_score := textQuality;
     row_text_source := textSource;
     row_metadata := option_map JSON_stringify opts |}.

(** The submission pushed to [submissionsToSave]. *)
Definition submissionOf (questionData : QuestionData) : Submission :=
  {| user_answer := truthyStr (qd_text questionData);
     is_correct :=
       match qd_correct questionData with
       | CTrue => Some true
       | CFalse => Some false
       | _ => None
       end;
     points_earned :=
       Some (match qd_points questionData with Some p => p | None => 0%Q end);
     points_possible :=
       Some (match qd_points_possible questionData with
             | Some p => p | None => 1%Q end);
     answer_fields := sanitizeAnswerFields questionData |}.

(** "Calculate confidence score inline". *)
Definition inlineConfidence (questionData : QuestionData) : Q :=
  if truthyCorrect (qd_correct questionData)
  then Qmin 1%Q (numOr (qd_points questionData) 0%Q
                 / numOr (qd_points_possible questionData) 1%Q)%Q
  else 0%Q.

(** The body of the inner loop for one [questionData]. *)
Definition processQuestion (courseId quizId : Z)
    (domQuestionMap : JsMap.t (K := Z) (V := DomQuestion))
    (existingByCanvasId : JsMap.t (K := Z) (V := ExistingQuestion))
    (st : BatchState) (questionData : QuestionData) : BatchState :=
  let questionId := question_id questionData in
  if JsMap.has Z.eqb (processedQuestions st) questionId then st
  else
    let domQuestion := JsMap.get Z.eqb domQuestionMap questionId in
    let questionText := chooseText domQuestion questionData in
    let questionType := chooseType domQuestion questionData in
    let opts := chooseOptions domQuestion in
    let textSource := chooseSource domQuestion questionData in
    let textQuality := calculateTextQuality questionText textSource in
    let existingQuestion := JsMap.get Z.eqb existingByCanvasId questionId in
    let d := decideHash courseId questionId existingQuestion
               questionText questionType opts textSource textQuality in
    let processed1 :=
      JsMap.set Z.eqb (processedQuestions st) questionId (mergeInfoEntry d) in
    let questions :=
      if shouldSaveQuestion d
      then questionsToSave st ++
           [questionRow courseId quizId existingQuestion d questionText
              questionType opts textSource textQuality]
      else questionsToSave st in
    let submissions :=
      submissionsToSave st ++
      [{| sub_question_hash := questionHash d;
          sub_quiz_id := quizId;
          sub_canvas_question_id := questionId;
          sub_submission := submissionOf questionData |}] in
    let bestAnswers :=
      bestAnswersToUpdate st ++
      [{| ba_question_hash := questionHash d;
          ba_answer_text := qd_text questionData;
          ba_answer_fields := questionData;
          ba_confidence_score := inlineConfidence questionData;
          ba_source_submission_id := None |}] in
    let processed2 :=
      JsMap.set Z.eqb processed1 questionId (HashOnly (questionHash d)) in
    {| questionsToSave := questions;
       submissionsToSave := submissions;
       bestAnswersToUpdate := bestAnswers;
       processedQuestions := processed2 |}.

(** The two nested loops over [submissions] and [submission_data]. *)
Definition processSubmission (courseId quizId : Z)
    (domQuestionMap : JsMap.t (K := Z) (V := DomQuestion))
    (existingByCanvasId : JsMap.t (K := Z) (V := ExistingQuestion))
    (st : BatchState) (submission : CanvasSubmission) : BatchState :=
  match submission_data submission with
  | None => st
  | Some data =>
      List.fold_left
        (processQuestion courseId quizId domQuestionMap existingByCanvasId)
        data st
  end.

Definition mainLoop (courseId quizId : Z)
    (submissions : list CanvasSubmission) (domQuestions : list DomQuestion)
    (existingQuestions : list ExistingQuestion) : BatchState :=
  List.fold_left
    (processSubmission courseId quizId (buildDomQuestionMap domQuestions)
       (buildExistingByCanvasId existingQuestions))
    submissions emptyBatch.

(** "Deduplicate best answers by question_hash, keeping the highest
    confidence": the [forEach] body and the resulting array. *)
Definition dedupeStep (bestAnswersByHash : JsMap.t (K := string) (V := BestAnswerRow))
    (bestAnswer : BestAnswerRow) : JsMap.t (K := string) (V := BestAnswerRow) :=
  match JsMap.get String.eqb bestAnswersByHash (ba_question_hash bestAnswer) with
  | None =>
      JsMap.set String.eqb bestAnswersByHash (ba_question_hash bestAnswer)
        bestAnswer
  | Some existing =>
      if Qgtb (ba_confidence_score bestAnswer) (ba_confidence_score existing)
      then JsMap.set String.eqb bestAnswersByHash
             (ba_question_hash bestAnswer) bestAnswer
      else bestAnswersByHash
  end.

Definition bestAnswersByHash (bestAnswersToUpdate : list BestAnswerRow)
  : JsMap.t (K := string) (V := BestAnswerRow) :=
  List.fold_left dedupeStep bestAnswersToUpdate [].

Definition deduplicatedBestAnswers (bestAnswersToUpdate : list BestAnswerRow)
  : list BestAnswerRow :=
  JsMap.values (bestAnswersByHash bestAnswersToUpdate).

(** [mergesToProcess] and the [mergeQuestionRecords(oldHash, newHash)]
    calls made for it. *)
Definition mergesToProcess
    (processed : JsMap.t (K := Z) (V := ProcessedEntry)) : list ProcessedEntry :=
  List.filter needsMerge (JsMap.values processed).

Definition mergeCalls (merges : list ProcessedEntry) : list (string * string) :=
  List.flat_map
    (fun e =>
       match e with
       | MergeInfo newHash oldHash => [(oldHash, newHash)]
       | _ => []
       end)
    merges.

(** "Handle additional duplicate Canvas Question IDs": [duplicateGroups]
    is a plain object keyed by the Canvas id. *)
Definition buildDuplicateGroups (allExisting : list (Z * ExistingQuestion))
  : JsMap.t (K := Z) (V := list ExistingQuestion) :=
  List.fold_left
    (fun groups cq =>
       match JsMap.get Z.eqb groups (fst cq) with
       | None => JsMap.set Z.eqb groups (fst cq) [snd cq]
       | Some qs => JsMap.set Z.eqb groups (fst cq) (qs ++ [snd cq])
       end)
    allExisting [].

(** [Object.entries] lists array-index keys (integers from 0 up to
    [2^32 - 2]) in ascending order, then the other keys in creation
    order. *)
Definition isArrayIndex (k : Z) : bool := (0 <=? k) && (k <? 2 ^ 32 - 1).

Fixpoint insertByKey {V : Type} (e : Z * V) (l : list (Z * V)) : list (Z * V) :=
  match l with
  | [] => [e]
  | e' :: r => if fst e <=? fst e' then e :: l else e' :: insertByKey e r
  end.

Definition objectEntries {V : Type} (o : JsMap.t (K := Z) (V := V))
  : list (Z * V) :=
  List.fold_right insertByKey []
    (List.filter (fun e => isArrayIndex (fst e)) o)
  ++ List.filter (fun e => negb (isArrayIndex (fst e))) o.

(** [questions.sort((a, b) => (b.q || 0) - (a.q || 0))]: stable, highest
    quality first. *)
Fixpoint insertByQuality (x : ExistingQuestion) (l : list ExistingQuestion)
  : list ExistingQuestion :=
  match l with
  | [] => [x]
  | y :: r =>
      if qualityOr0 x <? qualityOr0 y then y :: insertByQuality x r
      else x :: l
  end.

Definition sortByQuality (l : list ExistingQuestion) : list ExistingQuestion :=
  List.fold_right insertByQuality [] l.

Definition cleanupCalls (allExisting : list (Z * ExistingQuestion))
  : list (string * string) :=
  List.flat_map
    (fun entry : Z * list ExistingQuestion =>
       match sortByQuality (snd entry) with
       | bestQuestion :: ((_ :: _) as duplicates) =>
           List.map
             (fun duplicate =>
                (question_hash duplicate, question_hash bestQuestion))
             duplicates
       | _ => []
       end)
    (objectEntries (buildDuplicateGroups allExisting)).

(** The rows answered by [batchSaveSubmissions]: hash and assigned id. *)
Definition SavedSubmission := (string * option Z)%type.

Definition buildSubmissionIdMap (savedSubmissions : list SavedSubmission)
  : JsMap.t (K := string) (V := option Z) :=
  List.fold_left
    (fun m sv =>
       if JsMap.has String.eqb m (fst sv) then m
       else JsMap.set String.eqb m (fst sv) (snd sv))
    savedSubmissions [].

Definition withSubmissionId (ids : JsMap.t (K := string) (V := option Z))
    (bestAnswer : BestAnswerRow) : BestAnswerRow :=
  match truthyId (optionalChain (fun x => x)
                    (JsMap.get String.eqb ids (ba_question_hash bestAnswer))) with
  | Some submissionId =>
      {| ba_question_hash := ba_question_hash bestAnswer;
         ba_answer_text := ba_answer_text bestAnswer;
         ba_answer_fields := ba_answer_fields bestAnswer;
         ba_confidence_score := ba_confidence_score bestAnswer;
         ba_source_submission_id := Some submissionId |}
  | None => bestAnswer
  end.

(** What one run of [processCanvasSubmissionsWithQuestionData] sends to
    the collaborator, in order, and what it returns. *)
Record BatchPlan := {
  batchSaveQuestions : list QuestionRow;
  batchSaveSubmissions : list SubmissionRow;
  batchUpdateBestAnswers : list BestAnswerRow;
  mergeQuestionRecords : list (string * string);
  returned : JsMap.t (K := Z) (V := ProcessedEntry)
}.

(** [existingQuestions] is the answer of
    [qb_get_existing_questions_by_canvas_ids], [savedSubmissions] the
    answer of [qb_batch_save_submissions]; every request succeeds. *)
Definition processCanvasSubmissionsWithQuestionData (courseId quizId : Z)
    (submissions : list CanvasSubmission) (domQuestions : list DomQuestion)
    (existingQuestions : list ExistingQuestion)
    (savedSubmissions : list SavedSubmission) : BatchPlan :=
  let st := mainLoop courseId quizId submissions domQuestions existingQuestions in
  let ids := buildSubmissionIdMap savedSubmissions in
  {| batchSaveQuestions := questionsToSave st;
     batchSaveSubmissions := submissionsToSave st;
     batchUpdateBestAnswers :=
       List.map (withSubmissionId ids)
         (deduplicatedBestAnswers (bestAnswersToUpdate st));
     mergeQuestionRecords :=
       mergeCalls (mergesToProcess (processedQuestions st))
       ++ cleanupCalls (buildAllExistingQuestions existingQuestions);
     returned := processedQuestions st |}.

(* ================================================================== *)
(** * Calls with a missing argument                                     *)
(* ================================================================== *)

(** Reading a property of [null] or [undefined] throws a [TypeError]. *)
Inductive JsError := TypeError.

Inductive JsResult (A : Type) :=
| Returned (a : A)
| Thrown (e : JsError).
Arguments Returned {A} a.
Arguments Thrown {A} e.

(** [generateQuestionHash(questionText, ...)] where [questionText] may be
    [null]/[undefined] ([None]): the first statement reads
    [questionText.replace]. *)
Definition callGenerateQuestionHash (questionText : option string)
    (questionType : string) (opts : option (list string)) : JsResult string :=
  match questionText with
  | None => Thrown TypeError
  | Some t => Returned (generateQuestionHash t questionType opts)
  end.

(** [calculateTextQuality(questionText, source)] likewise: the first use
    of the text reads [questionText.length]. *)
Definition callCalculateTextQuality (questionText : option string)
    (source : string) : JsResult Z :=
  match questionText with
  | None => Thrown TypeError
  | Some t => Returned (calculateTextQuality t source)
  end.

(* ================================================================== *)
(** * Answers shown on the quiz page ([compileQuestions.js])            *)
(* ================================================================== *)

(** The constants [Correct.TRUE], [Correct.FALSE], [Correct.PARTIAL]. *)
Inductive CorrectLabel := LabelTrue | LabelFalse | LabelPartial.

(** [a >= b] on numbers. *)
Definition Qgeb (a b : Q) : bool := Qle_bool b a.

(** [scoreToCorrect]; a [null] score compares as 0. *)
Definition scoreToCorrect (score : option Q) : CorrectLabel :=
  if Qgeb (toNumber score) 1 then LabelTrue
  else if Qgeb (toNumber score) (3 # 10) then LabelPartial
  else LabelFalse.

(** [correctToScore]; [None] is any value other than the three constants. *)
Definition correctToScore (correct : option CorrectLabel) : Q :=
  match correct with
  | Some LabelTrue => 1
  | Some LabelPartial => 1 # 2
  | Some LabelFalse => 0
  | None => 0
  end.

(** A property of a row fetched from the knowledge bank: a value,
    [null], or [undefined] when the row has no such property.  The
    statistics tell the last two apart: in a comparison [null] counts as
    0, while every comparison with [undefined] is false; in a [Set] they
    are two different members. *)
Inductive JsField (A : Type) :=
| Value (a : A)
| Null
| Undefined.
Arguments Value {A} a.
Arguments Null {A}.
Arguments Undefined {A}.

(** [x >= b] for a property [x] and a number [b]. *)
Definition fieldGeb (x : JsField Q) (b : Q) : bool :=
  match x with
  | Value q => Qgeb q b
  | Null => Qgeb 0 b
  | Undefined => false
  end.

(** [x < b] for a property [x] and a number [b]. *)
Definition fieldLtb (x : JsField Q) (b : Q) : bool :=
  match x with
  | Value q => Qgtb b q
  | Null => Qgtb b 0
  | Undefined => false
  end.

(** An element of [globalKnowledgeBankData]: the fields the statistics
    read. *)
Record KnowledgeItem := {
  kb_course_id : JsField Z;
  kb_confidence_score : JsField Q
}.

Record KnowledgeBankStats := {
  totalQuestions : nat;
  totalCourses : nat;
  highConfidence : nat;
  mediumConfidence : nat;
  lowConfidence : nat
}.

Definition isHigh (q : KnowledgeItem) : bool :=
  fieldGeb (kb_confidence_score q) 1.

Definition isMedium (q : KnowledgeItem) : bool :=
  fieldGeb (kb_confidence_score q) (3 # 10)
  && fieldLtb (kb_confidence_score q) 1.

Definition isLow (q : KnowledgeItem) : bool :=
  fieldLtb (kb_confidence_score q) (3 # 10).

Definition courseId_eq_dec (a b : JsField Z) : {a = b} + {a <> b}.
Proof. decide equality. apply Z.eq_dec. Defined.

(** [calculateGlobalKnowledgeBankStats]; [uniqueCourses] is a [Set] of
    the course ids. *)
Definition calculateGlobalKnowledgeBankStats
    (globalKnowledgeBankData : list KnowledgeItem) : KnowledgeBankStats :=
  {| totalQuestions := List.length globalKnowledgeBankData;
     totalCourses :=
       List.length
         (List.nodup courseId_eq_dec
            (List.map kb_course_id globalKnowledgeBankData));
     highConfidence :=
       List.length (List.filter isHigh globalKnowledgeBankData);
     mediumConfidence :=
       List.length (List.filter isMedium globalKnowledgeBankData);
     lowConfidence :=
       List.length (List.filter isLow globalKnowledgeBankData) |}.

(** [pickBy(obj, predicate)] on the listed properties of an object. *)
Definition pickBy {V : Type} (obj : list (string * V))
    (predicate : V -> string -> bool) : list (string * V) :=
  List.filter (fun kv => predicate (snd kv) (fst kv)) obj.

(** The [questionSubmission] object built for one answer. *)
Record Attempt := {
  att_correct : option CorrectLabel;
  att_text : option string;
  att_points : option Q;
  att_dynamicFields : list (string * option string)
}.

Definition attemptOf (questionSubmissionRaw : QuestionData) : Attempt :=
  {| att_correct :=
       match qd_correct questionSubmissionRaw with
       | CTrue => Some LabelTrue
       | CFalse => Some LabelFalse
       | CPartial => Some LabelPartial
       | CAbsent => None
       end;
     att_text := qd_text questionSubmissionRaw;
     att_points := qd_points questionSubmissionRaw;
     att_dynamicFields :=
       pickBy (qd_fields questionSubmissionRaw)
         (fun _ key => JsString.startsWith "answer" key) |}.

(** The value stored per question id by [getCorrectAnswers]. *)
Record QuestionAnswers := {
  attempts : list Attempt;
  bestAnswer : Attempt;
  latestAnswer : Attempt
}.

(** [a < b] on two [points] values.  [None] is read as [undefined], for
    which the comparison is false; a [null] operand would compare as 0,
    and the statements about [bestAnswer] that depend on the comparison
    assume numeric points. *)
Definition pointsLt (a b : option Q) : bool :=
  match a, b with
  | Some x, Some y => Qgtb y x
  | _, _ => false
  end.

Definition isCorrectTrue (c : CorrectFlag) : bool :=
  match c with CTrue => true | _ => false end.

(** The inner loop body of [getCorrectAnswers] on the entry of the
    question, [None] when the question has no entry yet. *)
Definition recordInEntry (entry : option QuestionAnswers)
    (questionSubmissionRaw : QuestionData) : QuestionAnswers :=
  let questionSubmission := attemptOf questionSubmissionRaw in
  let question :=
    match entry with
    | Some q => q
    | None => {| attempts := []; bestAnswer := questionSubmission;
                 latestAnswer := questionSubmission |}
    end in
  {| attempts := attempts question ++ [questionSubmission];
     bestAnswer :=
       if isCorrectTrue (qd_correct questionSubmissionRaw)
          || pointsLt (att_points (bestAnswer question))
               (qd_points questionSubmissionRaw)
       then questionSubmission else bestAnswer question;
     latestAnswer := latestAnswer question |}.

Definition recordAttempt (questions : JsMap.t (K := Z) (V := QuestionAnswers))
    (questionSubmissionRaw : QuestionData)
  : JsMap.t (K := Z) (V := QuestionAnswers) :=
  let questionId := question_id questionSubmissionRaw in
  JsMap.set Z.eqb questions questionId
    (recordInEntry (JsMap.get Z.eqb questions questionId)
       questionSubmissionRaw).

(** The outer loop: iterating a missing [submission_data] throws. *)
Fixpoint collectAnswers (submissions : list CanvasSubmission)
    (questions : JsMap.t (K := Z) (V := QuestionAnswers))
  : JsResult (JsMap.t (K := Z) (V := QuestionAnswers)) :=
  match submissions with
  | [] => Returned questions
  | submission :: rest =>
      match submission_data submission with
      | None => Thrown TypeError
      | Some data =>
          collectAnswers rest (List.fold_left recordAttempt data questions)
      end
  end.

(** [getCorrectAnswers]: [Returned None] is the result [null]. *)
Definition getCorrectAnswers (submissions : list CanvasSubmission)
  : JsResult (option (JsMap.t (K := Z) (V := QuestionAnswers))) :=
  match submissions with
  | [] => Returned None
  | first :: _ =>
      match submission_data first with
      | None => Returned None
      | Some _ =>
          match collectAnswers submissions [] with
          | Returned questions => Returned (Some questions)
          | Thrown e => Thrown e
          end
      end
  end.






(* ================================================================== *)
(** * Access check ([checkAccess], [safeRpcCall])                       *)
(* ================================================================== *)

(** The cached object [quizbank_access].  [expires_at] is the time value
    in milliseconds of [new Date(cachedAccess.expires_at)], [None] for an
    invalid date. *)
Record AccessCache := {
  expires_at : option Z;
  cache_voucher_code : option string;
  is_revoked : bool
}.

(** Reading the cache from browser storage or [localStorage]; the read
    (or [JSON.parse]) may throw. *)
Inductive StorageRead :=
| ReadValue (cachedAccess : option AccessCache)
| ReadThrows.

(** A row answered by the procedure [check_access]. *)
Record AccessRow := {
  has_access : bool;
  access_expires_at : option Z;
  row_voucher_code : option string
}.

(** The outcome of creating the client and calling [check_access]:
    an exception, [{ error }], or [{ data }] ([None] for [null]). *)
Inductive AccessReply :=
| ReplyThrows
| ReplyError
| ReplyData (data : option (list AccessRow)).

(** The fields [hasAccess] and [accessChecked] of the manager. *)
Record AccessFlags := {
  hasAccess : bool;
  accessChecked : bool
}.

Inductive StorageEffect :=
| NoWrite
| WriteCache (accessData : AccessCache)
| RemoveCache.

Record AccessOutcome := {
  flags : AccessFlags;
  storage : StorageEffect;
  serverAsked : bool;
  granted : bool
}.

(** [new Date(expires_at) > now]; false for an invalid date. *)
Definition dateAfter (d : option Z) (now : Z) : bool :=
  match d with
  | Some t => now <? t
  | None => false
  end.

(** [checkAccess].  [now] is the clock at the cache test, [later] the
    clock after the server has answered; [writeOk] tells whether the
    cache write succeeds. *)
Definition checkAccess (this : AccessFlags) (read : StorageRead)
    (now later : Z) (reply : AccessReply) (writeOk : bool) : AccessOutcome :=
  if accessChecked this && hasAccess this
  then {| flags := this; storage := NoWrite; serverAsked := false;
          granted := hasAccess this |}
  else
    let caught (asked : bool) (h : bool) :=
      {| flags := {| hasAccess := h; accessChecked := true |};
         storage := NoWrite; serverAsked := asked; granted := false |} in
    match read with
    | ReadThrows => caught false (hasAccess this)
    | ReadValue cachedAccess =>
        if match cachedAccess with
           | Some c => dateAfter (expires_at c) now && negb (is_revoked c)
           | None => false
           end
        then {| flags := {| hasAccess := true; accessChecked := true |};
                storage := NoWrite; serverAsked := false; granted := true |}
        else
          match reply with
          | ReplyThrows => caught true (hasAccess this)
          | ReplyError =>
              let h := match cachedAccess with
                       | Some c => dateAfter (expires_at c) later
                       | None => false
                       end in
              {| flags := {| hasAccess := h; accessChecked := true |};
                 storage := NoWrite; serverAsked := true; granted := h |}
          | ReplyData (Some (row :: _)) =>
              if has_access row
              then
                if writeOk
                then {| flags := {| hasAccess := true; accessChecked := true |};
                        storage :=
                          WriteCache
                            {| expires_at := access_expires_at row;
                               cache_voucher_code := row_voucher_code row;
                               is_revoked := false |};
                        serverAsked := true; granted := true |}
                else caught true true
              else {| flags := {| hasAccess := false; accessChecked := true |};
                      storage := NoWrite; serverAsked := true;
                      granted := false |}
          | ReplyData _ =>
              {| flags := {| hasAccess := false; accessChecked := true |};
                 storage := NoWrite; serverAsked := true; granted := false |}
          end
    end.

(** [handleAccessDenied(error)]: the new flags, the storage effect and
    the value returned.  [message] is [error.message]. *)
Definition handleAccessDenied (this : AccessFlags) (message : option string)
  : AccessFlags * StorageEffect * bool :=
  match truthyStr message with
  | Some m =>
      if JsString.includes "ACCESS_DENIED" m
      then ({| hasAccess := false; accessChecked := false |}, RemoveCache, true)
      else (this, NoWrite, false)
  | None => (this, NoWrite, false)
  end.

(** What [safeRpcCall] throws. *)
Inductive RpcFailure :=
| AccessRevoked                       (* code ACCESS_REVOKED *)
| OriginalError (message : option string).

(** [safeRpcCall] on the answer of the procedure: [inl data] or
    [inr message] for [{ error }]. *)
Definition safeRpcCall {A : Type} (this : AccessFlags)
    (answer : A + option string)
  : AccessFlags * StorageEffect * (A + RpcFailure) :=
  match answer with
  | inl data => (this, NoWrite, inl data)
  | inr message =>
      match handleAccessDenied this message with
      | (this', effect, true) => (this', effect, inr AccessRevoked)
      | (this', effect, false) => (this', effect, inr (OriginalError message))
      end
  end.

(* ================================================================== *)
(** * Version numbers ([admin.js]) and voucher input ([popup/index.js]) *)
(* ================================================================== *)

(** [s.split('.')]: always at least one part. *)
Fixpoint splitDots (s : string) : list string :=
  match s with
  | EmptyString => [EmptyString]
  | String c r =>
      if Ascii.eqb c "."
      then EmptyString :: splitDots r
      else match splitDots r with
           | part :: parts => String c part :: parts
           | [] => [String c EmptyString]
           end
  end.

(** The value of a string of decimal digits. *)
Definition digitsValue (part : string) : Z :=
  let fix go (acc : Z) (s : string) : Z :=
    match s with
    | EmptyString => acc
    | String c r => go (10 * acc + (JsString.code c - 48)) r
    end in
  go 0 part.

(** [Number(part)] for a part made of decimal digits (the empty part is
    0); [None] stands for [NaN].  Other spellings of numbers are outside
    the model, see [isVersionText]. *)
Definition numberOfPart (part : string) : option Z :=
  if JsString.all JsString.isDigit part then Some (digitsValue part)
  else None.

(** [parts[i] || 0]: a missing part, [NaN] and [0] give 0. *)
Definition partOrZero (parts : list (option Z)) (i : nat) : Z :=
  match List.nth_error parts i with
  | Some (Some n) => n
  | _ => 0
  end.

(** The [for] loop of [compareVersions], [remaining] iterations from
    index [i]. *)
Fixpoint compareLoop (remaining i : nat) (parts1 parts2 : list (option Z))
  : Z :=
  match remaining with
  | O => 0
  | S k =>
      let p1 := partOrZero parts1 i in
      let p2 := partOrZero parts2 i in
      if p1 <? p2 then -1
      else if p2 <? p1 then 1
      else compareLoop k (S i) parts1 parts2
  end.

Definition compareVersions (v1 v2 : string) : Z :=
  let parts1 := List.map numberOfPart (splitDots v1) in
  let parts2 := List.map numberOfPart (splitDots v2) in
  compareLoop (Nat.max (List.length parts1) (List.length parts2)) 0
    parts1 parts2.

(** The version texts of the model: digits and dots, every part of at
    most 15 digits (so that [Number] is exact). *)
Definition isVersionText (v : string) : bool :=
  List.forallb
    (fun part => JsString.all JsString.isDigit part
                 && (String.length part <=? 15)%nat)
    (splitDots v).

(** [toUpperCase] of one code unit below 256, as code units: sharp s
    becomes [SS], and the micro sign and y with diaeresis leave the
    8-bit range. *)
Definition upperUnits (c : ascii) : list Z :=
  let n := JsString.code c in
  if JsString.inRange 97 122 c then [n - 32]
  else if n =? 223 then [83; 83]
  else if n =? 181 then [924]
  else if n =? 255 then [376]
  else if JsString.inRange 224 254 c && negb (n =? 247) then [n - 32]
  else [n].

(** [/[^A-Z0-9-]/] keeps exactly these code units. *)
Definition isVoucherUnit (z : Z) : bool :=
  ((65 <=? z) && (z <=? 90)) || ((48 <=? z) && (z <=? 57)) || (z =? 45).

Definition isVoucherChar (c : ascii) : bool := isVoucherUnit (JsString.code c).

Fixpoint unitsToString (units : list Z) : string :=
  match units with
  | [] => EmptyString
  | z :: r => String (JsString.ofCode z) (unitsToString r)
  end.

(** The [input] handler of the voucher field:
    [value.toUpperCase().replace(/[^A-Z0-9-]/g, '')]. *)
Fixpoint cleanVoucherInput (value : string) : string :=
  match value with
  | EmptyString => EmptyString
  | String c r =>
      (unitsToString (List.filter isVoucherUnit (upperUnits c))
       ++ cleanVoucherInput r)%string
  end.

(* ================================================================== *)
(** * Auxiliary definitions and sample data                             *)
(* ================================================================== *)

(** The guard of the division in [updateBestAnswer]. *)
Definition dividesPoints (s : Submission) : bool :=
  truthyNum (points_earned s) && Qgtb (toNumber (points_possible s)) 0.

Definition sub_3_of_4 : Submission :=
  {| user_answer := None; is_correct := Some false;
     points_earned := Some (3 # 1); points_possible := Some (4 # 1);
     answer_fields := None |}.

Definition sub_correct_no_points : Submission :=
  {| user_answer := None; is_correct := Some true;
     points_earned := None; points_possible := Some (0 # 1);
     answer_fields := None |}.

(** A correct answer recorded with zero points out of four. *)
Definition sub_correct_0_of_4 : Submission :=
  {| user_answer := None; is_correct := Some true;
     points_earned := Some (0 # 1); points_possible := Some (4 # 1);
     answer_fields := None |}.

(** A store holding one best answer of confidence 0.5 for fingerprint
    [q1], and two submissions of confidence 0.5 and 0.51. *)
Definition best_half : BestAnswer :=
  {| best_answer_text := Some "old"%string; best_answer_fields := None;
     confidence_score := Some (1 # 2); source_submission_id := Some 1 |}.

Definition store_half : BestAnswerStore := [("q1"%string, best_half)].

Definition sub_half : Submission :=
  {| user_answer := Some "new"%string; is_correct := Some false;
     points_earned := Some (1 # 1); points_possible := Some (2 # 1);
     answer_fields := None |}.

Definition sub_051 : Submission :=
  {| user_answer := Some "new"%string; is_correct := Some false;
     points_earned := Some (51 # 1); points_possible := Some (100 # 1);
     answer_fields := None |}.


(** [e] occurs in [l], every earlier candidate for the same fingerprint
    has strictly smaller confidence and no later one has greater: [e] is
    the first candidate of maximal confidence for its fingerprint. *)
Definition firstMaxIn (l : list BestAnswerRow) (e : BestAnswerRow) : Prop :=
  exists l1 l2,
    l = l1 ++ e :: l2
    /\ (forall c, In c l1 -> ba_question_hash c = ba_question_hash e ->
                  (ba_confidence_score c < ba_confidence_score e)%Q)
    /\ (forall c, In c l2 -> ba_question_hash c = ba_question_hash e ->
                  (ba_confidence_score c <= ba_confidence_score e)%Q).

(** What holds of [bestAnswersByHash] after the prefix [p] of the input. *)
Definition dedupeInv (p : list BestAnswerRow)
    (m : list (string * BestAnswerRow)) : Prop :=
  NoDup (JsMap.keys m)
  /\ (forall h, In h (List.map ba_question_hash p) <-> In h (JsMap.keys m))
  /\ (forall k e, In (k, e) m -> k = ba_question_hash e /\ firstMaxIn p e).

(** Three candidates for one fingerprint, confidences 0.4, 0.9, 0.9. *)
Definition candidate (answer : string) (confidence : Q) : BestAnswerRow :=
  {| ba_question_hash := "q1";
     ba_answer_text := Some answer;
     ba_answer_fields :=
       {| question_id := 1; qd_question_text := None;
          qd_question_type := None; qd_text := Some answer;
          qd_correct := CTrue; qd_points := Some confidence;
          qd_points_possible := Some 1%Q; qd_fields := [] |};
     ba_confidence_score := confidence;
     ba_source_submission_id := None |}.

Definition three_candidates : list BestAnswerRow :=
  [candidate "first" (4 # 10); candidate "second" (9 # 10);
   candidate "third" (9 # 10)].


(** An answer marked wrong that earned 3 of 4 points. *)
Definition qd_wrong_3_of_4 : QuestionData :=
  {| question_id := 1; qd_question_text := None; qd_question_type := None;
     qd_text := Some "x"%string; qd_correct := CFalse;
     qd_points := Some (3 # 1); qd_points_possible := Some (4 # 1);
     qd_fields := [] |}.

(** An answer marked correct that earned 3 of 4 points. *)
Definition qd_right_3_of_4 : QuestionData :=
  {| question_id := 1; qd_question_text := None; qd_question_type := None;
     qd_text := Some "x"%string; qd_correct := CTrue;
     qd_points := Some (3 # 1); qd_points_possible := Some (4 # 1);
     qd_fields := [] |}.


(** A second visit to question 5 of course 1: the stored record still has
    the temporary identity and quality 0 of a placeholder, the page now
    shows the real text. *)
Definition stored_placeholder : ExistingQuestion :=
  {| canvas_question_id := Some 5; question_hash := "canvas_5_1";
     text_quality_score := Some 0; first_seen_quiz_id := Some 7 |}.

Definition answer_5 : QuestionData :=
  {| question_id := 5; qd_question_text := None; qd_question_type := None;
     qd_text := Some "4"%string; qd_correct := CTrue;
     qd_points := Some 1%Q; qd_points_possible := Some 1%Q;
     qd_fields := [] |}.

Definition dom_5 (opts : option (list string)) : DomQuestion :=
  {| dom_canvas_question_id := 5;
     questionText := Some "What is 2+2?"%string;
     questionType := Some "short_answer_question"%string;
     options := opts |}.

Definition second_visit (opts : option (list string)) : BatchPlan :=
  processCanvasSubmissionsWithQuestionData 1 9
    [{| submission_data := Some [answer_5] |}] [dom_5 opts]
    [stored_placeholder] [].

(** A first visit to question 5 in quiz [quizId] of course [courseId],
    with nothing stored and no text available. *)
Definition first_visit (courseId quizId : Z) : BatchPlan :=
  processCanvasSubmissionsWithQuestionData courseId quizId
    [{| submission_data := Some [answer_5] |}] [] [] [].

(** Every value of [processedQuestions] is a plain hash string. *)
Definition onlyHashes (m : list (Z * ProcessedEntry)) : Prop :=
  Forall (fun e => exists h, e = HashOnly h) (JsMap.values m).

(** The temporary identity of a placeholder question. *)
Definition temporaryHash (questionId courseId : Z) : string :=
  ("canvas_" ++ JsNumber.toString questionId ++ "_"
   ++ JsNumber.toString courseId)%string.


(** [0-9a-z], the digits of [toString(36)]. *)
Definition isBase36Digit (c : ascii) : bool :=
  JsString.inRange 48 57 c || JsString.inRange 97 122 c.


(** The multiply-and-add polynomial over the code units, without
    wrap-around: [h * 31^n + c1 * 31^(n-1) + ... + cn]. *)
Fixpoint polyHash (h : Z) (str : string) : Z :=
  match str with
  | EmptyString => h
  | String c r => polyHash (31 * h + JsString.code c) r
  end.


(** All 256 code units of the string model. *)
Definition allAscii : list ascii := List.map ascii_of_nat (seq 0 256).

(** The code units that can occur in a normalised question text:
    [a-z], [0-9], underscore, space, [?], [.], [!]. *)
Definition isCleanTextChar (c : ascii) : bool :=
  JsString.inRange 97 122 c || JsString.isDigit c
  || (JsString.code c =? 95) || (JsString.code c =? 32)
  || Ascii.eqb c "?" || Ascii.eqb c "." || Ascii.eqb c "!".

Definition headIsSpace (s : string) : bool :=
  match s with
  | String c _ => JsString.isSpace c
  | EmptyString => false
  end.

Fixpoint lastIsSpace (s : string) : bool :=
  match s with
  | EmptyString => false
  | String c EmptyString => JsString.isSpace c
  | String _ r => lastIsSpace r
  end.


(** All answers of a batch in the order the two loops visit them. *)
Definition allQuestionData (submissions : list CanvasSubmission)
  : list QuestionData :=
  List.flat_map
    (fun s => match submission_data s with Some data => data | None => [] end)
    submissions.

(** [row] was built from the first answer of [all] for its question. *)
Definition firstAnswerFor (all : list QuestionData) (quizId : Z)
    (row : SubmissionRow) : Prop :=
  exists l1 qd l2,
    all = l1 ++ qd :: l2
    /\ ~ In (question_id qd) (List.map question_id l1)
    /\ sub_canvas_question_id row = question_id qd
    /\ sub_quiz_id row = quizId
    /\ sub_submission row = submissionOf qd.

(** What holds of the arrays of the main loop after the answers [p]. *)
Definition batchInv (quizId : Z) (p : list QuestionData) (st : BatchState)
  : Prop :=
  processedQuestions st
  = List.map (fun r => (sub_canvas_question_id r, HashOnly (sub_question_hash r)))
      (submissionsToSave st)
  /\ NoDup (List.map sub_canvas_question_id (submissionsToSave st))
  /\ (forall id, In id (List.map sub_canvas_question_id (submissionsToSave st))
                 <-> In id (List.map question_id p))
  /\ List.map ba_question_hash (bestAnswersToUpdate st)
     = List.map sub_question_hash (submissionsToSave st)
  /\ Forall (firstAnswerFor p quizId) (submissionsToSave st)
  /\ (forall row, In row (questionsToSave st) ->
                  In (row_question_hash row)
                    (List.map sub_question_hash (submissionsToSave st))).


(** The stored record [q] has the (truthy) Canvas id [id]. *)
Definition hasCanvasId (id : Z) (q : ExistingQuestion) : bool :=
  match truthyId (canvas_question_id q) with
  | Some z => z =? id
  | None => false
  end.

(** The first record of highest quality in a list, computed from the
    right: the head wins unless a later record is strictly better. *)
Fixpoint firstMaxR (qs : list ExistingQuestion) : option ExistingQuestion :=
  match qs with
  | [] => None
  | x :: r =>
      match firstMaxR r with
      | None => Some x
      | Some b => if qualityOr0 x <? qualityOr0 b then Some b else Some x
      end
  end.

(** One step of a running choice that keeps the current record unless
    the next one is strictly better. *)
Definition pickBetter (best : option ExistingQuestion) (q : ExistingQuestion)
  : option ExistingQuestion :=
  match best with
  | None => Some q
  | Some e => if qualityOr0 e <? qualityOr0 q then Some q else Some e
  end.


(** An answer with negative points that Canvas marks correct. *)
Definition qd_negative_points : QuestionData :=
  {| question_id := 1; qd_question_text := None; qd_question_type := None;
     qd_text := Some "x"%string; qd_correct := CTrue;
     qd_points := Some (- (1 # 1))%Q; qd_points_possible := Some (1 # 1);
     qd_fields := [] |}.


(** The answers of a batch of submissions to the question [id]. *)
Definition answersFor (id : Z) (submissions : list CanvasSubmission)
  : list QuestionData :=
  List.filter (fun raw => question_id raw =? id) (allQuestionData submissions).

(** The running choice of [bestAnswer] over further answers. *)
Definition betterAttempt (best : Attempt) (raw : QuestionData) : Attempt :=
  if isCorrectTrue (qd_correct raw)
     || pointsLt (att_points best) (qd_points raw)
  then attemptOf raw else best.


(** [raw] is the first answer of [p] with the most points. *)
Definition firstMaxPoints (p : list QuestionData) (raw : QuestionData) : Prop :=
  exists l1 l2,
    p = l1 ++ raw :: l2
    /\ (forall c, In c l1 ->
                  (toNumber (qd_points c) < toNumber (qd_points raw))%Q)
    /\ (forall c, In c l2 ->
                  (toNumber (qd_points c) <= toNumber (qd_points raw))%Q).

(** The answer is not marked correct and has numeric points. *)
Definition gradedWrong (raw : QuestionData) : Prop :=
  isCorrectTrue (qd_correct raw) = false /\ exists x, qd_points raw = Some x.

(** Three answers to question 5, none marked correct: 1, 3 and 3 points. *)
Definition wrong_answer (text : string) (pts : Q) : QuestionData :=
  {| question_id := 5; qd_question_text := None; qd_question_type := None;
     qd_text := Some text; qd_correct := CFalse;
     qd_points := Some pts; qd_points_possible := Some (4 # 1);
     qd_fields := [] |}.

Definition three_attempts : list CanvasSubmission :=
  [{| submission_data := Some [wrong_answer "a" (1 # 1)] |};
   {| submission_data := Some [wrong_answer "b" (3 # 1)] |};
   {| submission_data := Some [wrong_answer "c" (3 # 1)] |}].


(** The points of an answer as both confidence computations read them:
    [typeof points === 'number' ? points : 0] in the submission row and
    [points || 0] inline. *)
Definition pointsOf (questionData : QuestionData) : Q :=
  toNumber (qd_points questionData).

(** [typeof points_possible === 'number' ? points_possible : 1], the
    value stored in the submission row. *)
Definition possibleOf (questionData : QuestionData) : Q :=
  match qd_points_possible questionData with Some pp => pp | None => 1%Q end.

(** [points_possible || 1], the divisor of the inline computation. *)
Definition inlineDivisor (questionData : QuestionData) : Q :=
  if Qeq_bool (possibleOf questionData) 0 then 1%Q
  else possibleOf questionData.

(** An answer marked correct with half a point of 0 possible. *)
Definition qd_right_half_of_0 : QuestionData :=
  {| question_id := 1; qd_question_text := None; qd_question_type := None;
     qd_text := Some "x"%string; qd_correct := CTrue;
     qd_points := Some (1 # 2); qd_points_possible := Some (0 # 1);
     qd_fields := [] |}.


(** A confidence property as the argument of [scoreToCorrect], which
    labels [null] and [undefined] alike (both of its comparisons are
    false). *)
Definition scoreOf (x : JsField Q) : option Q :=
  match x with
  | Value q => Some q
  | Null | Undefined => None
  end.

(** A row without a [confidence_score] property. *)
Definition lacksConfidence (q : KnowledgeItem) : bool :=
  match kb_confidence_score q with
  | Undefined => true
  | _ => false
  end.


(** What happens to a manager over time, as far as the two access flags
    are concerned: a call of [checkAccess], or a failed procedure call,
    which [safeRpcCall] passes to [handleAccessDenied].  No other code
    writes [hasAccess] or [accessChecked]. *)
Inductive ManagerEvent :=
| CheckAccess (read : StorageRead) (now later : Z) (reply : AccessReply)
    (writeOk : bool)
| RpcFailed (message : option string).

(** The outcomes of the [checkAccess] calls of a history, in order, each
    call starting from the flags the events before it have left. *)
Fixpoint managerRun (this : AccessFlags) (events : list ManagerEvent)
  : list AccessOutcome :=
  match events with
  | [] => []
  | CheckAccess read now later reply writeOk :: rest =>
      let outcome := checkAccess this read now later reply writeOk in
      outcome :: managerRun (flags outcome) rest
  | RpcFailed message :: rest =>
      managerRun (fst (fst (handleAccessDenied this message))) rest
  end.

(** A failed procedure call whose message contains [ACCESS_DENIED]. *)
Definition revokes (e : ManagerEvent) : bool :=
  match e with
  | RpcFailed message =>
      match truthyStr message with
      | Some m => JsString.includes "ACCESS_DENIED" m
      | None => false
      end
  | CheckAccess _ _ _ _ _ => false
  end.


(* ================================================================== *)
(** * Properties                                                        *)
(* ================================================================== *)

(** ** Numbers *)

Lemma Qgtb_true (a b : Q) : Qgtb a b = true <-> (b < a)%Q.
Proof.
  unfold Qgtb. rewrite negb_true_iff. split; intros H.
  - apply Qnot_le_lt. intros Hle. apply Qle_bool_iff in Hle. congruence.
  - destruct (Qle_bool a b) eqn:E; [|reflexivity].
    apply Qle_bool_iff in E. lra.
Qed.

Lemma Qgtb_false (a b : Q) : Qgtb a b = false <-> (a <= b)%Q.
Proof.
  unfold Qgtb. rewrite negb_false_iff. apply Qle_bool_iff.
Qed.

Lemma truthyNum_true (x : option Q) :
  truthyNum x = true <-> exists q, x = Some q /\ ~ (q == 0)%Q.
Proof.
  destruct x as [q|]; simpl.
  - rewrite negb_true_iff. split.
    + intros H. exists q. split; [reflexivity|]. now apply Qeq_bool_neq.
    + intros (q' & [= <-] & Hq). destruct (Qeq_bool q 0) eqn:E; [|reflexivity].
      apply Qeq_bool_iff in E. contradiction.
  - split; [discriminate|]. intros (q & H & _). discriminate.
Qed.

Lemma truthyNum_false (x : option Q) :
  truthyNum x = false -> (toNumber x == 0)%Q.
Proof.
  destruct x as [q|]; simpl; [|reflexivity].
  rewrite negb_false_iff. apply Qeq_bool_iff.
Qed.

(** [x || 0] is the number itself, [null] read as 0. *)
Lemma numOr_zero (x : option Q) : (numOr x 0 == toNumber x)%Q.
Proof.
  unfold numOr. destruct (truthyNum x) eqn:E; [reflexivity|].
  symmetry. now apply truthyNum_false.
Qed.

Ltac split_min a b :=
  let H := fresh "Hlt" in
  let E := fresh "Emin" in
  destruct (Q.min_spec a b) as [[H E]|[H E]];
  generalize dependent (Qmin a b); intros.

Ltac split_max a b :=
  let H := fresh "Hlt" in
  let E := fresh "Emax" in
  destruct (Q.max_spec a b) as [[H E]|[H E]];
  generalize dependent (Qmax a b); intros.

(** Case analysis on every [Qmin] and [Qmax] of the goal and context. *)
Ltac split_minmax :=
  intros;
  repeat match goal with
  | |- context [Qmin ?a ?b] => split_min a b
  | |- context [Qmax ?a ?b] => split_max a b
  | _ : context [Qmin ?a ?b] |- _ => split_min a b
  | _ : context [Qmax ?a ?b] |- _ => split_max a b
  end.

Lemma clamp_unit_idem (x : Q) :
  (Qmax 0 (Qmin 1 (Qmin 1 x)) == clamp x 0 1)%Q.
Proof. unfold clamp. split_minmax; lra. Qed.

Lemma clamp_unit_0 : (Qmax 0 (Qmin 1 0) == 0)%Q.
Proof. reflexivity. Qed.

Lemma clamp_unit_1 : (Qmax 0 (Qmin 1 1) == 1)%Q.
Proof. reflexivity. Qed.

Lemma Qdiv_pos (a b : Q) : (0 < a)%Q -> (0 < b)%Q -> (0 < a / b)%Q.
Proof. intros Ha Hb. apply Qlt_shift_div_l; [assumption|lra]. Qed.

Lemma Qdiv_nonpos (a b : Q) : (a <= 0)%Q -> (0 < b)%Q -> (a / b <= 0)%Q.
Proof. intros Ha Hb. apply Qle_shift_div_r; [assumption|lra]. Qed.

(** ** The confidence score of [updateBestAnswer] *)

Lemma confidenceScore_guard (s : Submission) :
  truthyNum (points_earned s) && truthyNum (points_possible s)
  && Qgtb (toNumber (points_possible s)) 0 = dividesPoints s.
Proof.
  unfold dividesPoints.
  destruct (truthyNum (points_earned s)); simpl; [|reflexivity].
  destruct (Qgtb (toNumber (points_possible s)) 0) eqn:G;
    [|now rewrite andb_false_r].
  rewrite andb_true_r. apply Qgtb_true in G.
  destruct (points_possible s) as [q|]; simpl in *; [|lra].
  rewrite negb_true_iff. destruct (Qeq_bool q 0) eqn:E; [|reflexivity].
  apply Qeq_bool_iff in E. lra.
Qed.

Lemma confidenceScore_eq (s : Submission) :
  (confidenceScore s ==
   if dividesPoints s
   then clamp (toNumber (points_earned s) / toNumber (points_possible s)) 0 1
   else if truthyBool (is_correct s) then 1 else 0)%Q.
Proof.
  unfold confidenceScore. rewrite confidenceScore_guard.
  destruct (dividesPoints s).
  - apply clamp_unit_idem.
  - destruct (truthyBool (is_correct s)); reflexivity.
Qed.

Lemma confidenceScore_range (s : Submission) :
  (0 <= confidenceScore s <= 1)%Q.
Proof. unfold confidenceScore. split_minmax; lra. Qed.

(** C1, as stated, fails: for a correct submission with [pointsEarned = 0]
    and [pointsPossible = 4] the stated rule gives [clamp(0/4) = 0], while
    [updateBestAnswer] skips the division (its guard asks for a non-zero
    [points_earned]) and keeps 1.0. *)
Lemma confidenceScore_not_spec_at_zero_points :
  (confidenceScore sub_correct_0_of_4 == 1)%Q /\
  (confidence_spec sub_correct_0_of_4 == 0)%Q /\
  ~ (confidenceScore sub_correct_0_of_4 == confidence_spec sub_correct_0_of_4)%Q.
Proof.
  repeat split; try reflexivity.
  vm_compute. discriminate.
Qed.

(** C1 (amended): the confidence of [updateBestAnswer] is
    [clamp(pointsEarned / pointsPossible, 0, 1)] when [pointsEarned] is a
    non-zero number and [pointsPossible > 0], and otherwise 1.0 for a
    correct outcome and 0.0 for any other.  It therefore equals the stated
    rule except for a correct submission with zero or missing
    [pointsEarned] and [pointsPossible > 0], which gets 1.0.  3 of 4 gives
    0.75; correct with [pointsPossible = 0] gives 1.0. *)
Theorem confidenceScore_rule :
  forall s : Submission,
    (confidenceScore s ==
       if truthyNum (points_earned s)
          && Qgtb (toNumber (points_possible s)) 0
       then clamp (toNumber (points_earned s) / toNumber (points_possible s))
              0 1
       else if truthyBool (is_correct s) then 1 else 0)%Q
    /\ (truthyNum (points_earned s) = true
        \/ truthyBool (is_correct s) = false
        \/ Qgtb (toNumber (points_possible s)) 0 = false ->
        (confidenceScore s == confidence_spec s)%Q)
    /\ (confidenceScore sub_3_of_4 == 75 # 100)%Q
    /\ (confidenceScore sub_correct_no_points == 1)%Q.
Proof.
  intros s. split; [apply confidenceScore_eq|].
  split; [|split; reflexivity].
  intros H. rewrite confidenceScore_eq. unfold confidence_spec, dividesPoints.
  destruct (Qgtb (toNumber (points_possible s)) 0) eqn:G.
  - rewrite andb_true_r.
    destruct (truthyNum (points_earned s)) eqn:T; [reflexivity|].
    destruct H as [H|[H|H]]; try discriminate. rewrite H.
    apply truthyNum_false in T. apply Qgtb_true in G.
    unfold clamp.
    assert (D : (toNumber (points_earned s) / toNumber (points_possible s)
                 == 0)%Q).
    { rewrite T. unfold Qdiv. ring. }
    split_minmax; lra.
  - rewrite andb_false_r. reflexivity.
Qed.

Lemma confidenceScore_rule_witness :
  truthyNum (points_earned sub_3_of_4) = true /\
  (confidenceScore sub_3_of_4 == confidence_spec sub_3_of_4)%Q.
Proof.
  split; [reflexivity|].
  apply (confidenceScore_rule sub_3_of_4). left. reflexivity.
Defined.

(** ** Insertion-ordered maps *)

Section JsMapFacts.
Context {K V : Type} (eqb : K -> K -> bool).
Hypothesis eqb_eq : forall a b, eqb a b = true <-> a = b.

Lemma eqb_same (k : K) : eqb k k = true.
Proof. now apply eqb_eq. Qed.

Lemma eqb_diff (a b : K) : a <> b -> eqb a b = false.
Proof.
  intros H. destruct (eqb a b) eqn:E; [|reflexivity].
  apply eqb_eq in E. contradiction.
Qed.

Lemma get_set_same (m : list (K * V)) (k : K) (v : V) :
  JsMap.get eqb (JsMap.set eqb m k v) k = Some v.
Proof.
  induction m as [|[k' v'] r IH]; simpl.
  - now rewrite eqb_same.
  - destruct (eqb k k') eqn:E; simpl.
    + now rewrite eqb_same.
    + now rewrite E.
Qed.

Lemma get_set_other (m : list (K * V)) (k k0 : K) (v : V) :
  k0 <> k -> JsMap.get eqb (JsMap.set eqb m k v) k0 = JsMap.get eqb m k0.
Proof.
  intros Hne. induction m as [|[k' v'] r IH]; simpl.
  - now rewrite (eqb_diff k0 k).
  - destruct (eqb k k') eqn:E; simpl.
    + apply eqb_eq in E. subst k'. now rewrite (eqb_diff k0 k).
    + now rewrite IH.
Qed.

Lemma get_None (m : list (K * V)) (k : K) :
  JsMap.get eqb m k = None <-> ~ In k (JsMap.keys m).
Proof.
  induction m as [|[k' v'] r IH]; simpl.
  - tauto.
  - destruct (eqb k k') eqn:E.
    + apply eqb_eq in E. split; [discriminate|]. intros H. exfalso. auto.
    + rewrite IH. split.
      * intros H [H'|H']; [|tauto]. subst k'. now rewrite eqb_same in E.
      * tauto.
Qed.

Lemma get_Some_In (m : list (K * V)) (k : K) (v : V) :
  JsMap.get eqb m k = Some v -> In (k, v) m.
Proof.
  induction m as [|[k' v'] r IH]; simpl; [discriminate|].
  destruct (eqb k k') eqn:E.
  - apply eqb_eq in E. intros [= <-]. left. now subst.
  - auto.
Qed.

Lemma In_get (m : list (K * V)) (k : K) (v : V) :
  NoDup (JsMap.keys m) -> In (k, v) m -> JsMap.get eqb m k = Some v.
Proof.
  induction m as [|[k' v'] r IH]; simpl; [tauto|].
  intros Hnd [H|H].
  - injection H as -> ->. now rewrite eqb_same.
  - inversion Hnd as [|? ? Hnot Hnd']; subst.
    destruct (eqb k k') eqn:E; [|now apply IH].
    apply eqb_eq in E. subst k'. exfalso. apply Hnot.
    change k with (fst (k, v)). now apply in_map.
Qed.

Lemma keys_set (m : list (K * V)) (k k0 : K) (v : V) :
  In k0 (JsMap.keys (JsMap.set eqb m k v)) <-> k0 = k \/ In k0 (JsMap.keys m).
Proof.
  induction m as [|[k' v'] r IH]; simpl.
  - intuition congruence.
  - destruct (eqb k k') eqn:E; simpl.
    + apply eqb_eq in E. subst k'. intuition congruence.
    + rewrite IH. intuition congruence.
Qed.

Lemma NoDup_keys_set (m : list (K * V)) (k : K) (v : V) :
  NoDup (JsMap.keys m) -> NoDup (JsMap.keys (JsMap.set eqb m k v)).
Proof.
  induction m as [|[k' v'] r IH]; simpl; intros Hnd.
  - constructor; [tauto|constructor].
  - inversion Hnd as [|? ? Hnot Hnd']; subst.
    destruct (eqb k k') eqn:E; simpl.
    + apply eqb_eq in E. subst k'. now constructor.
    + constructor; [|now apply IH].
      fold (JsMap.keys (JsMap.set eqb r k v)). rewrite keys_set.
      intros [H|H]; [|contradiction]. subst k'. now rewrite eqb_same in E.
Qed.

Lemma In_set (m : list (K * V)) (k k0 : K) (v v0 : V) :
  NoDup (JsMap.keys m) ->
  In (k0, v0) (JsMap.set eqb m k v) ->
  (k0 = k /\ v0 = v) \/ (k0 <> k /\ In (k0, v0) m).
Proof.
  induction m as [|[k' v'] r IH]; simpl; intros Hnd.
  - intros [H|[]]. injection H as <- <-. now left.
  - inversion Hnd as [|? ? Hnot Hnd']; subst.
    destruct (eqb k k') eqn:E; simpl.
    + apply eqb_eq in E. subst k'. intros [H|H].
      * injection H as <- <-. now left.
      * right. split; [|now right].
        intros ->. apply Hnot. change k with (fst (k, v0)). now apply in_map.
    + intros [H|H].
      * injection H as <- <-. right. split; [|now left].
        intros ->. now rewrite eqb_same in E.
      * destruct (IH Hnd' H) as [?|[? ?]]; [now left|right; auto].
Qed.

Lemma set_In_same (m : list (K * V)) (k : K) (v : V) :
  In (k, v) (JsMap.set eqb m k v).
Proof. apply get_Some_In, get_set_same. Qed.

Lemma set_In_other (m : list (K * V)) (k k0 : K) (v v0 : V) :
  k0 <> k -> In (k0, v0) m -> In (k0, v0) (JsMap.set eqb m k v).
Proof.
  intros Hne. induction m as [|[k' v'] r IH]; simpl; [tauto|].
  destruct (eqb k k') eqn:E; simpl.
  - apply eqb_eq in E. subst k'. intros [H|H]; [congruence|now right].
  - intros [H|H]; [now left|right; auto].
Qed.

(** Setting a key twice leaves only the second value for it. *)
Lemma set_set (m : list (K * V)) (k : K) (v1 v2 : V) :
  JsMap.set eqb (JsMap.set eqb m k v1) k v2 = JsMap.set eqb m k v2.
Proof.
  induction m as [|[k' v'] r IH]; simpl.
  - now rewrite eqb_same.
  - destruct (eqb k k') eqn:E; simpl.
    + now rewrite eqb_same.
    + now rewrite E, IH.
Qed.

Lemma values_set (m : list (K * V)) (k : K) (v : V) (P : V -> Prop) :
  Forall P (JsMap.values m) -> P v ->
  Forall P (JsMap.values (JsMap.set eqb m k v)).
Proof.
  intros Hm Hv. induction m as [|[k' v'] r IH]; simpl.
  - now constructor.
  - inversion Hm; subst. destruct (eqb k k'); simpl; constructor; auto.
Qed.

End JsMapFacts.

(** ** The strict-greater rule of [updateBestAnswer] *)

Lemma updateBestAnswer_request (cur : option BestAnswer) (h : string)
    (s : Submission) (sid : Z) :
  fst (updateBestAnswer cur h s sid) <> None <->
  cur = None \/
  exists best, cur = Some best /\
               (toNumber (confidence_score best) < confidenceScore s)%Q.
Proof.
  unfold updateBestAnswer. destruct cur as [best|].
  - destruct (Qgtb _ _) eqn:G; simpl.
    + apply Qgtb_true in G. rewrite numOr_zero in G. split; [|discriminate].
      intros _. right. now exists best.
    + apply Qgtb_false in G. rewrite numOr_zero in G. split; [congruence|].
      intros [H|(b & [= <-] & H)]; [discriminate|lra].
  - simpl. split; [now left|discriminate].
Qed.

Lemma updateBestAnswer_written (cur : option BestAnswer) (h : string)
    (s : Submission) (sid : Z) :
  fst (updateBestAnswer cur h s sid) <> None ->
  fst (updateBestAnswer cur h s sid) =
  Some {| p_question_hash := h; p_answer_text := user_answer s;
          p_answer_fields := answer_fields s;
          p_confidence_score := confidenceScore s;
          p_source_submission_id := sid |}.
Proof.
  unfold updateBestAnswer.
  destruct (match cur with None => true | Some _ => _ end); simpl;
    [reflexivity|congruence].
Qed.

(** C2: [updateBestAnswer] sends a write exactly when there is no current
    best answer or the submission's confidence is strictly greater than
    the stored one; otherwise it returns nothing and the store is
    unchanged.  A written record references the submission.  Against a
    stored confidence of 0.5, a submission of confidence 0.5 changes
    nothing and one of confidence 0.51 replaces the record. *)
Theorem updateBestAnswer_strictly_greater :
  forall (store : BestAnswerStore) (h : string) (s : Submission) (sid : Z),
    let cur := qb_get_best_answer store h in
    let request := fst (updateBestAnswer cur h s sid) in
    (request <> None <->
     cur = None \/
     exists best, cur = Some best /\
                  (toNumber (confidence_score best) < confidenceScore s)%Q)
    /\ (request = None ->
        snd (updateBestAnswer cur h s sid) = None /\
        runUpdateBestAnswer store h s sid = store)
    /\ (request <> None ->
        qb_get_best_answer (runUpdateBestAnswer store h s sid) h =
        Some {| best_answer_text := user_answer s;
                best_answer_fields := answer_fields s;
                confidence_score := Some (confidenceScore s);
                source_submission_id := Some sid |})
    /\ runUpdateBestAnswer store_half "q1" sub_half 2 = store_half
    /\ option_map source_submission_id
         (qb_get_best_answer (runUpdateBestAnswer store_half "q1" sub_051 2)
            "q1") = Some (Some 2).
Proof.
  intros store h s sid cur request.
  split; [apply updateBestAnswer_request|].
  split; [|split; [|split; reflexivity]].
  - intros Hnone. unfold runUpdateBestAnswer. fold cur request.
    rewrite Hnone. split; [|reflexivity].
    subst request. unfold updateBestAnswer in *.
    destruct (match cur with None => true | Some _ => _ end);
      [discriminate|reflexivity].
  - intros Hsome. unfold runUpdateBestAnswer. fold cur.
    rewrite (updateBestAnswer_written cur h s sid Hsome).
    unfold qb_update_best_answer, qb_get_best_answer. simpl.
    apply get_set_same. apply String.eqb_eq.
Qed.

Lemma updateBestAnswer_strictly_greater_witness :
  fst (updateBestAnswer (qb_get_best_answer store_half "q1") "q1" sub_half 2)
  = None /\
  runUpdateBestAnswer store_half "q1" sub_half 2 = store_half.
Proof.
  split; [reflexivity|].
  destruct (updateBestAnswer_strictly_greater store_half "q1" sub_half 2)
    as (_ & Hnoop & _).
  apply Hnoop. reflexivity.
Defined.

(** ** De-duplication of best answers *)

Lemma firstMaxIn_bound (p : list BestAnswerRow) (e c : BestAnswerRow) :
  firstMaxIn p e -> In c p -> ba_question_hash c = ba_question_hash e ->
  (ba_confidence_score c <= ba_confidence_score e)%Q.
Proof.
  intros (l1 & l2 & -> & Hb & Ha) Hin Hh.
  apply in_app_or in Hin. destruct Hin as [Hin|[<-|Hin]].
  - apply Qlt_le_weak. now apply Hb.
  - apply Qle_refl.
  - now apply Ha.
Qed.

Lemma firstMaxIn_snoc (p : list BestAnswerRow) (e x : BestAnswerRow) :
  firstMaxIn p e ->
  (ba_question_hash x = ba_question_hash e ->
   (ba_confidence_score x <= ba_confidence_score e)%Q) ->
  firstMaxIn (p ++ [x]) e.
Proof.
  intros (l1 & l2 & -> & Hb & Ha) Hx.
  exists l1, (l2 ++ [x]). split; [|split].
  - now rewrite <- app_assoc.
  - exact Hb.
  - intros c Hin Hh. apply in_app_or in Hin.
    destruct Hin as [Hin|[<-|[]]]; auto.
Qed.

Lemma firstMaxIn_last (p : list BestAnswerRow) (x : BestAnswerRow) :
  (forall c, In c p -> ba_question_hash c = ba_question_hash x ->
             (ba_confidence_score c < ba_confidence_score x)%Q) ->
  firstMaxIn (p ++ [x]) x.
Proof.
  intros H. exists p, []. split; [reflexivity|]. split; [exact H|].
  intros c [].
Qed.

Lemma dedupeInv_step (p : list BestAnswerRow)
    (m : list (string * BestAnswerRow)) (x : BestAnswerRow) :
  dedupeInv p m -> dedupeInv (p ++ [x]) (dedupeStep m x).
Proof.
  intros (Hnd & Hkeys & Hent).
  assert (Hkeys' : forall m' : list (string * BestAnswerRow),
             (forall h, In h (JsMap.keys m') <->
                        h = ba_question_hash x \/ In h (JsMap.keys m)) ->
             forall h, In h (List.map ba_question_hash (p ++ [x])) <->
                       In h (JsMap.keys m')).
  { intros m' Hm' h. rewrite Hm', map_app, in_app_iff, Hkeys. simpl.
    intuition congruence. }
  unfold dedupeStep.
  destruct (JsMap.get String.eqb m (ba_question_hash x)) as [existing|] eqn:G.
  - pose proof (get_Some_In _ String.eqb_eq _ _ _ G) as Hin.
    destruct (Hent _ _ Hin) as [Hk Hfm].
    assert (Hpresent : forall h, h = ba_question_hash x \/ In h (JsMap.keys m)
                                 <-> In h (JsMap.keys m)).
    { intros h. split; [|tauto]. intros [->|H]; [|exact H].
      change (ba_question_hash x) with (fst (ba_question_hash x, existing)).
      now apply in_map. }
    destruct (Qgtb _ _) eqn:Q.
    + apply Qgtb_true in Q. split; [|split].
      * now apply NoDup_keys_set; [apply String.eqb_eq|].
      * apply Hkeys'. intros h. apply keys_set, String.eqb_eq.
      * intros k e He.
        apply (In_set _ String.eqb_eq) in He; [|exact Hnd].
        destruct He as [[-> ->]|[Hne He]].
        -- split; [reflexivity|]. apply firstMaxIn_last.
           intros c Hc Hh. rewrite Hk in Hh.
           pose proof (firstMaxIn_bound _ _ _ Hfm Hc Hh). lra.
        -- destruct (Hent _ _ He) as [-> Hf]. split; [reflexivity|].
           apply firstMaxIn_snoc; [exact Hf|]. intros Hh. now symmetry in Hh.
    + apply Qgtb_false in Q. split; [exact Hnd|split].
      * apply Hkeys'. intros h. symmetry. apply Hpresent.
      * intros k e He. destruct (Hent _ _ He) as [-> Hf].
        split; [reflexivity|]. apply firstMaxIn_snoc; [exact Hf|].
        intros Hh.
        assert (e = existing) as ->; [|exact Q].
        rewrite <- Hh in He.
        pose proof (In_get _ String.eqb_eq _ _ _ Hnd He) as G'.
        congruence.
  - apply (get_None _ String.eqb_eq) in G. split; [|split].
    + now apply NoDup_keys_set; [apply String.eqb_eq|].
    + apply Hkeys'. intros h. apply keys_set, String.eqb_eq.
    + intros k e He.
      apply (In_set _ String.eqb_eq) in He; [|exact Hnd].
      destruct He as [[-> ->]|[Hne He]].
      * split; [reflexivity|]. apply firstMaxIn_last.
        intros c Hc Hh. exfalso. apply G, Hkeys. rewrite <- Hh.
        now apply in_map.
      * destruct (Hent _ _ He) as [-> Hf]. split; [reflexivity|].
        apply firstMaxIn_snoc; [exact Hf|]. intros Hh. now symmetry in Hh.
Qed.

Lemma dedupeInv_fold (rest p : list BestAnswerRow)
    (m : list (string * BestAnswerRow)) :
  dedupeInv p m ->
  dedupeInv (p ++ rest) (List.fold_left dedupeStep rest m).
Proof.
  revert p m. induction rest as [|x rest IH]; intros p m H; simpl.
  - now rewrite app_nil_r.
  - replace (p ++ x :: rest) with ((p ++ [x]) ++ rest)
      by now rewrite <- app_assoc.
    apply IH. now apply dedupeInv_step.
Qed.

Lemma dedupeInv_bestAnswersByHash (l : list BestAnswerRow) :
  dedupeInv l (bestAnswersByHash l).
Proof.
  apply (dedupeInv_fold l [] []). split; [constructor|]. split.
  - intros h. reflexivity.
  - intros k e [].
Qed.

Lemma dedupe_hashes (l : list BestAnswerRow) :
  List.map ba_question_hash (deduplicatedBestAnswers l)
  = JsMap.keys (bestAnswersByHash l).
Proof.
  destruct (dedupeInv_bestAnswersByHash l) as (_ & _ & Hent).
  unfold deduplicatedBestAnswers, JsMap.values, JsMap.keys.
  rewrite map_map. apply map_ext_in. intros [k e] Hin.
  simpl. symmetry. now apply Hent.
Qed.

(** C3: the de-duplicated array holds exactly one entry per fingerprint of
    the batch, and each entry is the first candidate of maximal confidence
    for its fingerprint.  For confidences 0.4, 0.9, 0.9 on one fingerprint
    the retained entry is the second candidate. *)
Theorem deduplicatedBestAnswers_first_maximum :
  forall l : list BestAnswerRow,
    NoDup (List.map ba_question_hash (deduplicatedBestAnswers l))
    /\ (forall h, In h (List.map ba_question_hash l) <->
                  In h (List.map ba_question_hash (deduplicatedBestAnswers l)))
    /\ Forall (firstMaxIn l) (deduplicatedBestAnswers l)
    /\ deduplicatedBestAnswers three_candidates
       = [candidate "second" (9 # 10)].
Proof.
  intros l. destruct (dedupeInv_bestAnswersByHash l) as (Hnd & Hkeys & Hent).
  rewrite dedupe_hashes. split; [exact Hnd|]. split; [exact Hkeys|].
  split; [|reflexivity].
  apply Forall_forall. intros e He.
  unfold deduplicatedBestAnswers, JsMap.values in He.
  apply in_map_iff in He. destruct He as ([k e'] & <- & Hin).
  now apply Hent in Hin.
Qed.

(** ** The order of [sort()] and the fingerprint *)

Lemma leb_not_Gt (s1 s2 : string) :
  String.leb s1 s2 = true <-> String.compare s1 s2 <> Gt.
Proof.
  unfold String.leb. destruct (String.compare s1 s2); split; congruence.
Qed.

Lemma compare_not_Gt_trans (s1 s2 s3 : string) :
  String.compare s1 s2 <> Gt -> String.compare s2 s3 <> Gt ->
  String.compare s1 s3 <> Gt.
Proof.
  revert s2 s3.
  induction s1 as [|a s1 IH]; intros [|b s2] [|c s3]; simpl;
    try congruence.
  unfold Ascii.compare.
  destruct (N.compare_spec (N_of_ascii a) (N_of_ascii b)) as [Eab|Lab|Gab];
    destruct (N.compare_spec (N_of_ascii b) (N_of_ascii c)) as [Ebc|Lbc|Gbc];
    destruct (N.compare_spec (N_of_ascii a) (N_of_ascii c)) as [Eac|Lac|Gac];
    try congruence; try lia.
  apply IH.
Qed.

Lemma leb_trans (s1 s2 s3 : string) :
  String.leb s1 s2 = true -> String.leb s2 s3 = true ->
  String.leb s1 s3 = true.
Proof. rewrite !leb_not_Gt. apply compare_not_Gt_trans. Qed.

Lemma leb_false_flip (s1 s2 : string) :
  String.leb s1 s2 = false -> String.leb s2 s1 = true.
Proof.
  intros H. destruct (String.leb_total s1 s2) as [H'|H']; congruence.
Qed.

(** Inserting two strings gives the same array in either order. *)
Lemma insert_insert (x y : string) (l : list string) :
  JsString.insert x (JsString.insert y l)
  = JsString.insert y (JsString.insert x l).
Proof.
  induction l as [|z r IH]; simpl.
  - destruct (String.leb x y) eqn:Exy, (String.leb y x) eqn:Eyx;
      try reflexivity.
    + now rewrite (String.leb_antisym _ _ Exy Eyx).
    + apply leb_false_flip in Exy. congruence.
  - destruct (String.leb y z) eqn:Eyz, (String.leb x z) eqn:Exz; simpl;
      rewrite ?Eyz, ?Exz.
    + destruct (String.leb x y) eqn:Exy, (String.leb y x) eqn:Eyx;
        try reflexivity.
      * now rewrite (String.leb_antisym _ _ Exy Eyx).
      * apply leb_false_flip in Exy. congruence.
    + destruct (String.leb x y) eqn:Exy; [|reflexivity].
      rewrite (leb_trans _ _ _ Exy Eyz) in Exz. discriminate.
    + destruct (String.leb y x) eqn:Eyx; [|reflexivity].
      rewrite (leb_trans _ _ _ Eyx Exz) in Eyz. discriminate.
    + now rewrite IH.
Qed.

Lemma sort_Permutation (l1 l2 : list string) :
  Permutation l1 l2 -> JsString.sort l1 = JsString.sort l2.
Proof.
  induction 1 as [|x l l' _ IH|x y l|l l' l'' _ IH1 _ IH2]; simpl.
  - reflexivity.
  - now rewrite IH.
  - apply insert_insert.
  - now rewrite IH1.
Qed.

(** The sorted array is ordered and holds the same strings. *)
Lemma insert_Permutation (x : string) (l : list string) :
  Permutation (x :: l) (JsString.insert x l).
Proof.
  induction l as [|y r IH]; simpl; [reflexivity|].
  destruct (String.leb x y); [reflexivity|].
  rewrite perm_swap. now apply perm_skip.
Qed.

Lemma sort_is_Permutation (l : list string) :
  Permutation l (JsString.sort l).
Proof.
  induction l as [|x r IH]; simpl; [reflexivity|].
  rewrite <- insert_Permutation. now apply perm_skip.
Qed.

Lemma hashInput_option_order (t ty : string) (o1 o2 : list string) :
  Permutation o1 o2 -> hashInput t ty (Some o1) = hashInput t ty (Some o2).
Proof.
  intros H. unfold hashInput.
  now rewrite (sort_Permutation _ _ (Permutation_map cleanOption H)).
Qed.

(** C7: two option lists that are permutations of each other give the
    same fingerprint, whatever the text and the type; in particular the
    options A, B and B, A of a multiple-choice question do, for every
    text. *)
Theorem generateQuestionHash_option_order :
  forall (questionText questionType : string) (opts1 opts2 : list string),
    Permutation opts1 opts2 ->
    generateQuestionHash questionText questionType (Some opts1)
    = generateQuestionHash questionText questionType (Some opts2).
Proof.
  intros t ty o1 o2 H. unfold generateQuestionHash.
  now rewrite (hashInput_option_order t ty o1 o2 H).
Qed.

Lemma generateQuestionHash_option_order_witness :
  Permutation ["A"; "B"]%string ["B"; "A"]%string /\
  generateQuestionHash "Which letter comes first?" "multiple_choice_question"
    (Some ["A"; "B"]%string)
  = generateQuestionHash "Which letter comes first?" "multiple_choice_question"
      (Some ["B"; "A"]%string).
Proof.
  split; [apply perm_swap|].
  apply generateQuestionHash_option_order. apply perm_swap.
Defined.

Lemma generateQuestionHash_A_B (t : string) :
  generateQuestionHash t "multiple_choice_question" (Some ["A"; "B"]%string)
  = generateQuestionHash t "multiple_choice_question" (Some ["B"; "A"]%string).
Proof.
  unfold generateQuestionHash.
  now rewrite (hashInput_option_order t _ _ _ (perm_swap "B" "A" [])%string).
Qed.

(** ** The quality scorer on the two sample texts *)

(** C8, as stated, fails: the text has 30 code units, not 31, and the
    directly observed question scores 160, not 161. *)
Lemma calculateTextQuality_france_not_161 :
  strlen "What is the capital of France?" = 30 /\
  calculateTextQuality "What is the capital of France?" "dom" <> 161.
Proof. split; [reflexivity|]. vm_compute. discriminate. Qed.

(** C8 (amended): the placeholder text "Question 5" with placeholder
    source scores exactly 0 after clamping ([10 + 10 - 50 < 0]), and
    "What is the capital of France?" with directly observed source scores
    exactly [100 + 30 + 20 + 10 = 160]; the former is strictly less. *)
Theorem calculateTextQuality_samples :
  calculateTextQuality "Question 5" "placeholder" = 0
  /\ calculateTextQuality "What is the capital of France?" "dom" = 160
  /\ calculateTextQuality "Question 5" "placeholder"
     < calculateTextQuality "What is the capital of France?" "dom".
Proof. repeat split. Qed.

(** The score is never negative, whatever the text and the source. *)
Lemma calculateTextQuality_nonneg (questionText source : string) :
  0 <= calculateTextQuality questionText source.
Proof. unfold calculateTextQuality. apply Z.le_max_l. Qed.

(** ** Missing and empty question text *)

(** C9, as stated, fails: on the empty text neither function signals an
    error; the generator hashes the bare type prefix and the scorer
    returns the source score. *)
Lemma empty_text_is_not_rejected :
  callGenerateQuestionHash (Some EmptyString) "multiple_choice_question" None
  = Returned (simpleHash "multiple_choice_question:")
  /\ callCalculateTextQuality (Some EmptyString) "dom" = Returned 100
  /\ callGenerateQuestionHash (Some EmptyString) "multiple_choice_question"
       None <> Thrown TypeError
  /\ callCalculateTextQuality (Some EmptyString) "dom" <> Thrown TypeError.
Proof. repeat split; discriminate. Qed.

Lemma append_assoc (a b c : string) :
  ((a ++ b) ++ c = a ++ b ++ c)%string.
Proof. induction a as [|x r IH]; simpl; [reflexivity|]. now rewrite IH. Qed.

(** C9 (amended): a missing ([null]/[undefined]) question text makes both
    functions throw before anything is hashed or scored, and that is the
    only case in which they throw.  An empty text is accepted: the
    generator returns the hash of the type followed by a colon and, when
    options are given, by a second colon and the cleaned options, sorted
    and joined by [|]; the scorer returns the score of the source
    alone. *)
Theorem missing_text_throws_empty_text_passes :
  forall (questionType source : string) (opts : option (list string)),
    (forall questionText : option string,
        callGenerateQuestionHash questionText questionType opts
        = Thrown TypeError <-> questionText = None)
    /\ (forall questionText : option string,
           callCalculateTextQuality questionText source = Thrown TypeError
           <-> questionText = None)
    /\ callGenerateQuestionHash (Some EmptyString) questionType None
       = Returned (simpleHash (questionType ++ ":"))
    /\ callGenerateQuestionHash (Some EmptyString) questionType opts
       = Returned
           (simpleHash
              (match opts with
               | None => questionType ++ ":"
               | Some l =>
                   questionType ++ ":" ++ ":" ++
                   JsString.join "|"
                     (JsString.sort (List.map cleanOption l))
               end))
    /\ callCalculateTextQuality (Some EmptyString) source
       = Returned (if String.eqb source "dom" then 100
                   else if String.eqb source "canvas_api" then 50
                   else if String.eqb source "placeholder" then 10
                   else 0).
Proof.
  intros ty src opts. split; [|split; [|split; [|split]]].
  - intros [t|]; simpl; split; try discriminate; reflexivity.
  - intros [t|]; simpl; split; try discriminate; reflexivity.
  - reflexivity.
  - unfold callGenerateQuestionHash, generateQuestionHash, hashInput.
    destruct opts as [l|]; [|reflexivity].
    change (cleanText EmptyString) with EmptyString.
    now rewrite append_assoc.
  - unfold callCalculateTextQuality, calculateTextQuality. simpl.
    destruct (String.eqb src "dom"); [reflexivity|].
    destruct (String.eqb src "canvas_api"); [reflexivity|].
    destruct (String.eqb src "placeholder"); reflexivity.
Qed.

(** ** The two confidence computations *)

(** C10, as stated, fails: for an answer marked wrong with 3 of 4 points
    the batch path stores confidence 0, while [updateBestAnswer] computes
    0.75 for the submission row built from the same answer. *)
Lemma inlineConfidence_differs_on_wrong_with_points :
  (inlineConfidence qd_wrong_3_of_4 == 0)%Q
  /\ (confidenceScore (submissionOf qd_wrong_3_of_4) == 3 # 4)%Q
  /\ ~ (inlineConfidence qd_wrong_3_of_4
        == confidenceScore (submissionOf qd_wrong_3_of_4))%Q.
Proof.
  repeat split; try reflexivity. vm_compute. discriminate.
Qed.

Lemma Qeq_bool_false_neq (p : Q) : Qeq_bool p 0 = false -> ~ (p == 0)%Q.
Proof. apply Qeq_bool_neq. Qed.

Lemma Qdiv_neg (a b : Q) : (a < 0)%Q -> (0 < b)%Q -> (a / b < 0)%Q.
Proof. intros Ha Hb. apply Qlt_shift_div_r; [assumption|lra]. Qed.

Lemma Qdiv_zero (a b : Q) : (a == 0)%Q -> (a / b == 0)%Q.
Proof. intros ->. unfold Qdiv. ring. Qed.

Lemma Qdiv_nonzero (a b : Q) :
  ~ (a == 0)%Q -> ~ (b == 0)%Q -> ~ (a / b == 0)%Q.
Proof.
  intros Ha Hb H. apply Ha.
  rewrite <- (Qmult_div_r a b Hb). rewrite H. ring.
Qed.

Lemma confidence_forms (qd : QuestionData) :
  let p := pointsOf qd in
  let pp := possibleOf qd in
  (inlineConfidence qd ==
   if truthyCorrect (qd_correct qd)
   then Qmin 1 (p / inlineDivisor qd) else 0)%Q
  /\ (confidenceScore (submissionOf qd) ==
      if negb (Qeq_bool p 0) && Qgtb pp 0
      then clamp (p / pp) 0 1
      else match qd_correct qd with CTrue => 1 | _ => 0 end)%Q.
Proof.
  cbv zeta. split.
  - unfold inlineConfidence, inlineDivisor, pointsOf, possibleOf, numOr.
    destruct (truthyCorrect (qd_correct qd)); [|reflexivity].
    destruct (qd_points qd) as [p|], (qd_points_possible qd) as [pp|].
    + unfold truthyNum, toNumber.
      destruct (Qeq_bool p 0) eqn:Ep, (Qeq_bool pp 0) eqn:Epp; cbn [negb].
      all: try reflexivity.
      all: apply Qeq_bool_iff in Ep; rewrite (Qdiv_zero p) by exact Ep.
      all: rewrite Qdiv_zero; reflexivity.
    + unfold truthyNum, toNumber.
      destruct (Qeq_bool p 0) eqn:Ep; cbn [negb]; try reflexivity.
      apply Qeq_bool_iff in Ep. rewrite (Qdiv_zero p) by exact Ep.
      rewrite Qdiv_zero; reflexivity.
    + unfold truthyNum, toNumber.
      destruct (Qeq_bool pp 0) eqn:Epp; cbn [negb]; reflexivity.
    + reflexivity.
  - rewrite confidenceScore_eq.
    unfold dividesPoints, submissionOf, pointsOf, possibleOf. simpl.
    destruct (qd_points qd) as [p|], (qd_points_possible qd) as [pp|]; simpl;
      destruct (qd_correct qd); reflexivity.
Qed.

Lemma Qeq_bool_true (a b : Q) : (a == b)%Q -> Qeq_bool a b = true.
Proof. apply Qeq_bool_iff. Qed.

Lemma Qeq_bool_false (a b : Q) : ~ (a == b)%Q -> Qeq_bool a b = false.
Proof.
  intros H. destruct (Qeq_bool a b) eqn:E; [|reflexivity].
  apply Qeq_bool_iff in E. contradiction.
Qed.

Lemma Qdiv_one (a : Q) : (a / 1 == a)%Q.
Proof. unfold Qdiv. setoid_replace (/ 1)%Q with 1%Q by reflexivity. ring. Qed.

Lemma confidences_agree (c : CorrectFlag) (p pp : Q) :
  ((if truthyCorrect c
    then Qmin 1 (p / (if Qeq_bool pp 0 then 1 else pp)) else 0) ==
   (if negb (Qeq_bool p 0) && Qgtb pp 0
    then clamp (p / pp) 0 1
    else match c with CTrue => 1 | _ => 0 end))%Q
  <->
  match c with
  | CTrue =>
      (0 < pp /\ 0 < p)%Q
      \/ (pp <= 0 /\ 1 <= p / (if Qeq_bool pp 0 then 1 else pp))%Q
  | CPartial => (p == 0)%Q \/ (0 < pp /\ 0 < p)%Q
  | CFalse | CAbsent => (pp <= 0)%Q \/ (p <= 0)%Q
  end.
Proof.
  unfold clamp.
  pose proof (Qdiv_one p) as D1.
  destruct (Q_dec pp 0) as [[Hpp|Hpp]|Hpp];
    [ rewrite (Qeq_bool_false pp 0) by lra;
      rewrite (proj2 (Qgtb_false pp 0)) by lra
    | rewrite (Qeq_bool_false pp 0) by lra;
      rewrite (proj2 (Qgtb_true pp 0)) by lra
    | rewrite (Qeq_bool_true pp 0) by lra;
      rewrite (proj2 (Qgtb_false pp 0)) by lra ];
    (destruct (Q_dec p 0) as [[Hp|Hp]|Hp];
     [ rewrite (Qeq_bool_false p 0) by lra
     | rewrite (Qeq_bool_false p 0) by lra
     | rewrite (Qeq_bool_true p 0) by lra ]);
    cbn [negb andb];
    try (pose proof (Qdiv_pos p pp) as F1);
    try (pose proof (Qdiv_neg p pp) as F2);
    try (pose proof (Qdiv_zero p pp) as F3);
    try (pose proof (Qdiv_nonzero p pp) as F4);
    generalize dependent (p / pp)%Q; intros x; intros;
    generalize dependent (p / 1)%Q; intros y; intros;
    destruct c; cbn [truthyCorrect];
    split_minmax; lra.
Qed.

(** C10 (amended): the two confidence computations are not equal on
    every answer.  With [p] the points (0 when not a number), [pp] the
    points possible (1 when not a number) and [d] the inline divisor
    ([pp], or 1 when [pp] is 0), the inline confidence of the batch path
    equals the confidence [updateBestAnswer] computes for the submission
    row of the same answer exactly in these cases:
    - marked correct ([true]): [pp > 0] and [p > 0], or [pp <= 0] and
      [p / d >= 1];
    - marked ['partial']: [p = 0], or [pp > 0] and [p > 0];
    - marked wrong or unmarked: [pp <= 0] or [p <= 0].
    In particular, for [p >= 0] and [pp > 0] they agree unless the answer
    is marked correct with zero points (inline 0, [updateBestAnswer] 1)
    or marked wrong or unmarked with positive points (inline 0,
    [updateBestAnswer] [min(1, p / pp)]).  Samples of the other
    disagreements: correct with 0.5 of 0 points gives 0.5 inline and 1
    in [updateBestAnswer]; correct with -1 of 1 gives -1 and 0. *)
Theorem inlineConfidence_agrees_iff :
  (forall qd : QuestionData,
      let p := pointsOf qd in
      let pp := possibleOf qd in
      ((inlineConfidence qd == confidenceScore (submissionOf qd))%Q
       <->
       match qd_correct qd with
       | CTrue =>
           (0 < pp /\ 0 < p)%Q
           \/ (pp <= 0 /\ 1 <= p / inlineDivisor qd)%Q
       | CPartial => (p == 0)%Q \/ (0 < pp /\ 0 < p)%Q
       | CFalse | CAbsent => (pp <= 0)%Q \/ (p <= 0)%Q
       end)
      /\ ((0 <= p)%Q -> (0 < pp)%Q ->
          ((inlineConfidence qd == confidenceScore (submissionOf qd))%Q
           <->
           ~ (qd_correct qd = CTrue /\ (p == 0)%Q)
           /\ ~ (truthyCorrect (qd_correct qd) = false /\ (0 < p)%Q))))
  /\ ((inlineConfidence qd_right_half_of_0 == 1 # 2)%Q
      /\ (confidenceScore (submissionOf qd_right_half_of_0) == 1)%Q)
  /\ ((inlineConfidence qd_negative_points == - (1))%Q
      /\ (confidenceScore (submissionOf qd_negative_points) == 0)%Q).
Proof.
  split; [|repeat split].
  intros qd p pp.
  assert (A : (inlineConfidence qd == confidenceScore (submissionOf qd))%Q
              <->
              match qd_correct qd with
              | CTrue =>
                  (0 < pp /\ 0 < p)%Q
                  \/ (pp <= 0 /\ 1 <= p / inlineDivisor qd)%Q
              | CPartial => (p == 0)%Q \/ (0 < pp /\ 0 < p)%Q
              | CFalse | CAbsent => (pp <= 0)%Q \/ (p <= 0)%Q
              end).
  { destruct (confidence_forms qd) as [Ei Eu]. rewrite Ei, Eu.
    apply confidences_agree. }
  split; [exact A|].
  intros Hp Hpp. rewrite A. clear A.
  generalize dependent (p / inlineDivisor qd)%Q. intros x.
  destruct (qd_correct qd); cbn [truthyCorrect]; split.
  - intros [H|H]; [|lra]. split; intros [H1 H2]; [lra|discriminate].
  - intros [H _]. left. split; [exact Hpp|].
    destruct (Q_dec p 0) as [[H0|H0]|H0]; [lra|exact H0|].
    exfalso. apply H. now split.
  - intros H. split; intros [H1 H2]; [discriminate|lra].
  - intros [_ H]. right.
    destruct (Qlt_le_dec 0 p) as [H0|H0]; [|exact H0].
    exfalso. apply H. now split.
  - intros _. split; intros [H1 H2]; discriminate.
  - intros _. destruct (Q_dec p 0) as [[H0|H0]|H0]; [lra| |now left].
    right. now split.
  - intros H. split; intros [H1 H2]; [discriminate|lra].
  - intros [_ H]. right.
    destruct (Qlt_le_dec 0 p) as [H0|H0]; [|exact H0].
    exfalso. apply H. now split.
Qed.

Lemma inlineConfidence_agrees_iff_witness :
  (inlineConfidence qd_right_3_of_4
   == confidenceScore (submissionOf qd_right_3_of_4))%Q.
Proof.
  destruct inlineConfidence_agrees_iff as [H _].
  destruct (H qd_right_3_of_4) as [_ Hiff].
  apply Hiff; try reflexivity; try (vm_compute; discriminate).
  split; intros [H1 H2]; vm_compute in *; discriminate.
Defined.

(** ** The hash decision and the merge schedule *)

(** With a stored record, [decideHash] plans a merge exactly when the
    candidate quality is strictly greater and the new hash differs. *)
Lemma decideHash_plans_merge (courseId questionId : Z)
    (existing : ExistingQuestion) (questionText questionType : string)
    (opts : option (list string)) (textSource : string) (textQuality : Z)
    (oldHash : string) :
  let newHash :=
    if String.eqb textSource "placeholder" then question_hash existing
    else generateQuestionHash questionText questionType opts in
  oldHashToMerge
    (decideHash courseId questionId (Some existing) questionText questionType
       opts textSource textQuality) = Some oldHash
  <-> oldHash = question_hash existing
      /\ qualityOr0 existing < textQuality
      /\ newHash <> question_hash existing.
Proof.
  intros newHash. unfold decideHash. fold newHash.
  destruct (qualityOr0 existing <? textQuality) eqn:Q.
  - apply Z.ltb_lt in Q.
    destruct (String.eqb newHash (question_hash existing)) eqn:E; simpl.
    + apply String.eqb_eq in E. split; [discriminate|]. tauto.
    + apply String.eqb_neq in E. split.
      * intros [= <-]. auto.
      * intros (-> & _ & _). reflexivity.
  - apply Z.ltb_ge in Q. simpl. split; [discriminate|]. lia.
Qed.

(** With a stored record, no question row is written exactly when the
    candidate quality is not greater; the stored hash is then kept. *)
Lemma decideHash_keeps_existing (courseId questionId : Z)
    (existing : ExistingQuestion) (questionText questionType : string)
    (opts : option (list string)) (textSource : string) (textQuality : Z) :
  let d := decideHash courseId questionId (Some existing) questionText
             questionType opts textSource textQuality in
  (shouldSaveQuestion d = false <-> textQuality <= qualityOr0 existing)
  /\ (textQuality <= qualityOr0 existing ->
      questionHash d = question_hash existing /\ oldHashToMerge d = None).
Proof.
  unfold decideHash.
  destruct (qualityOr0 existing <? textQuality) eqn:Q.
  - apply Z.ltb_lt in Q. split.
    + destruct (negb _); simpl; split; try discriminate; lia.
    + lia.
  - apply Z.ltb_ge in Q. simpl. tauto.
Qed.

Lemma processQuestion_onlyHashes (courseId quizId : Z)
    (domQuestionMap : list (Z * DomQuestion))
    (existingByCanvasId : list (Z * ExistingQuestion))
    (st : BatchState) (questionData : QuestionData) :
  onlyHashes (processedQuestions st) ->
  onlyHashes
    (processedQuestions
       (processQuestion courseId quizId domQuestionMap existingByCanvasId st
          questionData)).
Proof.
  intros H. unfold processQuestion.
  destruct (JsMap.has Z.eqb (processedQuestions st) (question_id questionData));
    [exact H|].
  simpl. rewrite (set_set _ Z.eqb_eq).
  apply values_set; [exact H|]. eexists. reflexivity.
Qed.

Lemma processSubmission_onlyHashes (courseId quizId : Z)
    (domQuestionMap : list (Z * DomQuestion))
    (existingByCanvasId : list (Z * ExistingQuestion))
    (submission : CanvasSubmission) (st : BatchState) :
  onlyHashes (processedQuestions st) ->
  onlyHashes
    (processedQuestions
       (processSubmission courseId quizId domQuestionMap existingByCanvasId
          st submission)).
Proof.
  unfold processSubmission.
  destruct (submission_data submission) as [data|]; [|auto].
  revert st. induction data as [|qd data IH]; intros st H; simpl; [exact H|].
  apply IH. now apply processQuestion_onlyHashes.
Qed.

Lemma mainLoop_onlyHashes (courseId quizId : Z)
    (submissions : list CanvasSubmission) (domQuestions : list DomQuestion)
    (existingQuestions : list ExistingQuestion) :
  onlyHashes
    (processedQuestions
       (mainLoop courseId quizId submissions domQuestions existingQuestions)).
Proof.
  unfold mainLoop.
  generalize (buildDomQuestionMap domQuestions)
             (buildExistingByCanvasId existingQuestions).
  intros dm em.
  assert (H : onlyHashes (processedQuestions emptyBatch)) by constructor.
  revert H. generalize emptyBatch.
  induction submissions as [|s r IH]; intros st H; simpl; [exact H|].
  apply IH. now apply processSubmission_onlyHashes.
Qed.

Lemma onlyHashes_no_merge (m : list (Z * ProcessedEntry)) :
  onlyHashes m -> mergesToProcess m = [].
Proof.
  unfold onlyHashes, mergesToProcess.
  induction (JsMap.values m) as [|e r IH]; intros H; [reflexivity|].
  inversion H as [|? ? [h ->] Hr]; subst. simpl. now apply IH.
Qed.

(** C4 (the code departs from the claim): on the second visit the hash
    decision plans the merge from the stored temporary identity to the
    content hash, as the claim says, and stores it in [processedQuestions];
    the entry is then replaced by the plain hash string before the merges
    are collected, so that [mergesToProcess] is empty for every input and
    no [mergeQuestionRecords] request is sent. *)
Theorem merge_schedule_is_overwritten :
  (forall (courseId quizId : Z) (submissions : list CanvasSubmission)
          (domQuestions : list DomQuestion)
          (existingQuestions : list ExistingQuestion),
      mergesToProcess
        (processedQuestions
           (mainLoop courseId quizId submissions domQuestions
              existingQuestions)) = [])
  /\ (let d := decideHash 1 5 (Some stored_placeholder) "What is 2+2?"
                 "short_answer_question" None "dom"
                 (calculateTextQuality "What is 2+2?" "dom") in
      qualityOr0 stored_placeholder < calculateTextQuality "What is 2+2?" "dom"
      /\ questionHash d
         = generateQuestionHash "What is 2+2?" "short_answer_question" None
      /\ questionHash d <> question_hash stored_placeholder
      /\ oldHashToMerge d = Some "canvas_5_1"%string
      /\ mergeInfoEntry d = MergeInfo (questionHash d) "canvas_5_1"
      /\ List.map row_question_hash (batchSaveQuestions (second_visit None))
         = [questionHash d]
      /\ returned (second_visit None) = [(5, HashOnly (questionHash d))]
      /\ mergeQuestionRecords (second_visit None) = []).
Proof.
  split.
  - intros. apply onlyHashes_no_merge, mainLoop_onlyHashes.
  - vm_compute. repeat split; try reflexivity. discriminate.
Qed.

(** ** Placeholder bootstrap *)

(** C5, as stated, fails: the temporary identity is not scoped to the quiz
    attempt.  The same question in the same quiz gets different
    identities under two course ids, and the same identity in two
    different quizzes of one course. *)
Lemma temporary_identity_ignores_quiz :
  List.map sub_question_hash (batchSaveSubmissions (first_visit 1 9))
  = ["canvas_5_1"%string]
  /\ List.map sub_question_hash (batchSaveSubmissions (first_visit 2 9))
     = ["canvas_5_2"%string]
  /\ List.map sub_question_hash (batchSaveSubmissions (first_visit 1 9))
     <> List.map sub_question_hash (batchSaveSubmissions (first_visit 2 9))
  /\ List.map sub_question_hash (batchSaveSubmissions (first_visit 1 9))
     = List.map sub_question_hash (batchSaveSubmissions (first_visit 1 10)).
Proof. vm_compute. repeat split; try reflexivity. discriminate. Qed.

(** C5 (amended): a question seen with placeholder source and without a
    stored record gets the temporary identity
    [canvas_<questionId>_<courseId>]: it is determined by the native
    question id and the course id, and depends neither on the placeholder
    text nor on the quiz.  The question row, the submission row, the best
    answer row and the returned map all carry it. *)
Theorem placeholder_gets_temporary_hash :
  forall (courseId quizId : Z)
         (domQuestionMap : list (Z * DomQuestion))
         (existingByCanvasId : list (Z * ExistingQuestion))
         (st : BatchState) (qd : QuestionData),
    JsMap.has Z.eqb (processedQuestions st) (question_id qd) = false ->
    JsMap.get Z.eqb existingByCanvasId (question_id qd) = None ->
    chooseSource (JsMap.get Z.eqb domQuestionMap (question_id qd)) qd
    = "placeholder"%string ->
    let st' := processQuestion courseId quizId domQuestionMap
                 existingByCanvasId st qd in
    let temp := temporaryHash (question_id qd) courseId in
    JsMap.get Z.eqb (processedQuestions st') (question_id qd)
    = Some (HashOnly temp)
    /\ (exists row,
           questionsToSave st' = questionsToSave st ++ [row]
           /\ row_question_hash row = temp
           /\ row_text_source row = "placeholder"%string
           /\ row_course_id row = courseId
           /\ row_first_seen_quiz_id row = Some quizId)
    /\ (exists sub,
           submissionsToSave st' = submissionsToSave st ++ [sub]
           /\ sub_question_hash sub = temp
           /\ sub_canvas_question_id sub = question_id qd)
    /\ (exists best,
           bestAnswersToUpdate st' = bestAnswersToUpdate st ++ [best]
           /\ ba_question_hash best = temp).
Proof.
  intros courseId quizId dm em st qd Hnew Hnone Hsrc st' temp.
  subst st'. unfold processQuestion. rewrite Hnew, Hnone, Hsrc. simpl.
  split; [apply get_set_same, Z.eqb_eq|].
  split; [|split]; eexists; (split; [reflexivity|]); repeat split.
Qed.

Lemma placeholder_gets_temporary_hash_witness :
  JsMap.get Z.eqb
    (processedQuestions (processQuestion 1 9 [] [] emptyBatch answer_5)) 5
  = Some (HashOnly "canvas_5_1").
Proof.
  apply (placeholder_gets_temporary_hash 1 9 [] [] emptyBatch answer_5);
    reflexivity.
Defined.

(** ** Rows written when stored text is superseded *)

(** C6, as stated, fails in its second half: the metadata of the written
    row comes from the options of the new capture, not from the stored
    record.  Against one and the same stored record, a capture with
    options and a capture without give different metadata (and the same
    first-seen quiz, which is the stored one). *)
Lemma superseding_row_metadata_follows_capture :
  List.map row_metadata
    (batchSaveQuestions (second_visit (Some ["A"; "B"]%string)))
  <> List.map row_metadata (batchSaveQuestions (second_visit None))
  /\ List.map row_metadata (batchSaveQuestions (second_visit None)) = [None]
  /\ List.map row_first_seen_quiz_id
       (batchSaveQuestions (second_visit (Some ["A"; "B"]%string)))
     = [Some 7]
  /\ List.map row_first_seen_quiz_id (batchSaveQuestions (second_visit None))
     = [Some 7].
Proof. vm_compute. repeat split; try reflexivity. discriminate. Qed.

(** The hash chosen when a capture supersedes a stored record: the stored
    hash for a placeholder capture, the content hash otherwise. *)
Lemma decideHash_superseding_hash (courseId questionId : Z)
    (existing : ExistingQuestion) (questionText questionType : string)
    (opts : option (list string)) (textSource : string) (textQuality : Z) :
  qualityOr0 existing < textQuality ->
  questionHash
    (decideHash courseId questionId (Some existing) questionText questionType
       opts textSource textQuality)
  = if String.eqb textSource "placeholder" then question_hash existing
    else generateQuestionHash questionText questionType opts.
Proof.
  intros Hq. unfold decideHash. apply Z.ltb_lt in Hq. rewrite Hq.
  destruct (String.eqb textSource "placeholder").
  - rewrite String.eqb_refl. reflexivity.
  - destruct (String.eqb (generateQuestionHash questionText questionType opts)
                (question_hash existing)) eqn:E; simpl; [|reflexivity].
    apply String.eqb_eq in E. now rewrite E.
Qed.

(** C6 (amended): when a stored record exists and the captured text has
    strictly greater quality (update in place or fingerprint-changing
    merge alike), exactly one question row is written; it carries the
    first-seen quiz of the stored record, not the quiz of the current
    run.  Its text, type, quality and source are those of the capture;
    its hash is the content hash of the capture, except for a capture of
    placeholder source, whose row keeps the stored hash; its course id
    is the course of the current run, and its metadata is the JSON of
    the options of the capture. *)
Theorem superseding_row_keeps_first_seen_quiz :
  forall (courseId quizId : Z)
         (domQuestionMap : list (Z * DomQuestion))
         (existingByCanvasId : list (Z * ExistingQuestion))
         (st : BatchState) (qd : QuestionData) (existing : ExistingQuestion),
    let domQuestion := JsMap.get Z.eqb domQuestionMap (question_id qd) in
    let textQuality :=
      calculateTextQuality (chooseText domQuestion qd)
        (chooseSource domQuestion qd) in
    JsMap.has Z.eqb (processedQuestions st) (question_id qd) = false ->
    JsMap.get Z.eqb existingByCanvasId (question_id qd) = Some existing ->
    qualityOr0 existing < textQuality ->
    exists row,
      questionsToSave
        (processQuestion courseId quizId domQuestionMap existingByCanvasId
           st qd)
      = questionsToSave st ++ [row]
      /\ row_first_seen_quiz_id row = first_seen_quiz_id existing
      /\ row_course_id row = courseId
      /\ row_metadata row = option_map JSON_stringify (chooseOptions domQuestion)
      /\ row_question_text row = chooseText domQuestion qd
      /\ row_question_type row = chooseType domQuestion qd
      /\ row_text_quality_score row = textQuality
      /\ row_text_source row = chooseSource domQuestion qd
      /\ row_question_hash row
         = if String.eqb (chooseSource domQuestion qd) "placeholder"
           then question_hash existing
           else generateQuestionHash (chooseText domQuestion qd)
                  (chooseType domQuestion qd) (chooseOptions domQuestion).
Proof.
  intros courseId quizId dm em st qd existing domQuestion textQuality
         Hnew Hex Hq.
  assert (Hsave : shouldSaveQuestion
            (decideHash courseId (question_id qd) (Some existing)
               (chooseText domQuestion qd) (chooseType domQuestion qd)
               (chooseOptions domQuestion) (chooseSource domQuestion qd)
               textQuality) = true).
  { unfold decideHash. apply Z.ltb_lt in Hq. rewrite Hq.
    destruct (negb _); reflexivity. }
  pose proof (decideHash_superseding_hash courseId (question_id qd) existing
                (chooseText domQuestion qd) (chooseType domQuestion qd)
                (chooseOptions domQuestion) (chooseSource domQuestion qd)
                textQuality Hq) as Hhash.
  subst domQuestion textQuality.
  unfold processQuestion. rewrite Hnew, Hex. cbv zeta.
  cbn [questionsToSave]. rewrite Hsave.
  eexists. split; [reflexivity|]. repeat split. exact Hhash.
Qed.

Lemma superseding_row_keeps_first_seen_quiz_witness :
  exists row,
    questionsToSave
      (processQuestion 1 9 [(5, dom_5 None)] [(5, stored_placeholder)]
         emptyBatch answer_5) = [] ++ [row]
    /\ row_first_seen_quiz_id row = Some 7
    /\ row_question_hash row
       = generateQuestionHash "What is 2+2?" "short_answer_question" None.
Proof.
  destruct (superseding_row_keeps_first_seen_quiz 1 9 [(5, dom_5 None)]
              [(5, stored_placeholder)] emptyBatch answer_5 stored_placeholder)
    as (row & Hrow & Hfirst & _ & _ & _ & _ & _ & _ & Hhash);
    try reflexivity.
  exists row. split; [exact Hrow|split; [exact Hfirst|exact Hhash]].
Defined.

(** ** Number formatting and the shape of hashes *)

(** The fuel of [toStringRadix] is enough: more fuel gives the same
    digits. *)
Lemma digits_fuel (radix : Z) (f : nat) :
  2 <= radix ->
  forall (n : Z) (acc : string) (g : nat),
    0 <= n < 2 ^ Z.of_nat (S f) ->
    JsNumber.digits (S f + g) radix n acc = JsNumber.digits (S f) radix n acc.
Proof.
  intros Hr. induction f as [|f IH]; intros n acc g Hn.
  - simpl. assert (Hq : n / radix = 0).
    { apply Z.div_small. change (2 ^ Z.of_nat 1) with 2 in Hn. lia. }
    now rewrite Hq.
  - change (S (S f) + g)%nat with (S (S f + g)).
    cbn [JsNumber.digits].
    destruct (n / radix =? 0) eqn:E; [reflexivity|].
    apply IH. split; [apply Z.div_pos; lia|].
    apply Z.div_lt_upper_bound; [lia|].
    rewrite Nat2Z.inj_succ, Z.pow_succ_r in Hn by lia.
    nia.
Qed.

Lemma toStringRadix_fuel (radix n : Z) (g : nat) :
  2 <= radix -> 0 <= n ->
  JsNumber.digits (S (Z.to_nat (Z.log2 n)) + g) radix n EmptyString
  = JsNumber.toStringRadix radix n.
Proof.
  intros Hr Hn. unfold JsNumber.toStringRadix.
  rewrite Z.abs_eq by exact Hn.
  assert (Hneg : (n <? 0) = false) by (apply Z.ltb_ge; exact Hn).
  rewrite Hneg. apply digits_fuel; [exact Hr|].
  split; [exact Hn|].
  rewrite Nat2Z.inj_succ, Z2Nat.id by apply Z.log2_nonneg.
  destruct (Z.eq_dec n 0) as [->|Hnz]; [reflexivity|].
  apply Z.log2_spec. lia.
Qed.

Lemma digitChar_base36 (d : Z) :
  0 <= d < 36 -> isBase36Digit (JsNumber.digitChar d) = true.
Proof.
  intros Hd.
  assert (Hall : forallb (fun k => isBase36Digit
                                     (JsNumber.digitChar (Z.of_nat k)))
                   (seq 0 36) = true) by (vm_compute; reflexivity).
  rewrite forallb_forall in Hall.
  specialize (Hall (Z.to_nat d)).
  rewrite Z2Nat.id in Hall by lia.
  apply Hall. apply in_seq. lia.
Qed.

Lemma digits_base36 (fuel : nat) (n : Z) (acc : string) :
  JsString.all isBase36Digit acc = true ->
  JsString.all isBase36Digit (JsNumber.digits fuel 36 n acc) = true.
Proof.
  revert n acc. induction fuel as [|f IH]; intros n acc Hacc; simpl;
    [exact Hacc|].
  assert (Hd : JsString.all isBase36Digit
                 (String (JsNumber.digitChar (n mod 36)) acc) = true).
  { simpl. rewrite Hacc, digitChar_base36; [reflexivity|].
    apply Z.mod_pos_bound. lia. }
  destruct (n / 36 =? 0); [exact Hd|]. now apply IH.
Qed.

(** A content hash consists of the digits [0-9a-z] only. *)
Lemma simpleHash_base36 (str : string) :
  JsString.all isBase36Digit (simpleHash str) = true.
Proof.
  unfold simpleHash, JsNumber.toStringRadix.
  assert (Hneg : (Z.abs (hashLoop 0 str) <? 0) = false).
  { apply Z.ltb_ge, Z.abs_nonneg. }
  rewrite Hneg. now apply digits_base36.
Qed.

(** A temporary identity contains an underscore, so it is never a content
    hash. *)
Lemma temporaryHash_not_content (questionId courseId : Z) (str : string) :
  simpleHash str <> temporaryHash questionId courseId.
Proof.
  intros H. pose proof (simpleHash_base36 str) as Hall.
  rewrite H in Hall. unfold temporaryHash in Hall. simpl in Hall.
  discriminate.
Qed.

(** X13: real text of higher quality for a record that still has its
    temporary identity always plans a merge away from that identity: a
    content hash never coincides with a temporary identity, so the merge
    information stored first names the temporary identity as the old
    hash and the content hash as the new one. *)
Lemma upgrade_from_temporary_plans_merge (courseId questionId : Z)
    (existing : ExistingQuestion) (questionText questionType : string)
    (opts : option (list string)) (textSource : string) (textQuality : Z) :
  question_hash existing = temporaryHash questionId courseId ->
  String.eqb textSource "placeholder" = false ->
  qualityOr0 existing < textQuality ->
  mergeInfoEntry
    (decideHash courseId questionId (Some existing) questionText questionType
       opts textSource textQuality)
  = MergeInfo (generateQuestionHash questionText questionType opts)
      (temporaryHash questionId courseId).
Proof.
  intros Hh Hsrc Hq. unfold decideHash.
  apply Z.ltb_lt in Hq. rewrite Hq, Hsrc, Hh.
  destruct (String.eqb (generateQuestionHash questionText questionType opts)
              (temporaryHash questionId courseId)) eqn:E.
  - apply String.eqb_eq in E. exfalso.
    now apply (temporaryHash_not_content questionId courseId
                 (hashInput questionText questionType opts)).
  - reflexivity.
Qed.

(** ** The sorted option array *)

Lemma insert_Sorted (x : string) (l : list string) :
  LocallySorted (fun a b => String.leb a b = true) l ->
  LocallySorted (fun a b => String.leb a b = true) (JsString.insert x l).
Proof.
  induction 1 as [|a|a b l Hs IH Hab]; simpl.
  - constructor.
  - destruct (String.leb x a) eqn:E.
    + constructor; [constructor|exact E].
    + constructor; [constructor|]. now apply leb_false_flip.
  - destruct (String.leb x a) eqn:Exa.
    + constructor; [|exact Exa]. now constructor.
    + simpl in IH. destruct (String.leb x b) eqn:Exb.
      * constructor; [exact IH|]. now apply leb_false_flip.
      * constructor; [exact IH|exact Hab].
Qed.

(** [sort] returns an array in code-unit order. *)
Lemma sort_Sorted (l : list string) :
  LocallySorted (fun a b => String.leb a b = true) (JsString.sort l).
Proof.
  induction l as [|x r IH]; simpl; [constructor|]. now apply insert_Sorted.
Qed.

(** ** Sample evaluations *)

Example cleanText_sample :
  cleanText "  What   is 2+2?  " = "what is 22?"%string.
Proof. reflexivity. Qed.

Example cleanText_case_and_spaces :
  cleanText "What  is 2+2?" = cleanText "what is 2+2?".
Proof. reflexivity. Qed.

Example hashInput_sample :
  hashInput "Pick one" "multiple_choice_question"
    (Some ["Beta!"; " alpha "]%string)
  = "multiple_choice_question:pick one:alpha|beta"%string.
Proof. reflexivity. Qed.

Example simpleHash_empty : simpleHash EmptyString = "0"%string.
Proof. reflexivity. Qed.

Example simpleHash_a : simpleHash "a" = "2p"%string.
Proof. reflexivity. Qed.

Example toString_sample : JsNumber.toString 12345 = "12345"%string.
Proof. reflexivity. Qed.

Example to_int32_wraps : JsNumber.to_int32 (2 ^ 31) = - 2 ^ 31.
Proof. reflexivity. Qed.

Example quality_question_id :
  calculateTextQuality "Question ID 77" "canvas_api" = 34.
Proof. reflexivity. Qed.

(* ================================================================== *)
(** * Further properties of the code                                    *)
(* ================================================================== *)

(** ** 32-bit arithmetic of [simpleHash] *)

Lemma to_int32_range (z : Z) : - 2 ^ 31 <= JsNumber.to_int32 z < 2 ^ 31.
Proof.
  unfold JsNumber.to_int32.
  pose proof (Z.mod_pos_bound (z + 2 ^ 31) (2 ^ 32) ltac:(lia)). lia.
Qed.

Lemma to_int32_mod (z : Z) : JsNumber.to_int32 z mod 2 ^ 32 = z mod 2 ^ 32.
Proof.
  unfold JsNumber.to_int32.
  rewrite Zminus_mod, Zmod_mod, <- Zminus_mod.
  f_equal. lia.
Qed.

Lemma to_int32_cong (a b : Z) :
  a mod 2 ^ 32 = b mod 2 ^ 32 -> JsNumber.to_int32 a = JsNumber.to_int32 b.
Proof.
  intros H. unfold JsNumber.to_int32.
  rewrite (Zplus_mod a), (Zplus_mod b), H. reflexivity.
Qed.

Lemma to_int32_small (z : Z) :
  - 2 ^ 31 <= z < 2 ^ 31 -> JsNumber.to_int32 z = z.
Proof.
  intros H. unfold JsNumber.to_int32. rewrite Z.mod_small; lia.
Qed.

Lemma hashStep_mul31 (h : Z) (c : ascii) :
  hashStep h c = JsNumber.to_int32 (31 * h + JsString.code c).
Proof.
  unfold hashStep, JsNumber.band, JsNumber.shl. rewrite Z.land_diag.
  apply to_int32_cong.
  change (5 mod 32) with 5. rewrite Z.shiftl_mul_pow2 by lia.
  change (2 ^ 5) with 32.
  rewrite Zplus_mod, Zminus_mod, to_int32_mod.
  rewrite (Zmult_mod (JsNumber.to_int32 h)), to_int32_mod, <- Zmult_mod.
  rewrite <- Zminus_mod, <- Zplus_mod. f_equal. lia.
Qed.

Lemma hashLoop_poly (h : Z) (str : string) :
  JsNumber.to_int32 (hashLoop (JsNumber.to_int32 h) str)
  = JsNumber.to_int32 (polyHash h str).
Proof.
  revert h. induction str as [|c r IH]; intros h; simpl.
  - apply to_int32_small, to_int32_range.
  - rewrite hashStep_mul31. rewrite <- IH. f_equal. f_equal.
    apply to_int32_cong.
    rewrite Zplus_mod, Zmult_mod, to_int32_mod, <- Zmult_mod, <- Zplus_mod.
    reflexivity.
Qed.

Lemma hashLoop_range (h : Z) (str : string) :
  - 2 ^ 31 <= h < 2 ^ 31 -> - 2 ^ 31 <= hashLoop h str < 2 ^ 31.
Proof.
  revert h. induction str as [|c r IH]; intros h Hh; simpl; [exact Hh|].
  apply IH. rewrite hashStep_mul31. apply to_int32_range.
Qed.

(** X1: the accumulator of [simpleHash] is the base-31 polynomial of the
    code units wrapped to a signed 32-bit integer (the shift, subtract
    and mask of the loop body amount to [hash * 31 + char] modulo
    [2^32]), and it never leaves the signed 32-bit range. *)
Theorem simpleHash_accumulator_is_poly31 :
  forall str : string,
    hashLoop 0 str = JsNumber.to_int32 (polyHash 0 str)
    /\ - 2 ^ 31 <= hashLoop 0 str < 2 ^ 31.
Proof.
  intros str. split.
  - rewrite <- (hashLoop_poly 0 str).
    change (JsNumber.to_int32 0) with 0.
    symmetry. apply to_int32_small, hashLoop_range. lia.
  - apply hashLoop_range. lia.
Qed.

(** ** The printed form of a hash *)

Lemma digits_length_lower (fuel : nat) (radix n : Z) (acc : string) :
  (String.length acc <= String.length (JsNumber.digits fuel radix n acc))%nat.
Proof.
  revert n acc. induction fuel as [|f IH]; intros n acc; simpl; [lia|].
  destruct (n / radix =? 0); simpl; [lia|].
  specialize (IH (n / radix) (String (JsNumber.digitChar (n mod radix)) acc)).
  simpl in IH. lia.
Qed.

Lemma digits_length_upper (radix : Z) (fuel : nat) :
  2 <= radix ->
  forall (k : nat) (n : Z) (acc : string),
    0 <= n < radix ^ Z.of_nat (S k) ->
    (String.length (JsNumber.digits fuel radix n acc)
     <= S k + String.length acc)%nat.
Proof.
  intros Hr. induction fuel as [|f IH]; intros k n acc Hn; simpl; [lia|].
  destruct (n / radix =? 0) eqn:E; simpl; [lia|].
  apply Z.eqb_neq in E.
  destruct k as [|k].
  - exfalso. apply E. apply Z.div_small.
    change (Z.of_nat 1) with 1 in Hn. rewrite Z.pow_1_r in Hn. exact Hn.
  - specialize (IH k (n / radix)
                  (String (JsNumber.digitChar (n mod radix)) acc)).
    simpl in IH. assert (Hq : 0 <= n / radix < radix ^ Z.of_nat (S k)).
    { split; [apply Z.div_pos; lia|].
      apply Z.div_lt_upper_bound; [lia|].
      rewrite (Nat2Z.inj_succ (S k)), Z.pow_succ_r in Hn by lia. lia. }
    specialize (IH Hq). lia.
Qed.

(** X2: a content hash is a non-empty string of at most six characters,
    all of them digits or lower-case letters [0-9a-z]. *)
Theorem simpleHash_format :
  forall str : string,
    JsString.all isBase36Digit (simpleHash str) = true
    /\ (1 <= String.length (simpleHash str) <= 6)%nat.
Proof.
  intros str. split; [apply simpleHash_base36|].
  unfold simpleHash, JsNumber.toStringRadix.
  assert (Hneg : (Z.abs (hashLoop 0 str) <? 0) = false).
  { apply Z.ltb_ge, Z.abs_nonneg. }
  rewrite Hneg, Z.abs_idemp.
  pose proof (hashLoop_range 0 str ltac:(lia)) as Hr.
  set (n := Z.abs (hashLoop 0 str)) in *.
  split.
  - simpl. destruct (n / 36 =? 0); simpl; [lia|].
    match goal with |- (1 <= String.length (JsNumber.digits ?f 36 ?m ?a))%nat =>
      pose proof (digits_length_lower f 36 m a) as Hl end.
    simpl in Hl. lia.
  - match goal with |- (String.length (JsNumber.digits ?f 36 n _) <= 6)%nat =>
      pose proof (digits_length_upper 36 f ltac:(lia) 5 n EmptyString) as Hu
    end.
    simpl String.length in Hu. apply Hu. subst n.
    change (36 ^ Z.of_nat 6) with 2176782336. lia.
Qed.

(** ** Normalisation of the question text *)

(** A boolean property checked on all 256 code units holds of every one. *)
Lemma forall_ascii (P : ascii -> bool) :
  forallb P allAscii = true -> forall c, P c = true.
Proof.
  intros H c. rewrite forallb_forall in H. apply H.
  unfold allAscii. rewrite <- (ascii_nat_embedding c) at 1.
  apply in_map, in_seq. pose proof (nat_ascii_bounded c). lia.
Qed.

Lemma isSpace_lowerChar (c : ascii) :
  JsString.isSpace (JsString.lowerChar c) = JsString.isSpace c.
Proof.
  apply Bool.eqb_prop.
  apply (forall_ascii
           (fun c => Bool.eqb (JsString.isSpace (JsString.lowerChar c))
                       (JsString.isSpace c))).
  vm_compute. reflexivity.
Qed.

Lemma lowerChar_space (c : ascii) :
  JsString.isSpace c = true -> JsString.lowerChar c = c.
Proof.
  intros H.
  assert (E : (if JsString.isSpace c
               then Ascii.eqb (JsString.lowerChar c) c else true) = true).
  { apply (forall_ascii
             (fun c => if JsString.isSpace c
                       then Ascii.eqb (JsString.lowerChar c) c else true)).
    vm_compute. reflexivity. }
  rewrite H in E. now apply Ascii.eqb_eq.
Qed.

Lemma keepInText_lowerChar (c : ascii) :
  keepInText (JsString.lowerChar c) = keepInText c.
Proof.
  apply Bool.eqb_prop.
  apply (forall_ascii
           (fun c => Bool.eqb (keepInText (JsString.lowerChar c))
                       (keepInText c))).
  vm_compute. reflexivity.
Qed.

Lemma lowerChar_idem (c : ascii) :
  JsString.lowerChar (JsString.lowerChar c) = JsString.lowerChar c.
Proof.
  apply Ascii.eqb_eq.
  apply (forall_ascii
           (fun c => Ascii.eqb (JsString.lowerChar (JsString.lowerChar c))
                       (JsString.lowerChar c))).
  vm_compute. reflexivity.
Qed.

Lemma toLowerCase_idem (s : string) :
  JsString.toLowerCase (JsString.toLowerCase s) = JsString.toLowerCase s.
Proof.
  unfold JsString.toLowerCase.
  induction s as [|c r IH]; simpl; [reflexivity|].
  now rewrite lowerChar_idem, IH.
Qed.

Lemma collapseSpaces_toLowerCase (b : bool) (s : string) :
  JsString.collapseSpaces b (JsString.toLowerCase s)
  = JsString.toLowerCase (JsString.collapseSpaces b s).
Proof.
  unfold JsString.toLowerCase. revert b.
  induction s as [|c r IH]; intros b; simpl; [reflexivity|].
  rewrite isSpace_lowerChar. destruct (JsString.isSpace c) eqn:E.
  - destruct b; simpl; now rewrite IH.
  - simpl. now rewrite IH.
Qed.

Lemma filter_keepInText_toLowerCase (s : string) :
  JsString.filter keepInText (JsString.toLowerCase s)
  = JsString.toLowerCase (JsString.filter keepInText s).
Proof.
  unfold JsString.toLowerCase.
  induction s as [|c r IH]; simpl; [reflexivity|].
  rewrite keepInText_lowerChar. destruct (keepInText c); simpl; now rewrite IH.
Qed.

Lemma cleanText_toLowerCase (t : string) :
  cleanText (JsString.toLowerCase t) = cleanText t.
Proof.
  unfold cleanText.
  now rewrite collapseSpaces_toLowerCase, filter_keepInText_toLowerCase,
    toLowerCase_idem.
Qed.

Lemma cleanOption_toLowerCase (o : string) :
  cleanOption (JsString.toLowerCase o) = cleanOption o.
Proof. unfold cleanOption. now rewrite toLowerCase_idem. Qed.

Lemma hashInput_toLowerCase (t ty : string) (opts : option (list string)) :
  hashInput (JsString.toLowerCase t) ty
    (option_map (List.map JsString.toLowerCase) opts)
  = hashInput t ty opts.
Proof.
  unfold hashInput. rewrite cleanText_toLowerCase.
  destruct opts as [l|]; simpl; [|reflexivity].
  rewrite map_map.
  now rewrite (map_ext _ _ cleanOption_toLowerCase).
Qed.

(** X3: for texts and options of code units below 256, the fingerprint
    ignores letter case, in the question text and in the options: two
    captures whose texts and options agree after [toLowerCase] get the
    same hash.  (The text is filtered to ASCII before it is lower-cased,
    so this does not extend to code units such as U+212A, which
    [toLowerCase] alone would turn into a letter.) *)
Theorem generateQuestionHash_ignores_case :
  forall (t1 t2 questionType : string) (opts1 opts2 : option (list string)),
    JsString.toLowerCase t1 = JsString.toLowerCase t2 ->
    option_map (List.map JsString.toLowerCase) opts1
    = option_map (List.map JsString.toLowerCase) opts2 ->
    generateQuestionHash t1 questionType opts1
    = generateQuestionHash t2 questionType opts2.
Proof.
  intros t1 t2 ty o1 o2 Ht Ho. unfold generateQuestionHash.
  rewrite <- (hashInput_toLowerCase t1), <- (hashInput_toLowerCase t2).
  now rewrite Ht, Ho.
Qed.

Lemma generateQuestionHash_ignores_case_witness :
  generateQuestionHash "What IS the Capital?" "multiple_choice_question"
    (Some ["Paris"; "ROME"]%string)
  = generateQuestionHash "what is THE capital?" "multiple_choice_question"
      (Some ["PARIS"; "rome"]%string).
Proof.
  apply generateQuestionHash_ignores_case; reflexivity.
Defined.

Lemma all_trimStart (p : ascii -> bool) (s : string) :
  JsString.all p s = true -> JsString.all p (JsString.trimStart s) = true.
Proof.
  induction s as [|c r IH]; simpl; [auto|].
  intros H. apply andb_true_iff in H. destruct H as [Hc Hr].
  destruct (JsString.isSpace c); [auto|]. simpl. now rewrite Hc, Hr.
Qed.

Lemma all_trimEnd (p : ascii -> bool) (s : string) :
  JsString.all p s = true -> JsString.all p (JsString.trimEnd s) = true.
Proof.
  induction s as [|c r IH]; simpl; [auto|].
  intros H. apply andb_true_iff in H. destruct H as [Hc Hr].
  specialize (IH Hr). destruct (JsString.trimEnd r) as [|c' r'].
  - destruct (JsString.isSpace c); simpl; [reflexivity|].
    now rewrite Hc.
  - simpl in *. now rewrite Hc, IH.
Qed.

Lemma headIsSpace_trimStart (s : string) :
  headIsSpace (JsString.trimStart s) = false.
Proof.
  induction s as [|c r IH]; simpl; [reflexivity|].
  destruct (JsString.isSpace c) eqn:E; [exact IH|]. simpl. exact E.
Qed.

Lemma lastIsSpace_trimEnd (s : string) :
  lastIsSpace (JsString.trimEnd s) = false.
Proof.
  induction s as [|c r IH]; simpl; [reflexivity|].
  destruct (JsString.trimEnd r) as [|c' r'].
  - destruct (JsString.isSpace c) eqn:E; simpl; [reflexivity|exact E].
  - exact IH.
Qed.

Lemma headIsSpace_trimEnd (s : string) :
  headIsSpace s = false -> headIsSpace (JsString.trimEnd s) = false.
Proof.
  destruct s as [|c r]; simpl; [auto|]. intros H.
  destruct (JsString.trimEnd r); [|exact H].
  rewrite H. exact H.
Qed.

(** What the filter leaves of the collapsed text: kept code units, and no
    white space other than the plain space. *)
Lemma all_filter_collapse (b : bool) (s : string) :
  JsString.all
    (fun c => keepInText c
              && (negb (JsString.isSpace c) || (JsString.code c =? 32)))
    (JsString.filter keepInText (JsString.collapseSpaces b s)) = true.
Proof.
  revert b. induction s as [|c r IH]; intros b; simpl; [reflexivity|].
  destruct (JsString.isSpace c) eqn:E.
  - destruct b; [apply IH|]. simpl. apply IH.
  - simpl. destruct (keepInText c) eqn:K; [|apply IH].
    simpl. rewrite K, E. simpl. apply IH.
Qed.

Lemma all_toLowerCase_clean (s : string) :
  JsString.all
    (fun c => keepInText c
              && (negb (JsString.isSpace c) || (JsString.code c =? 32))) s
  = true ->
  JsString.all isCleanTextChar (JsString.toLowerCase s) = true.
Proof.
  unfold JsString.toLowerCase.
  induction s as [|c r IH]; simpl; [auto|].
  intros H. apply andb_true_iff in H. destruct H as [Hc Hr].
  rewrite (IH Hr), andb_true_r.
  assert (E : implb (keepInText c
                     && (negb (JsString.isSpace c) || (JsString.code c =? 32)))
                (isCleanTextChar (JsString.lowerChar c)) = true).
  { apply (forall_ascii
             (fun c => implb
                (keepInText c
                 && (negb (JsString.isSpace c) || (JsString.code c =? 32)))
                (isCleanTextChar (JsString.lowerChar c)))).
    vm_compute. reflexivity. }
  rewrite Hc in E. exact E.
Qed.

(** X4: the normalised text that is hashed consists only of lower-case
    ASCII letters, digits, underscore, plain spaces and the marks
    [?], [.], [!], and has no white space at either end. *)
Theorem cleanText_alphabet :
  forall questionText : string,
    JsString.all isCleanTextChar (cleanText questionText) = true
    /\ headIsSpace (cleanText questionText) = false
    /\ lastIsSpace (cleanText questionText) = false.
Proof.
  intros t. unfold cleanText, JsString.trim. split; [|split].
  - apply all_trimEnd, all_trimStart, all_toLowerCase_clean,
      all_filter_collapse.
  - apply headIsSpace_trimEnd, headIsSpace_trimStart.
  - apply lastIsSpace_trimEnd.
Qed.

(** ** White space in the question text *)

Lemma append_cons_snoc (t r : string) (c : ascii) :
  (t ++ String c r = (t ++ String c EmptyString) ++ r)%string.
Proof. induction t as [|d t IH]; simpl; [reflexivity|]. now rewrite IH. Qed.

Lemma filter_append (p : ascii -> bool) (s1 s2 : string) :
  JsString.filter p (s1 ++ s2)
  = (JsString.filter p s1 ++ JsString.filter p s2)%string.
Proof.
  induction s1 as [|c r IH]; simpl; [reflexivity|].
  destruct (p c); simpl; now rewrite IH.
Qed.

Lemma toLowerCase_append (s1 s2 : string) :
  JsString.toLowerCase (s1 ++ s2)
  = (JsString.toLowerCase s1 ++ JsString.toLowerCase s2)%string.
Proof.
  unfold JsString.toLowerCase.
  induction s1 as [|c r IH]; simpl; [reflexivity|]. now rewrite IH.
Qed.

(** The text before trimming. *)
Lemma trimStart_flag (t : string) :
  JsString.trimStart
    (JsString.toLowerCase
       (JsString.filter keepInText (JsString.collapseSpaces true t)))
  = JsString.trimStart
      (JsString.toLowerCase
         (JsString.filter keepInText (JsString.collapseSpaces false t))).
Proof.
  destruct t as [|c r]; simpl; [reflexivity|].
  destruct (JsString.isSpace c); reflexivity.
Qed.

Lemma cleanText_leading (lead t : string) :
  JsString.all JsString.isSpace lead = true ->
  cleanText (lead ++ t) = cleanText t.
Proof.
  unfold cleanText, JsString.trim. intros H. f_equal.
  induction lead as [|c r IH]; simpl in *; [reflexivity|].
  apply andb_true_iff in H. destruct H as [Hc Hr]. rewrite Hc. simpl.
  rewrite trimStart_flag. now apply IH.
Qed.

Lemma collapseSpaces_snoc (b : bool) (t : string) (c : ascii) :
  JsString.isSpace c = true ->
  exists e, (e = EmptyString \/ e = " "%string)
            /\ JsString.collapseSpaces b (t ++ String c EmptyString)
               = (JsString.collapseSpaces b t ++ e)%string.
Proof.
  intros Hc. revert b. induction t as [|d r IH]; intros b; simpl.
  - rewrite Hc. destruct b; [exists EmptyString|exists " "%string]; auto.
  - destruct (JsString.isSpace d).
    + destruct (IH true) as (e & He & ->). exists e.
      destruct b; auto.
    + destruct (IH false) as (e & He & ->). exists e. auto.
Qed.

Lemma trimEnd_snoc_space (z : string) :
  JsString.trimEnd (z ++ " ") = JsString.trimEnd z.
Proof. induction z as [|c r IH]; simpl; [reflexivity|]. now rewrite IH. Qed.

Lemma trim_snoc_space (y : string) :
  JsString.trim (y ++ " ") = JsString.trim y.
Proof.
  unfold JsString.trim. induction y as [|c r IH]; simpl; [reflexivity|].
  destruct (JsString.isSpace c); [exact IH|].
  apply (trimEnd_snoc_space (String c r)).
Qed.

Lemma append_empty_r (s : string) : (s ++ EmptyString)%string = s.
Proof. induction s as [|c r IH]; simpl; [reflexivity|]. now rewrite IH. Qed.

Lemma cleanText_snoc_space (t : string) (c : ascii) :
  JsString.isSpace c = true ->
  cleanText (t ++ String c EmptyString) = cleanText t.
Proof.
  intros Hc. unfold cleanText.
  destruct (collapseSpaces_snoc false t c Hc) as (e & [->| ->] & ->).
  - now rewrite append_empty_r.
  - rewrite filter_append, toLowerCase_append. apply trim_snoc_space.
Qed.

Lemma cleanText_trailing (trail t : string) :
  JsString.all JsString.isSpace trail = true ->
  cleanText (t ++ trail) = cleanText t.
Proof.
  revert t. induction trail as [|c r IH]; intros t H; simpl in H.
  - now rewrite append_empty_r.
  - apply andb_true_iff in H. destruct H as [Hc Hr].
    rewrite append_cons_snoc, (IH _ Hr). now apply cleanText_snoc_space.
Qed.

Lemma collapseSpaces_run (f : bool) (a b : string) (c1 c2 c : ascii) :
  JsString.isSpace c1 = true -> JsString.isSpace c2 = true ->
  JsString.isSpace c = true ->
  JsString.collapseSpaces f (a ++ String c1 (String c2 b))
  = JsString.collapseSpaces f (a ++ String c b).
Proof.
  intros H1 H2 H. revert f. induction a as [|d r IH]; intros f; simpl.
  - rewrite H1, H2, H. destruct f; reflexivity.
  - destruct (JsString.isSpace d); [destruct f|]; now rewrite IH.
Qed.

(** X5: the fingerprint ignores the amount and the kind of white space
    in the question text: white space before and after the text is
    dropped, and two adjacent white-space characters count as one of any
    kind. *)
Theorem generateQuestionHash_ignores_whitespace :
  forall (questionType : string) (opts : option (list string)),
    (forall lead t trail : string,
        JsString.all JsString.isSpace lead = true ->
        JsString.all JsString.isSpace trail = true ->
        generateQuestionHash (lead ++ t ++ trail) questionType opts
        = generateQuestionHash t questionType opts)
    /\ (forall (a b : string) (c1 c2 c : ascii),
           JsString.isSpace c1 = true -> JsString.isSpace c2 = true ->
           JsString.isSpace c = true ->
           generateQuestionHash (a ++ String c1 (String c2 b)) questionType
             opts
           = generateQuestionHash (a ++ String c b) questionType opts).
Proof.
  intros ty opts. split.
  - intros lead t trail Hl Ht. unfold generateQuestionHash, hashInput.
    now rewrite (cleanText_leading lead _ Hl), (cleanText_trailing trail _ Ht).
  - intros a b c1 c2 c H1 H2 H. unfold generateQuestionHash, hashInput, cleanText.
    now rewrite (collapseSpaces_run false a b c1 c2 c H1 H2 H).
Qed.

Lemma generateQuestionHash_ignores_whitespace_witness :
  generateQuestionHash ("  " ++ "What is 2+2?" ++ " ") "essay_question" None
  = generateQuestionHash "What is 2+2?" "essay_question" None
  /\ generateQuestionHash ("What" ++ String " " (String " " "is 2+2?"))
       "essay_question" None
     = generateQuestionHash ("What" ++ String " " "is 2+2?")
         "essay_question" None.
Proof.
  destruct (generateQuestionHash_ignores_whitespace "essay_question" None)
    as [Hends Hrun].
  split.
  - apply Hends; reflexivity.
  - apply Hrun; reflexivity.
Defined.

(** ** Range of the quality score *)

(** X6: the quality score lies between 0 and 330, and for one and the
    same text the provenance ranks the score: no source scores higher
    than the page ([dom]), and the Canvas API scores at least as high as
    a placeholder. *)
Theorem calculateTextQuality_bounds :
  forall questionText source : string,
    0 <= calculateTextQuality questionText source <= 330
    /\ calculateTextQuality questionText source
       <= calculateTextQuality questionText "dom"
    /\ calculateTextQuality questionText "placeholder"
       <= calculateTextQuality questionText "canvas_api"
    /\ calculateTextQuality questionText "canvas_api"
       <= calculateTextQuality questionText "dom".
Proof.
  intros t src. unfold calculateTextQuality.
  change (String.eqb "dom" "dom") with true.
  change (String.eqb "canvas_api" "dom") with false.
  change (String.eqb "canvas_api" "canvas_api") with true.
  change (String.eqb "placeholder" "dom") with false.
  change (String.eqb "placeholder" "canvas_api") with false.
  change (String.eqb "placeholder" "placeholder") with true.
  cbv zeta.
  destruct (String.eqb src "dom"), (String.eqb src "canvas_api"),
    (String.eqb src "placeholder"), (isPlaceholderText t),
    (JsString.includes "Question ID" t), (JsString.includes "?" t),
    (20 <? strlen t); lia.
Qed.

(** ** Placeholder texts *)

Lemma stripPrefix_Some (p s r : string) :
  JsString.stripPrefix p s = Some r -> s = (p ++ r)%string.
Proof.
  revert s. induction p as [|a p IH]; intros s; simpl.
  - now intros [= <-].
  - destruct s as [|b s]; [discriminate|].
    destruct (Ascii.eqb a b) eqn:E; [|discriminate].
    apply Ascii.eqb_eq in E. subst b. intros H. now rewrite (IH _ H).
Qed.

Lemma digits_no_question_mark (r : string) :
  JsString.all JsString.isDigit r = true ->
  JsString.includes "?" r = false.
Proof.
  induction r as [|c r IH]; simpl; [reflexivity|].
  intros H. apply andb_true_iff in H. destruct H as [Hc Hr].
  rewrite (IH Hr), orb_false_r, andb_true_r.
  assert (E : implb (JsString.isDigit c) (negb (Ascii.eqb "?" c)) = true).
  { apply (forall_ascii
             (fun c => implb (JsString.isDigit c) (negb (Ascii.eqb "?" c)))).
    vm_compute. reflexivity. }
  rewrite Hc in E. simpl in E. now apply negb_true_iff in E.
Qed.

Lemma placeholder_no_question_mark (t : string) :
  isPlaceholderText t = true -> JsString.includes "?" t = false.
Proof.
  unfold isPlaceholderText.
  destruct (JsString.stripPrefix "Question " t) as [rest|] eqn:E;
    [|discriminate].
  intros H. apply andb_true_iff in H. destruct H as [_ Hd].
  apply stripPrefix_Some in E. subst t. simpl.
  now apply digits_no_question_mark.
Qed.

Lemma placeholder_text_scores_zero (t : string) :
  isPlaceholderText t = true -> strlen t <= 30 ->
  calculateTextQuality t "placeholder" = 0.
Proof.
  intros Hp Hlen. unfold calculateTextQuality.
  rewrite Hp, (placeholder_no_question_mark t Hp).
  change (String.eqb "placeholder" "dom") with false.
  change (String.eqb "placeholder" "canvas_api") with false.
  change (String.eqb "placeholder" "placeholder") with true.
  cbv zeta. pose proof (Nat2Z.is_nonneg (String.length t)).
  unfold strlen in *.
  destruct (JsString.includes "Question ID" t),
    (20 <? Z.of_nat (String.length t)) eqn:L; lia.
Qed.

Lemma digitChar_decimal (d : Z) :
  0 <= d < 10 -> JsString.isDigit (JsNumber.digitChar d) = true.
Proof.
  intros Hd.
  assert (Hall : forallb (fun k => JsString.isDigit
                                     (JsNumber.digitChar (Z.of_nat k)))
                   (seq 0 10) = true) by (vm_compute; reflexivity).
  rewrite forallb_forall in Hall.
  specialize (Hall (Z.to_nat d)).
  rewrite Z2Nat.id in Hall by lia.
  apply Hall. apply in_seq. lia.
Qed.

Lemma digits_decimal (fuel : nat) (n : Z) (acc : string) :
  JsString.all JsString.isDigit acc = true ->
  JsString.all JsString.isDigit (JsNumber.digits fuel 10 n acc) = true.
Proof.
  revert n acc. induction fuel as [|f IH]; intros n acc Hacc; simpl;
    [exact Hacc|].
  assert (Hd : JsString.all JsString.isDigit
                 (String (JsNumber.digitChar (n mod 10)) acc) = true).
  { simpl. rewrite Hacc, digitChar_decimal; [reflexivity|].
    apply Z.mod_pos_bound. lia. }
  destruct (n / 10 =? 0); [exact Hd|]. now apply IH.
Qed.

Lemma toString_decimal (n : Z) :
  0 <= n < 10 ^ 21 ->
  JsString.all JsString.isDigit (JsNumber.toString n) = true
  /\ (1 <= String.length (JsNumber.toString n) <= 21)%nat.
Proof.
  intros Hn. unfold JsNumber.toString, JsNumber.toStringRadix.
  assert (Hneg : (n <? 0) = false) by (apply Z.ltb_ge; lia).
  rewrite Hneg, Z.abs_eq by lia. split; [now apply digits_decimal|]. split.
  - simpl. destruct (n / 10 =? 0); simpl; [lia|].
    match goal with |- (1 <= String.length (JsNumber.digits ?f 10 ?m ?a))%nat =>
      pose proof (digits_length_lower f 10 m a) as Hl end.
    simpl in Hl. lia.
  - match goal with |- (String.length (JsNumber.digits ?f 10 n _) <= 21)%nat =>
      pose proof (digits_length_upper 10 f ltac:(lia) 20 n EmptyString) as Hu
    end.
    simpl String.length in Hu. apply Hu.
    change (Z.of_nat 21) with 21. lia.
Qed.

Lemma generated_placeholder (n : Z) :
  0 <= n < 10 ^ 21 ->
  isPlaceholderText ("Question " ++ JsNumber.toString n) = true
  /\ strlen ("Question " ++ JsNumber.toString n) <= 30.
Proof.
  intros Hn. destruct (toString_decimal n Hn) as [Hd [Hl Hu]].
  unfold isPlaceholderText, strlen. simpl.
  rewrite Hd, andb_true_r. split; [|lia].
  destruct (JsNumber.toString n); [simpl in Hl; lia|reflexivity].
Qed.

(** X7: a question for which neither the page nor Canvas supplies a text
    is recorded under the generated text [Question <id>] with source
    [placeholder], and that text scores quality 0 (for every id below
    [10^21], where a number prints in plain decimal). *)
Theorem missing_text_is_placeholder_of_quality_zero :
  forall (domQuestion : option DomQuestion) (qd : QuestionData),
    0 <= question_id qd < 10 ^ 21 ->
    truthyStr (optionalChain questionText domQuestion) = None ->
    truthyStr (qd_question_text qd) = None ->
    chooseText domQuestion qd
    = ("Question " ++ JsNumber.toString (question_id qd))%string
    /\ chooseSource domQuestion qd = "placeholder"%string
    /\ calculateTextQuality (chooseText domQuestion qd)
         (chooseSource domQuestion qd) = 0.
Proof.
  intros dom qd Hid Hdom Hqd. unfold chooseText, chooseSource.
  rewrite Hdom, Hqd. split; [reflexivity|]. split; [reflexivity|].
  destruct (generated_placeholder _ Hid) as [Hp Hl].
  now apply placeholder_text_scores_zero.
Qed.

Lemma missing_text_is_placeholder_of_quality_zero_witness :
  calculateTextQuality (chooseText None answer_5) (chooseSource None answer_5)
  = 0.
Proof.
  apply (missing_text_is_placeholder_of_quality_zero None answer_5);
    try reflexivity.
  simpl. lia.
Defined.

(** ** The arrays filled by the main loop *)

Lemma set_absent {K V : Type} (eqb : K -> K -> bool) (m : list (K * V))
    (k : K) (v : V) :
  JsMap.get eqb m k = None -> JsMap.set eqb m k v = m ++ [(k, v)].
Proof.
  induction m as [|[k' v'] r IH]; simpl; [reflexivity|].
  destruct (eqb k k'); [discriminate|]. intros H. now rewrite IH.
Qed.

Lemma has_false {K V : Type} (eqb : K -> K -> bool) (m : list (K * V))
    (k : K) :
  JsMap.has eqb m k = false <-> JsMap.get eqb m k = None.
Proof.
  unfold JsMap.has. destruct (JsMap.get eqb m k); split; congruence.
Qed.

Lemma mainLoop_flat (courseId quizId : Z)
    (submissions : list CanvasSubmission) (domQuestions : list DomQuestion)
    (existingQuestions : list ExistingQuestion) :
  mainLoop courseId quizId submissions domQuestions existingQuestions
  = List.fold_left
      (processQuestion courseId quizId (buildDomQuestionMap domQuestions)
         (buildExistingByCanvasId existingQuestions))
      (allQuestionData submissions) emptyBatch.
Proof.
  unfold mainLoop, allQuestionData. generalize emptyBatch.
  induction submissions as [|s r IH]; intros st; simpl; [reflexivity|].
  rewrite fold_left_app, IH. unfold processSubmission.
  destruct (submission_data s); reflexivity.
Qed.

Lemma firstAnswerFor_snoc (p : list QuestionData) (quizId : Z)
    (row : SubmissionRow) (qd : QuestionData) :
  firstAnswerFor p quizId row -> firstAnswerFor (p ++ [qd]) quizId row.
Proof.
  intros (l1 & q & l2 & -> & H). exists l1, q, (l2 ++ [qd]).
  split; [|exact H]. now rewrite <- app_assoc.
Qed.

Lemma batchInv_step (courseId quizId : Z)
    (domQuestionMap : list (Z * DomQuestion))
    (existingByCanvasId : list (Z * ExistingQuestion))
    (p : list QuestionData) (st : BatchState) (qd : QuestionData) :
  batchInv quizId p st ->
  batchInv quizId (p ++ [qd])
    (processQuestion courseId quizId domQuestionMap existingByCanvasId st qd).
Proof.
  intros (Hproc & Hnd & Hids & Hbest & Hfirst & Hrows).
  assert (Hkeys : JsMap.keys (processedQuestions st)
                  = List.map sub_canvas_question_id (submissionsToSave st)).
  { rewrite Hproc. unfold JsMap.keys. rewrite map_map. reflexivity. }
  unfold processQuestion.
  destruct (JsMap.has Z.eqb (processedQuestions st) (question_id qd)) eqn:Hhas.
  - assert (Hin : In (question_id qd)
                    (List.map sub_canvas_question_id (submissionsToSave st))).
    { rewrite <- Hkeys.
      destruct (in_dec Z.eq_dec (question_id qd)
                  (JsMap.keys (processedQuestions st))) as [H|H]; [exact H|].
      apply (get_None Z.eqb Z.eqb_eq) in H. apply has_false in H. congruence. }
    repeat split; try assumption.
    + intros H. rewrite map_app, in_app_iff. left. now apply Hids.
    + rewrite map_app, in_app_iff. intros [H|[<-|[]]]; [now apply Hids|exact Hin].
    + eapply Forall_impl; [|exact Hfirst].
      intros row. apply firstAnswerFor_snoc.
  - apply has_false in Hhas.
    assert (Hnot : ~ In (question_id qd)
                     (List.map sub_canvas_question_id (submissionsToSave st))).
    { rewrite <- Hkeys. now apply (get_None Z.eqb Z.eqb_eq). }
    unfold batchInv. cbv zeta.
    cbn [processedQuestions submissionsToSave bestAnswersToUpdate
         questionsToSave].
    rewrite (set_set Z.eqb Z.eqb_eq), (set_absent Z.eqb _ _ _ Hhas).
    repeat split.
    + rewrite Hproc, !map_app. reflexivity.
    + rewrite map_app. simpl. apply NoDup_app_remove_l with (l := []).
      simpl. apply Permutation_NoDup
               with (l := question_id qd
                          :: List.map sub_canvas_question_id
                               (submissionsToSave st)).
      * apply Permutation_cons_append.
      * now constructor.
    + rewrite !map_app, !in_app_iff. simpl. rewrite Hids. tauto.
    + rewrite !map_app, !in_app_iff. simpl. rewrite Hids. tauto.
    + rewrite !map_app, Hbest. reflexivity.
    + apply Forall_app. split.
      * eapply Forall_impl; [|exact Hfirst].
        intros row. apply firstAnswerFor_snoc.
      * constructor; [|constructor].
        exists p, qd, []. repeat split. intros H. apply Hnot. now apply Hids.
    + intros row Hrow. rewrite map_app, in_app_iff.
      destruct (shouldSaveQuestion _).
      * apply in_app_or in Hrow. destruct Hrow as [Hrow|[<-|[]]].
        -- left. now apply Hrows.
        -- right. left. reflexivity.
      * left. now apply Hrows.
Qed.

Lemma batchInv_fold (courseId quizId : Z)
    (domQuestionMap : list (Z * DomQuestion))
    (existingByCanvasId : list (Z * ExistingQuestion))
    (rest p : list QuestionData) (st : BatchState) :
  batchInv quizId p st ->
  batchInv quizId (p ++ rest)
    (List.fold_left
       (processQuestion courseId quizId domQuestionMap existingByCanvasId)
       rest st).
Proof.
  revert p st. induction rest as [|qd rest IH]; intros p st H; simpl.
  - now rewrite app_nil_r.
  - replace (p ++ qd :: rest) with ((p ++ [qd]) ++ rest)
      by now rewrite <- app_assoc.
    apply IH. now apply batchInv_step.
Qed.

Lemma batchInv_mainLoop (courseId quizId : Z)
    (submissions : list CanvasSubmission) (domQuestions : list DomQuestion)
    (existingQuestions : list ExistingQuestion) :
  batchInv quizId (allQuestionData submissions)
    (mainLoop courseId quizId submissions domQuestions existingQuestions).
Proof.
  rewrite mainLoop_flat.
  apply (batchInv_fold courseId quizId _ _ (allQuestionData submissions) []).
  repeat split; try constructor; simpl; tauto.
Qed.

(** X8: a batch stores one submission row per question: the rows have
    pairwise different Canvas question ids, cover exactly the questions
    answered in the batch, and each row is built from the first answer
    to its question in the order of the submissions; answers to a
    question already seen in the batch are skipped. *)
Theorem batch_keeps_first_answer_per_question :
  forall (courseId quizId : Z) (submissions : list CanvasSubmission)
         (domQuestions : list DomQuestion)
         (existingQuestions : list ExistingQuestion)
         (savedSubmissions : list SavedSubmission),
    let rows :=
      batchSaveSubmissions
        (processCanvasSubmissionsWithQuestionData courseId quizId submissions
           domQuestions existingQuestions savedSubmissions) in
    NoDup (List.map sub_canvas_question_id rows)
    /\ (forall id, In id (List.map sub_canvas_question_id rows)
                   <-> In id (List.map question_id
                                (allQuestionData submissions)))
    /\ Forall (firstAnswerFor (allQuestionData submissions) quizId) rows.
Proof.
  intros courseId quizId submissions dom existing saved rows.
  destruct (batchInv_mainLoop courseId quizId submissions dom existing)
    as (_ & Hnd & Hids & _ & Hfirst & _).
  subst rows. simpl. auto.
Qed.

(** X9: the arrays of a batch refer to one another consistently: the map
    returned lists, in order, the question id and the hash of every
    submission row; the best-answer candidates carry the same hashes in
    the same order; and every question row written has the hash of some
    submission row of the batch. *)
Theorem batch_rows_are_consistent :
  forall (courseId quizId : Z) (submissions : list CanvasSubmission)
         (domQuestions : list DomQuestion)
         (existingQuestions : list ExistingQuestion)
         (savedSubmissions : list SavedSubmission),
    let plan :=
      processCanvasSubmissionsWithQuestionData courseId quizId submissions
        domQuestions existingQuestions savedSubmissions in
    let st :=
      mainLoop courseId quizId submissions domQuestions existingQuestions in
    returned plan
    = List.map
        (fun r => (sub_canvas_question_id r, HashOnly (sub_question_hash r)))
        (batchSaveSubmissions plan)
    /\ List.map ba_question_hash (bestAnswersToUpdate st)
       = List.map sub_question_hash (batchSaveSubmissions plan)
    /\ Forall
         (fun row => In (row_question_hash row)
                       (List.map sub_question_hash (batchSaveSubmissions plan)))
         (batchSaveQuestions plan).
Proof.
  intros courseId quizId submissions dom existing saved plan st.
  destruct (batchInv_mainLoop courseId quizId submissions dom existing)
    as (Hproc & _ & _ & Hbest & _ & Hrows).
  subst plan st. simpl. split; [exact Hproc|]. split; [exact Hbest|].
  apply Forall_forall. exact Hrows.
Qed.

(** ** The stored record chosen for a Canvas id *)

Lemma firstMaxR_None (qs : list ExistingQuestion) :
  firstMaxR qs = None -> qs = [].
Proof.
  destruct qs as [|x r]; simpl; [reflexivity|].
  destruct (firstMaxR r) as [b|]; [|discriminate].
  destruct (qualityOr0 x <? qualityOr0 b); discriminate.
Qed.

Lemma firstMaxR_spec (qs : list ExistingQuestion) (b : ExistingQuestion) :
  firstMaxR qs = Some b ->
  exists l1 l2,
    qs = l1 ++ b :: l2
    /\ (forall c, In c l1 -> qualityOr0 c < qualityOr0 b)
    /\ (forall c, In c l2 -> qualityOr0 c <= qualityOr0 b).
Proof.
  revert b. induction qs as [|x r IH]; intros b; simpl; [discriminate|].
  destruct (firstMaxR r) as [b'|] eqn:E.
  - destruct (IH b' eq_refl) as (l1 & l2 & -> & Hb & Ha).
    destruct (qualityOr0 x <? qualityOr0 b') eqn:Q; intros [= <-].
    + apply Z.ltb_lt in Q. exists (x :: l1), l2. split; [reflexivity|].
      split; [|exact Ha]. intros c [<-|Hc]; auto.
    + apply Z.ltb_ge in Q. exists [], (l1 ++ b' :: l2).
      split; [reflexivity|]. split; [intros c []|].
      intros c Hc. apply in_app_or in Hc. destruct Hc as [Hc|[<-|Hc]].
      * specialize (Hb c Hc). lia.
      * exact Q.
      * specialize (Ha c Hc). lia.
  - apply firstMaxR_None in E. subst r. intros [= <-].
    exists [], []. split; [reflexivity|]. split; intros c [].
Qed.

Lemma fold_pickBetter (r : list ExistingQuestion) (acc : option ExistingQuestion) :
  List.fold_left pickBetter r acc
  = match acc with
    | None => firstMaxR r
    | Some a =>
        match firstMaxR r with
        | None => Some a
        | Some b => if qualityOr0 a <? qualityOr0 b then Some b else Some a
        end
    end.
Proof.
  revert acc. induction r as [|y r IH]; intros acc; simpl.
  - destruct acc; reflexivity.
  - rewrite IH. destruct acc as [a|]; simpl.
    + destruct (firstMaxR r) as [b|];
        destruct (qualityOr0 a <? qualityOr0 y) eqn:Qay;
        try destruct (qualityOr0 y <? qualityOr0 b) eqn:Qyb;
        try destruct (qualityOr0 a <? qualityOr0 b) eqn:Qab;
        rewrite ?Qay, ?Qyb, ?Qab; try reflexivity;
        rewrite ?Z.ltb_lt, ?Z.ltb_ge in *; lia.
    + reflexivity.
Qed.

Lemma existingStep_get (m : list (Z * ExistingQuestion)) (q : ExistingQuestion)
    (id : Z) :
  JsMap.get Z.eqb
    (match truthyId (canvas_question_id q) with
     | Some canvasId =>
         match JsMap.get Z.eqb m canvasId with
         | None => JsMap.set Z.eqb m canvasId q
         | Some existing =>
             if qualityOr0 existing <? qualityOr0 q
             then JsMap.set Z.eqb m canvasId q else m
         end
     | None => m
     end) id
  = if hasCanvasId id q then pickBetter (JsMap.get Z.eqb m id) q
    else JsMap.get Z.eqb m id.
Proof.
  unfold hasCanvasId.
  destruct (truthyId (canvas_question_id q)) as [cid|]; [|reflexivity].
  destruct (cid =? id) eqn:E.
  - apply Z.eqb_eq in E. subst cid. unfold pickBetter.
    destruct (JsMap.get Z.eqb m id) as [e|] eqn:G.
    + destruct (qualityOr0 e <? qualityOr0 q); [|exact G].
      apply get_set_same, Z.eqb_eq.
    + apply get_set_same, Z.eqb_eq.
  - apply Z.eqb_neq in E.
    destruct (JsMap.get Z.eqb m cid) as [e|].
    + destruct (qualityOr0 e <? qualityOr0 q); [|reflexivity].
      apply get_set_other; [apply Z.eqb_eq|congruence].
    + apply get_set_other; [apply Z.eqb_eq|congruence].
Qed.

Lemma existingByCanvasId_fold (l : list ExistingQuestion)
    (m : list (Z * ExistingQuestion)) (id : Z) :
  JsMap.get Z.eqb
    (List.fold_left
       (fun m q =>
          match truthyId (canvas_question_id q) with
          | Some canvasId =>
              match JsMap.get Z.eqb m canvasId with
              | None => JsMap.set Z.eqb m canvasId q
              | Some existing =>
                  if qualityOr0 existing <? qualityOr0 q
                  then JsMap.set Z.eqb m canvasId q else m
              end
          | None => m
          end) l m) id
  = List.fold_left pickBetter (List.filter (hasCanvasId id) l)
      (JsMap.get Z.eqb m id).
Proof.
  revert m. induction l as [|q r IH]; intros m; simpl; [reflexivity|].
  rewrite IH, existingStep_get.
  destruct (hasCanvasId id q); reflexivity.
Qed.

Lemma existingByCanvasId_firstMax (l : list ExistingQuestion) (id : Z) :
  JsMap.get Z.eqb (buildExistingByCanvasId l) id
  = firstMaxR (List.filter (hasCanvasId id) l).
Proof.
  unfold buildExistingByCanvasId.
  rewrite existingByCanvasId_fold, fold_pickBetter. reflexivity.
Qed.

Lemma filter_split {A : Type} (f : A -> bool) (l a c : list A) (b : A) :
  List.filter f l = a ++ b :: c ->
  exists l1 l2, l = l1 ++ b :: l2
                /\ List.filter f l1 = a /\ List.filter f l2 = c
                /\ f b = true.
Proof.
  revert a. induction l as [|x r IH]; intros a; simpl.
  - destruct a; discriminate.
  - destruct (f x) eqn:E.
    + destruct a as [|a0 a]; simpl; intros H; injection H as Hx H.
      * subst b. exists [], r. auto.
      * subst a0. destruct (IH _ H) as (l1 & l2 & -> & <- & <- & Hb).
        exists (x :: l1), l2. simpl. rewrite E. auto.
    + intros H. destruct (IH _ H) as (l1 & l2 & -> & <- & <- & Hb).
      exists (x :: l1), l2. simpl. rewrite E. auto.
Qed.

(** X10: for each Canvas question id, the stored record that drives the
    hash decision is the first record of highest quality among the rows
    returned for that id: every earlier row with the id has strictly
    lower quality and no later one has higher.  An id has no record
    exactly when no row carries it. *)
Theorem existingByCanvasId_is_first_best :
  forall (existingQuestions : list ExistingQuestion) (id : Z),
    (JsMap.get Z.eqb (buildExistingByCanvasId existingQuestions) id = None
     <-> forall q, In q existingQuestions -> hasCanvasId id q = false)
    /\ (forall best,
           JsMap.get Z.eqb (buildExistingByCanvasId existingQuestions) id
           = Some best ->
           exists l1 l2,
             existingQuestions = l1 ++ best :: l2
             /\ hasCanvasId id best = true
             /\ (forall c, In c l1 -> hasCanvasId id c = true ->
                           qualityOr0 c < qualityOr0 best)
             /\ (forall c, In c l2 -> hasCanvasId id c = true ->
                           qualityOr0 c <= qualityOr0 best)).
Proof.
  intros l id. rewrite existingByCanvasId_firstMax. split.
  - split.
    + intros H q Hq. apply firstMaxR_None in H.
      destruct (hasCanvasId id q) eqn:E; [|reflexivity].
      assert (Hin : In q (List.filter (hasCanvasId id) l))
        by (apply filter_In; auto).
      rewrite H in Hin. destruct Hin.
    + intros H.
      destruct (firstMaxR (List.filter (hasCanvasId id) l)) as [b|] eqn:E;
        [|reflexivity].
      apply firstMaxR_spec in E. destruct E as (l1 & l2 & E & _).
      assert (Hin : In b (List.filter (hasCanvasId id) l))
        by (rewrite E; apply in_elt).
      apply filter_In in Hin. destruct Hin as [Hin Hb].
      rewrite (H b Hin) in Hb. discriminate.
  - intros best H. apply firstMaxR_spec in H.
    destruct H as (a & c & E & Hb & Ha).
    destruct (filter_split _ _ _ _ _ E) as (l1 & l2 & -> & <- & <- & Hid).
    exists l1, l2. split; [reflexivity|]. split; [exact Hid|]. split.
    + intros x Hx Hxid. apply Hb, filter_In. auto.
    + intros x Hx Hxid. apply Ha, filter_In. auto.
Qed.

(** ** Clean-up of duplicate records *)

Lemma groupStep_get (groups : list (Z * list ExistingQuestion))
    (cq : Z * ExistingQuestion) (id : Z) :
  JsMap.get Z.eqb
    (match JsMap.get Z.eqb groups (fst cq) with
     | None => JsMap.set Z.eqb groups (fst cq) [snd cq]
     | Some qs => JsMap.set Z.eqb groups (fst cq) (qs ++ [snd cq])
     end) id
  = if fst cq =? id
    then Some (match JsMap.get Z.eqb groups id with
               | Some qs => qs | None => []
               end ++ [snd cq])
    else JsMap.get Z.eqb groups id.
Proof.
  destruct (fst cq =? id) eqn:E.
  - apply Z.eqb_eq in E. rewrite E.
    destruct (JsMap.get Z.eqb groups id); apply get_set_same, Z.eqb_eq.
  - apply Z.eqb_neq in E.
    destruct (JsMap.get Z.eqb groups (fst cq));
      (apply get_set_other; [apply Z.eqb_eq|congruence]).
Qed.

Lemma duplicateGroups_fold (all : list (Z * ExistingQuestion))
    (groups : list (Z * list ExistingQuestion)) (id : Z) :
  JsMap.get Z.eqb
    (List.fold_left
       (fun groups cq =>
          match JsMap.get Z.eqb groups (fst cq) with
          | None => JsMap.set Z.eqb groups (fst cq) [snd cq]
          | Some qs => JsMap.set Z.eqb groups (fst cq) (qs ++ [snd cq])
          end) all groups) id
  = match List.map snd (List.filter (fun cq => fst cq =? id) all) with
    | [] => JsMap.get Z.eqb groups id
    | more => Some (match JsMap.get Z.eqb groups id with
                    | Some qs => qs | None => []
                    end ++ more)
    end.
Proof.
  revert groups. induction all as [|cq r IH]; intros groups; simpl;
    [reflexivity|].
  rewrite IH, groupStep_get.
  destruct (fst cq =? id); simpl.
  - destruct (List.map snd (List.filter (fun cq0 => fst cq0 =? id) r)).
    + reflexivity.
    + now rewrite <- app_assoc.
  - reflexivity.
Qed.

Lemma duplicateGroups_NoDup (all : list (Z * ExistingQuestion)) :
  NoDup (JsMap.keys (buildDuplicateGroups all)).
Proof.
  unfold buildDuplicateGroups.
  assert (H : NoDup (JsMap.keys (@nil (Z * list ExistingQuestion))))
    by constructor.
  revert H. generalize (@nil (Z * list ExistingQuestion)).
  induction all as [|cq r IH]; intros groups H; simpl; [exact H|].
  apply IH. destruct (JsMap.get Z.eqb groups (fst cq));
    apply NoDup_keys_set; auto using Z.eqb_eq.
Qed.

Lemma allExisting_filter (l : list ExistingQuestion) (id : Z) :
  List.map snd
    (List.filter (fun cq => fst cq =? id) (buildAllExistingQuestions l))
  = List.filter (hasCanvasId id) l.
Proof.
  unfold buildAllExistingQuestions, hasCanvasId.
  induction l as [|q r IH]; simpl; [reflexivity|].
  destruct (truthyId (canvas_question_id q)) as [cid|]; simpl; [|exact IH].
  destruct (cid =? id); simpl; now rewrite IH.
Qed.

Lemma duplicateGroups_entry (l : list ExistingQuestion) (id : Z)
    (qs : list ExistingQuestion) :
  In (id, qs) (buildDuplicateGroups (buildAllExistingQuestions l)) ->
  qs = List.filter (hasCanvasId id) l.
Proof.
  intros H.
  apply (In_get Z.eqb Z.eqb_eq) in H; [|apply duplicateGroups_NoDup].
  unfold buildDuplicateGroups in H.
  rewrite duplicateGroups_fold, allExisting_filter in H. simpl in H.
  destruct (List.filter (hasCanvasId id) l); [discriminate|].
  now injection H as <-.
Qed.

Lemma In_insertByKey {V : Type} (e x : Z * V) (l : list (Z * V)) :
  In e (insertByKey x l) <-> e = x \/ In e l.
Proof.
  induction l as [|y r IH]; simpl; [intuition congruence|].
  destruct (fst x <=? fst y); simpl; [intuition congruence|].
  rewrite IH. intuition congruence.
Qed.

Lemma In_objectEntries {V : Type} (o : list (Z * V)) (e : Z * V) :
  In e (objectEntries o) <-> In e o.
Proof.
  unfold objectEntries. rewrite in_app_iff, filter_In.
  assert (H : forall l : list (Z * V),
             In e (List.fold_right insertByKey [] l) <-> In e l).
  { induction l as [|x r IH]; simpl; [tauto|].
    rewrite In_insertByKey, IH. intuition congruence. }
  rewrite H, filter_In.
  destruct (isArrayIndex (fst e)); simpl; intuition congruence.
Qed.

Lemma insertByQuality_Permutation (x : ExistingQuestion)
    (l : list ExistingQuestion) :
  Permutation (x :: l) (insertByQuality x l).
Proof.
  induction l as [|y r IH]; simpl; [reflexivity|].
  destruct (qualityOr0 x <? qualityOr0 y); [|reflexivity].
  rewrite perm_swap. now apply perm_skip.
Qed.

Lemma sortByQuality_Permutation (l : list ExistingQuestion) :
  Permutation l (sortByQuality l).
Proof.
  unfold sortByQuality. induction l as [|x r IH]; simpl; [reflexivity|].
  rewrite <- insertByQuality_Permutation. now apply perm_skip.
Qed.

(** The stable sort puts the first record of highest quality in front. *)
Lemma sortByQuality_head (qs : list ExistingQuestion) :
  firstMaxR qs = List.head (sortByQuality qs).
Proof.
  unfold sortByQuality. induction qs as [|x r IH]; simpl; [reflexivity|].
  rewrite IH. destruct (List.fold_right insertByQuality [] r) as [|y s];
    simpl; [reflexivity|].
  destruct (qualityOr0 x <? qualityOr0 y); reflexivity.
Qed.

(** X11: every merge of the duplicate clean-up folds a stored record
    into the record the hash decision used for the same Canvas id (the
    first record of highest quality for that id); the merged record is a
    row with that id and its quality is not higher. *)
Theorem cleanup_merges_into_decision_record :
  forall (existingQuestions : list ExistingQuestion)
         (duplicateHash bestHash : string),
    In (duplicateHash, bestHash)
       (cleanupCalls (buildAllExistingQuestions existingQuestions)) ->
    exists id best duplicate,
      JsMap.get Z.eqb (buildExistingByCanvasId existingQuestions) id
      = Some best
      /\ bestHash = question_hash best
      /\ In duplicate existingQuestions
      /\ hasCanvasId id duplicate = true
      /\ qualityOr0 duplicate <= qualityOr0 best
      /\ duplicateHash = question_hash duplicate.
Proof.
  intros l dh bh H. unfold cleanupCalls in H.
  apply in_flat_map in H. destruct H as ([id qs] & Hentry & Hcall).
  apply In_objectEntries, duplicateGroups_entry in Hentry. simpl in Hcall.
  pose proof (sortByQuality_head qs) as Hhead.
  pose proof (sortByQuality_Permutation qs) as Hperm.
  destruct (sortByQuality qs) as [|best [|d ds]];
    [destruct Hcall|destruct Hcall|].
  simpl in Hhead. apply in_map_iff in Hcall.
  destruct Hcall as (dup & [= <- <-] & Hdup).
  assert (Hin : In dup qs).
  { apply (Permutation_in _ (Permutation_sym Hperm)). now right. }
  exists id, best, dup.
  rewrite existingByCanvasId_firstMax, <- Hentry.
  split; [exact Hhead|]. split; [reflexivity|].
  rewrite Hentry in Hin. apply filter_In in Hin. destruct Hin as [Hl Hid].
  split; [exact Hl|]. split; [exact Hid|]. split; [|reflexivity].
  apply firstMaxR_spec in Hhead. destruct Hhead as (l1 & l2 & E & Hb & Ha).
  assert (Hq : In dup qs).
  { apply (Permutation_in _ (Permutation_sym Hperm)). now right. }
  rewrite E in Hq. apply in_app_or in Hq. destruct Hq as [Hq|[<-|Hq]].
  - specialize (Hb _ Hq). lia.
  - lia.
  - now apply Ha.
Qed.

Lemma cleanup_merges_into_decision_record_witness :
  exists id best duplicate,
    JsMap.get Z.eqb
      (buildExistingByCanvasId
         [stored_placeholder;
          {| canvas_question_id := Some 5; question_hash := "k9idto";
             text_quality_score := Some 132; first_seen_quiz_id := Some 9 |}])
      id = Some best
    /\ "k9idto"%string = question_hash best
    /\ In duplicate
         [stored_placeholder;
          {| canvas_question_id := Some 5; question_hash := "k9idto";
             text_quality_score := Some 132; first_seen_quiz_id := Some 9 |}]
    /\ hasCanvasId id duplicate = true
    /\ qualityOr0 duplicate <= qualityOr0 best
    /\ "canvas_5_1"%string = question_hash duplicate.
Proof.
  apply cleanup_merges_into_decision_record. vm_compute. left. reflexivity.
Defined.

Lemma flat_map_nil {A B : Type} (f : A -> list B) (l : list A) :
  (forall x, In x l -> f x = []) -> List.flat_map f l = [].
Proof.
  induction l as [|x r IH]; simpl; intros H; [reflexivity|].
  rewrite (H x (or_introl eq_refl)), IH; auto.
Qed.

Lemma filter_key_absent (all : list (Z * ExistingQuestion)) (id : Z) :
  ~ In id (List.map fst all) ->
  List.filter (fun cq => fst cq =? id) all = [].
Proof.
  induction all as [|cq r IH]; simpl; intros H; [reflexivity|].
  destruct (fst cq =? id) eqn:E.
  - apply Z.eqb_eq in E. exfalso. auto.
  - apply IH. auto.
Qed.

Lemma filter_key_NoDup (all : list (Z * ExistingQuestion)) (id : Z) :
  NoDup (List.map fst all) ->
  (List.length
     (List.filter (fun cq : Z * ExistingQuestion => (fst cq =? id)%Z) all)
   <= 1)%nat.
Proof.
  induction all as [|cq r IH]; simpl; intros H; [lia|].
  inversion H as [|? ? Hnot Hnd]; subst.
  destruct (fst cq =? id) eqn:E; [|auto].
  apply Z.eqb_eq in E. rewrite E in Hnot.
  rewrite (filter_key_absent r id Hnot). simpl. lia.
Qed.

(** X12: a batch sends no merge request at all unless two stored rows
    share a Canvas question id: the only merges that reach the
    collaborator are those of the duplicate clean-up. *)
Theorem no_merge_without_repeated_canvas_id :
  forall (courseId quizId : Z) (submissions : list CanvasSubmission)
         (domQuestions : list DomQuestion)
         (existingQuestions : list ExistingQuestion)
         (savedSubmissions : list SavedSubmission),
    NoDup (List.map fst (buildAllExistingQuestions existingQuestions)) ->
    mergeQuestionRecords
      (processCanvasSubmissionsWithQuestionData courseId quizId submissions
         domQuestions existingQuestions savedSubmissions) = [].
Proof.
  intros courseId quizId submissions dom l saved Hnd. simpl.
  rewrite (onlyHashes_no_merge _ (mainLoop_onlyHashes _ _ _ _ _)). simpl.
  apply flat_map_nil. intros [id qs] Hentry. simpl.
  apply In_objectEntries, duplicateGroups_entry in Hentry.
  pose proof (filter_key_NoDup _ id Hnd) as Hlen.
  rewrite <- (length_map snd), allExisting_filter, <- Hentry in Hlen.
  rewrite (Permutation_length (sortByQuality_Permutation qs)) in Hlen.
  destruct (sortByQuality qs) as [|best [|d ds]]; try reflexivity.
  simpl in Hlen. lia.
Qed.

Lemma no_merge_without_repeated_canvas_id_witness :
  mergeQuestionRecords (second_visit None) = [].
Proof.
  apply no_merge_without_repeated_canvas_id.
  vm_compute. constructor; [intros []|constructor].
Defined.

Lemma upgrade_from_temporary_plans_merge_witness :
  mergeInfoEntry
    (decideHash 1 5 (Some stored_placeholder) "What is 2+2?"
       "short_answer_question" None "dom" 132)
  = MergeInfo
      (generateQuestionHash "What is 2+2?" "short_answer_question" None)
      (temporaryHash 5 1).
Proof.
  apply (upgrade_from_temporary_plans_merge 1 5 stored_placeholder);
    try reflexivity.
Defined.

(** ** Captures that do not re-key a stored record *)

(** X14: when a stored record exists and the captured text is not of
    strictly higher quality, no question row is written and the
    submission and best-answer rows are filed under the stored hash. *)
Theorem lower_quality_capture_keeps_record :
  forall (courseId quizId : Z)
         (domQuestionMap : list (Z * DomQuestion))
         (existingByCanvasId : list (Z * ExistingQuestion))
         (st : BatchState) (qd : QuestionData) (existing : ExistingQuestion),
    let domQuestion := JsMap.get Z.eqb domQuestionMap (question_id qd) in
    let st' := processQuestion courseId quizId domQuestionMap
                 existingByCanvasId st qd in
    JsMap.has Z.eqb (processedQuestions st) (question_id qd) = false ->
    JsMap.get Z.eqb existingByCanvasId (question_id qd) = Some existing ->
    calculateTextQuality (chooseText domQuestion qd)
      (chooseSource domQuestion qd) <= qualityOr0 existing ->
    questionsToSave st' = questionsToSave st
    /\ List.map sub_question_hash (submissionsToSave st')
       = List.map sub_question_hash (submissionsToSave st)
         ++ [question_hash existing]
    /\ List.map ba_question_hash (bestAnswersToUpdate st')
       = List.map ba_question_hash (bestAnswersToUpdate st)
         ++ [question_hash existing].
Proof.
  intros courseId quizId dm em st qd existing domQuestion st' Hnew Hex Hq.
  subst st' domQuestion. unfold processQuestion. rewrite Hnew, Hex. cbv zeta.
  cbn [questionsToSave submissionsToSave bestAnswersToUpdate].
  unfold decideHash. apply Z.ltb_ge in Hq. rewrite Hq.
  cbn [shouldSaveQuestion questionHash]. rewrite !map_app. auto.
Qed.

Lemma lower_quality_capture_keeps_record_witness :
  questionsToSave
    (processQuestion 1 9 []
       [(5, {| canvas_question_id := Some 5; question_hash := "k9idto";
               text_quality_score := Some 132;
               first_seen_quiz_id := Some 7 |})]
       emptyBatch answer_5) = [].
Proof.
  apply (lower_quality_capture_keeps_record 1 9 []
           [(5, {| canvas_question_id := Some 5; question_hash := "k9idto";
                   text_quality_score := Some 132;
                   first_seen_quiz_id := Some 7 |})]
           emptyBatch answer_5
           {| canvas_question_id := Some 5; question_hash := "k9idto";
              text_quality_score := Some 132; first_seen_quiz_id := Some 7 |});
    try reflexivity.
  vm_compute. discriminate.
Defined.

(** X15: a capture with placeholder source never changes the hash of a
    stored record, whatever its quality: the rows of the question are
    filed under the stored hash and no merge is planned. *)
Theorem placeholder_capture_keeps_stored_hash :
  forall (courseId quizId : Z)
         (domQuestionMap : list (Z * DomQuestion))
         (existingByCanvasId : list (Z * ExistingQuestion))
         (st : BatchState) (qd : QuestionData) (existing : ExistingQuestion),
    let domQuestion := JsMap.get Z.eqb domQuestionMap (question_id qd) in
    let st' := processQuestion courseId quizId domQuestionMap
                 existingByCanvasId st qd in
    JsMap.has Z.eqb (processedQuestions st) (question_id qd) = false ->
    JsMap.get Z.eqb existingByCanvasId (question_id qd) = Some existing ->
    chooseSource domQuestion qd = "placeholder"%string ->
    List.map sub_question_hash (submissionsToSave st')
    = List.map sub_question_hash (submissionsToSave st)
      ++ [question_hash existing]
    /\ Forall (fun row => In row (questionsToSave st)
                          \/ row_question_hash row = question_hash existing)
         (questionsToSave st')
    /\ oldHashToMerge
         (decideHash courseId (question_id qd) (Some existing)
            (chooseText domQuestion qd) (chooseType domQuestion qd)
            (chooseOptions domQuestion) (chooseSource domQuestion qd)
            (calculateTextQuality (chooseText domQuestion qd)
               (chooseSource domQuestion qd))) = None.
Proof.
  intros courseId quizId dm em st qd existing domQuestion st' Hnew Hex Hsrc.
  assert (Hd : forall t ty o q,
             questionHash
               (decideHash courseId (question_id qd) (Some existing) t ty o
                  "placeholder" q) = question_hash existing
             /\ oldHashToMerge
                  (decideHash courseId (question_id qd) (Some existing) t ty o
                     "placeholder" q) = None).
  { intros t ty o q. unfold decideHash.
    change (String.eqb "placeholder" "placeholder") with true.
    rewrite String.eqb_refl.
    destruct (qualityOr0 existing <? q); simpl; auto. }
  subst st' domQuestion. unfold processQuestion. rewrite Hnew, Hex, Hsrc.
  cbv zeta. cbn [questionsToSave submissionsToSave].
  split; [|split].
  - rewrite map_app. cbn [List.map sub_question_hash].
    now rewrite (proj1 (Hd _ _ _ _)).
  - destruct (shouldSaveQuestion _).
    + apply Forall_app. split.
      * apply Forall_forall. auto.
      * constructor; [|constructor]. right. unfold questionRow.
        cbn [row_question_hash]. apply Hd.
    + apply Forall_forall. auto.
  - apply Hd.
Qed.

Lemma placeholder_capture_keeps_stored_hash_witness :
  List.map sub_question_hash
    (submissionsToSave
       (processQuestion 1 9 [] [(5, stored_placeholder)] emptyBatch answer_5))
  = [] ++ ["canvas_5_1"%string].
Proof.
  apply (placeholder_capture_keeps_stored_hash 1 9 []
           [(5, stored_placeholder)] emptyBatch answer_5 stored_placeholder);
    reflexivity.
Defined.

(** ** Answer fields *)

(** X16: [sanitizeAnswerFields] returns exactly the properties whose
    name starts with [answer] and whose value is not [null], in their
    order, and returns [null] (never an empty object) when there is
    none. *)
Theorem sanitizeAnswerFields_spec :
  forall qd : QuestionData,
    (sanitizeAnswerFields qd = None <->
     forall k v, In (k, Some v) (qd_fields qd) ->
                 JsString.startsWith "answer" k = false)
    /\ (forall fields,
           sanitizeAnswerFields qd = Some fields ->
           fields <> []
           /\ forall k v,
                In (k, v) fields <->
                In (k, Some v) (qd_fields qd)
                /\ JsString.startsWith "answer" k = true).
Proof.
  intros qd. unfold sanitizeAnswerFields.
  set (pick := fun kv : string * option string =>
                 match snd kv with
                 | Some v =>
                     if JsString.startsWith "answer" (fst kv)
                     then [(fst kv, v)] else []
                 | None => []
                 end).
  assert (Hin : forall k v,
             In (k, v) (List.flat_map pick (qd_fields qd)) <->
             In (k, Some v) (qd_fields qd)
             /\ JsString.startsWith "answer" k = true).
  { intros k v. rewrite in_flat_map. split.
    - intros ([k' [v'|]] & Hkv & Hp); unfold pick in Hp;
        cbn [fst snd] in Hp; [|destruct Hp].
      destruct (JsString.startsWith "answer" k') eqn:E; [|destruct Hp].
      destruct Hp as [[= <- <-]|[]]. auto.
    - intros [Hkv Hs]. exists (k, Some v). split; [exact Hkv|].
      unfold pick. cbn [fst snd]. rewrite Hs. now left. }
  destruct (List.flat_map pick (qd_fields qd)) as [|f fs] eqn:E.
  - split.
    + split; [|reflexivity]. intros _ k v Hkv.
      destruct (JsString.startsWith "answer" k) eqn:S; [|reflexivity].
      exfalso. apply (proj2 (Hin k v)). auto.
    + intros fields H. discriminate.
  - split.
    + split; [discriminate|]. intros H. exfalso.
      destruct f as [k v]. destruct (proj1 (Hin k v) (or_introl eq_refl))
        as [Hkv Hs].
      rewrite (H k v Hkv) in Hs. discriminate.
    + intros fields [= <-]. split; [discriminate|exact Hin].
Qed.

(** ** Range of the confidence scores *)

(** X17: the confidence computed by [updateBestAnswer] always lies in
    [0, 1].  The confidence computed inline by the batch path never
    exceeds 1 and is not negative when neither the points nor the
    possible points are negative; it is not clamped from below, so
    negative points of an answer marked correct give a negative
    confidence. *)
Theorem confidence_ranges :
  (forall s : Submission, (0 <= confidenceScore s <= 1)%Q)
  /\ (forall qd : QuestionData, (inlineConfidence qd <= 1)%Q)
  /\ (forall qd : QuestionData,
         (0 <= toNumber (qd_points qd))%Q ->
         (0 <= toNumber (qd_points_possible qd))%Q ->
         (0 <= inlineConfidence qd)%Q)
  /\ (inlineConfidence qd_negative_points < 0)%Q.
Proof.
  split; [apply confidenceScore_range|]. split; [|split].
  - intros qd. unfold inlineConfidence.
    destruct (truthyCorrect (qd_correct qd)); [|lra].
    split_minmax; lra.
  - intros qd Hp Hpp. unfold inlineConfidence.
    destruct (truthyCorrect (qd_correct qd)); [|lra].
    assert (Hn : (0 <= numOr (qd_points qd) 0)%Q).
    { unfold numOr. destruct (truthyNum (qd_points qd)); [exact Hp|lra]. }
    assert (Hd : (0 < numOr (qd_points_possible qd) 1)%Q).
    { unfold numOr.
      destruct (truthyNum (qd_points_possible qd)) eqn:T; [|lra].
      apply truthyNum_true in T. destruct T as (q & E & Hq).
      rewrite E in *. simpl in *. lra. }
    assert (Hquot : (0 <= numOr (qd_points qd) 0
                          / numOr (qd_points_possible qd) 1)%Q).
    { apply Qle_shift_div_l; [exact Hd|lra]. }
    generalize dependent (numOr (qd_points qd) 0
                          / numOr (qd_points_possible qd) 1)%Q.
    intros x Hx. split_minmax; lra.
  - reflexivity.
Qed.

Lemma confidence_ranges_witness :
  (0 <= inlineConfidence qd_right_3_of_4)%Q.
Proof.
  apply confidence_ranges; vm_compute; discriminate.
Defined.

(** ** Scores and labels *)

Lemma Qgeb_true (a b : Q) : Qgeb a b = true <-> (b <= a)%Q.
Proof. unfold Qgeb. apply Qle_bool_iff. Qed.

Lemma Qgeb_false (a b : Q) : Qgeb a b = false <-> (a < b)%Q.
Proof.
  unfold Qgeb. split; intros H.
  - apply Qnot_le_lt. intros Hle. apply Qle_bool_iff in Hle. congruence.
  - destruct (Qle_bool b a) eqn:E; [|reflexivity].
    apply Qle_bool_iff in E. lra.
Qed.

(** X18: the three labels and their scores are a round trip:
    [scoreToCorrect(correctToScore(c)) = c]; the label grows with the
    score; and a confidence written by [updateBestAnswer] is shown as
    correct exactly when it equals 1. *)
Theorem score_label_round_trip :
  (forall c : CorrectLabel,
      scoreToCorrect (Some (correctToScore (Some c))) = c)
  /\ (forall s1 s2 : option Q,
         (toNumber s1 <= toNumber s2)%Q ->
         (correctToScore (Some (scoreToCorrect s1))
          <= correctToScore (Some (scoreToCorrect s2)))%Q)
  /\ (forall sub : Submission,
         scoreToCorrect (Some (confidenceScore sub)) = LabelTrue
         <-> (confidenceScore sub == 1)%Q).
Proof.
  split; [|split].
  - intros []; reflexivity.
  - intros s1 s2 H. unfold scoreToCorrect.
    destruct (Qgeb (toNumber s1) 1) eqn:A1;
      destruct (Qgeb (toNumber s2) 1) eqn:A2;
      destruct (Qgeb (toNumber s1) (3 # 10)) eqn:B1;
      destruct (Qgeb (toNumber s2) (3 # 10)) eqn:B2;
      simpl; try lra;
      rewrite ?Qgeb_true, ?Qgeb_false in *; lra.
  - intros sub. unfold scoreToCorrect. simpl.
    pose proof (confidenceScore_range sub) as [H0 H1].
    destruct (Qgeb (confidenceScore sub) 1) eqn:A.
    + apply Qgeb_true in A. split; [intros _; lra|reflexivity].
    + apply Qgeb_false in A.
      destruct (Qgeb (confidenceScore sub) (3 # 10)); split;
        try discriminate; intros E; lra.
Qed.

Lemma score_label_round_trip_witness :
  (correctToScore (Some (scoreToCorrect (Some (1 # 4))))
   <= correctToScore (Some (scoreToCorrect (Some (1 # 2)))))%Q.
Proof.
  apply score_label_round_trip. vm_compute. discriminate.
Defined.

(** ** Knowledge-bank statistics *)

Lemma confidence_bucket (q : KnowledgeItem) :
  (isHigh q = true /\ isMedium q = false /\ isLow q = false
   /\ lacksConfidence q = false)
  \/ (isHigh q = false /\ isMedium q = true /\ isLow q = false
      /\ lacksConfidence q = false)
  \/ (isHigh q = false /\ isMedium q = false /\ isLow q = true
      /\ lacksConfidence q = false)
  \/ (isHigh q = false /\ isMedium q = false /\ isLow q = false
      /\ lacksConfidence q = true).
Proof.
  unfold isHigh, isMedium, isLow, lacksConfidence.
  destruct (kb_confidence_score q) as [x| |]; simpl.
  - destruct (Qgeb x 1) eqn:A;
      destruct (Qgeb x (3 # 10)) eqn:B;
      destruct (Qgtb 1 x) eqn:C;
      destruct (Qgtb (3 # 10) x) eqn:D;
      simpl; auto 10;
      rewrite ?Qgeb_true, ?Qgeb_false, ?Qgtb_true, ?Qgtb_false in *; lra.
  - auto 10.
  - auto 10.
Qed.

Lemma nodup_length {A : Type} (dec : forall a b : A, {a = b} + {a <> b})
    (l : list A) :
  (List.length (List.nodup dec l) <= List.length l)%nat.
Proof.
  induction l as [|x r IH]; simpl; [lia|].
  destruct (in_dec dec x r); simpl; lia.
Qed.

Lemma filter_length_zero {A : Type} (f : A -> bool) (l : list A) :
  List.length (List.filter f l) = 0%nat <-> forall x, In x l -> f x = false.
Proof.
  induction l as [|x r IH]; simpl.
  - split; [intros _ y []|reflexivity].
  - destruct (f x) eqn:E; simpl.
    + split; [discriminate|]. intros H.
      specialize (H x (or_introl eq_refl)). congruence.
    + rewrite IH. split.
      * intros H y [<-|Hy]; [exact E|now apply H].
      * intros H y Hy. apply H. now right.
Qed.

(** X19: the three confidence buckets of the knowledge-bank statistics
    are disjoint and cover exactly the questions whose row has a
    [confidence_score] property (a number, or [null] counted as low): a
    row without the property is in no bucket, so high + medium + low
    equals the total exactly when no row lacks it.  The high and medium
    buckets count the questions that [scoreToCorrect] labels true and
    partial, the low bucket those it labels false among the rows that
    have the property, and the number of courses never exceeds the
    number of questions. *)
Theorem knowledge_stats_partition :
  forall data : list KnowledgeItem,
    let st := calculateGlobalKnowledgeBankStats data in
    let label q := scoreToCorrect (scoreOf (kb_confidence_score q)) in
    (highConfidence st + mediumConfidence st + lowConfidence st
     + List.length (List.filter lacksConfidence data)
     = totalQuestions st)%nat
    /\ ((highConfidence st + mediumConfidence st + lowConfidence st
         = totalQuestions st)%nat
        <-> forall q, In q data -> kb_confidence_score q <> Undefined)
    /\ (totalCourses st <= totalQuestions st)%nat
    /\ highConfidence st
       = List.length
           (List.filter
              (fun q => match label q with
                        | LabelTrue => true | _ => false end) data)
    /\ mediumConfidence st
       = List.length
           (List.filter
              (fun q => match label q with
                        | LabelPartial => true | _ => false end) data)
    /\ lowConfidence st
       = List.length
           (List.filter
              (fun q => match label q with
                        | LabelFalse => negb (lacksConfidence q)
                        | _ => false end) data).
Proof.
  intros data st label. subst st. simpl.
  assert (Hsum : (List.length (List.filter isHigh data)
                  + List.length (List.filter isMedium data)
                  + List.length (List.filter isLow data)
                  + List.length (List.filter lacksConfidence data)
                  = List.length data)%nat).
  { induction data as [|q r IH]; simpl; [reflexivity|].
    destruct (confidence_bucket q)
      as [(-> & -> & -> & ->)|[(-> & -> & -> & ->)
          |[(-> & -> & -> & ->)|(-> & -> & -> & ->)]]];
      simpl; lia. }
  split; [exact Hsum|]. split; [|split].
  - transitivity (List.length (List.filter lacksConfidence data) = 0%nat);
      [lia|].
    rewrite filter_length_zero. unfold lacksConfidence.
    split; intros H q Hq; specialize (H q Hq);
      destruct (kb_confidence_score q); congruence.
  - rewrite <- (length_map kb_course_id data). apply nodup_length.
  - assert (Hlabel : forall q,
               (match label q with
                | LabelTrue => true | _ => false end = isHigh q)
               /\ (match label q with
                   | LabelPartial => true | _ => false end = isMedium q)
               /\ (match label q with
                   | LabelFalse => negb (lacksConfidence q)
                   | _ => false end = isLow q)).
    { intros q. subst label. cbv beta.
      unfold scoreToCorrect, scoreOf, isHigh, isMedium, isLow,
        lacksConfidence.
      destruct (kb_confidence_score q) as [x| |]; simpl; auto.
      destruct (Qgeb x 1) eqn:A;
        destruct (Qgeb x (3 # 10)) eqn:B;
        destruct (Qgtb 1 x) eqn:C;
        destruct (Qgtb (3 # 10) x) eqn:D;
        simpl; auto;
        rewrite ?Qgeb_true, ?Qgeb_false, ?Qgtb_true, ?Qgtb_false in *; lra. }
    repeat split; f_equal; apply filter_ext; intros q; symmetry; apply Hlabel.
Qed.

(** ** The answers read from Canvas *)

Lemma collectAnswers_spec (submissions : list CanvasSubmission)
    (questions : list (Z * QuestionAnswers)) :
  (exists s, In s submissions /\ submission_data s = None)
  /\ collectAnswers submissions questions = Thrown TypeError
  \/ (forall s, In s submissions -> submission_data s <> None)
     /\ collectAnswers submissions questions
        = Returned (List.fold_left recordAttempt
                      (allQuestionData submissions) questions).
Proof.
  revert questions. induction submissions as [|s r IH]; intros questions.
  - right. split; [intros s []|reflexivity].
  - simpl. destruct (submission_data s) as [data|] eqn:E.
    + destruct (IH (List.fold_left recordAttempt data questions))
        as [[(s' & Hin & Hs') Ht]|[Hall Hr]].
      * left. split; [|exact Ht]. exists s'. auto.
      * right. split.
        -- intros s' [<-|Hin]; [congruence|auto].
        -- rewrite Hr. unfold allQuestionData. simpl.
           rewrite ?E, fold_left_app. reflexivity.
    + left. split; [|reflexivity]. exists s. auto.
Qed.

(** X20: [getCorrectAnswers] returns [null] exactly when there is no
    submission or the first one has no [submission_data]; it throws
    exactly when the first submission has data and some submission
    lacks it (the batch path skips such a submission instead). *)
Theorem getCorrectAnswers_null_and_throw :
  forall submissions : list CanvasSubmission,
    (getCorrectAnswers submissions = Returned None <->
     submissions = []
     \/ exists first rest,
          submissions = first :: rest /\ submission_data first = None)
    /\ (getCorrectAnswers submissions = Thrown TypeError <->
        exists first rest data,
          submissions = first :: rest
          /\ submission_data first = Some data
          /\ exists s, In s rest /\ submission_data s = None).
Proof.
  intros submissions. unfold getCorrectAnswers.
  destruct submissions as [|first rest].
  - split; split.
    + auto.
    + reflexivity.
    + discriminate.
    + intros (f & r & d & H & _). discriminate.
  - destruct (submission_data first) as [data|] eqn:E.
    + destruct (collectAnswers_spec (first :: rest) [])
        as [[(s & Hin & Hs) Ht]|[Hall Hr]].
      * rewrite Ht. split; split.
        -- discriminate.
        -- intros [H|(f & r & [= <- <-] & Hf)]; congruence.
        -- intros _. exists first, rest, data.
           split; [reflexivity|]. split; [exact E|].
           exists s. split; [|exact Hs].
           destruct Hin as [<-|Hin]; [congruence|exact Hin].
        -- reflexivity.
      * rewrite Hr. split; split.
        -- discriminate.
        -- intros [H|(f & r & [= <- <-] & Hf)]; congruence.
        -- discriminate.
        -- intros (f & r & d & [= <- <-] & _ & s & Hin & Hs).
           exfalso. apply (Hall s); auto. now right.
    + split; split.
      * intros _. right. exists first, rest. auto.
      * reflexivity.
      * discriminate.
      * intros (f & r & d & [= <- <-] & Hd & _). congruence.
Qed.

Lemma recordAttempt_get (questions : list (Z * QuestionAnswers))
    (raw : QuestionData) (id : Z) :
  JsMap.get Z.eqb (recordAttempt questions raw) id
  = if question_id raw =? id
    then Some (recordInEntry (JsMap.get Z.eqb questions id) raw)
    else JsMap.get Z.eqb questions id.
Proof.
  unfold recordAttempt. destruct (question_id raw =? id) eqn:E.
  - apply Z.eqb_eq in E. rewrite E. apply get_set_same, Z.eqb_eq.
  - apply Z.eqb_neq in E. apply get_set_other; [apply Z.eqb_eq|congruence].
Qed.

Lemma recordAttempt_fold (l : list QuestionData)
    (questions : list (Z * QuestionAnswers)) (id : Z) :
  JsMap.get Z.eqb (List.fold_left recordAttempt l questions) id
  = List.fold_left (fun entry raw => Some (recordInEntry entry raw))
      (List.filter (fun raw => question_id raw =? id) l)
      (JsMap.get Z.eqb questions id).
Proof.
  revert questions. induction l as [|raw r IH]; intros questions; simpl;
    [reflexivity|].
  rewrite IH, recordAttempt_get.
  destruct (question_id raw =? id); reflexivity.
Qed.

(** The entry after further answers to the same question. *)
Lemma recordInEntry_fold (rest : list QuestionData) (entry : QuestionAnswers) :
  exists final,
    List.fold_left (fun entry raw => Some (recordInEntry entry raw)) rest
      (Some entry) = Some final
    /\ attempts final = attempts entry ++ List.map attemptOf rest
    /\ latestAnswer final = latestAnswer entry
    /\ bestAnswer final = List.fold_left betterAttempt rest (bestAnswer entry).
Proof.
  revert entry. induction rest as [|raw r IH]; intros entry; simpl.
  - exists entry. rewrite app_nil_r. auto.
  - destruct (IH (recordInEntry (Some entry) raw)) as (final & -> & Ha & Hl & Hb).
    exists final. split; [reflexivity|]. split; [|split].
    + rewrite Ha. simpl. now rewrite <- app_assoc.
    + rewrite Hl. reflexivity.
    + rewrite Hb. reflexivity.
Qed.

Lemma betterAttempt_fold_In (rest : list QuestionData) (best : Attempt) :
  List.fold_left betterAttempt rest best = best
  \/ In (List.fold_left betterAttempt rest best) (List.map attemptOf rest).
Proof.
  revert best. induction rest as [|raw r IH]; intros best; simpl; [now left|].
  destruct (IH (betterAttempt best raw)) as [H|H].
  - rewrite H. unfold betterAttempt.
    destruct (_ || _); [right; now left|now left].
  - right. now right.
Qed.

Lemma getCorrectAnswers_entry (submissions : list CanvasSubmission)
    (questions : list (Z * QuestionAnswers)) (id : Z) :
  getCorrectAnswers submissions = Returned (Some questions) ->
  match answersFor id submissions with
  | [] => JsMap.get Z.eqb questions id = None
  | first :: rest =>
      exists entry,
        JsMap.get Z.eqb questions id = Some entry
        /\ attempts entry = List.map attemptOf (first :: rest)
        /\ latestAnswer entry = attemptOf first
        /\ bestAnswer entry
           = List.fold_left betterAttempt rest (attemptOf first)
  end.
Proof.
  unfold getCorrectAnswers. destruct submissions as [|s0 r]; [discriminate|].
  destruct (submission_data s0) eqn:E0; [|discriminate].
  destruct (collectAnswers_spec (s0 :: r) []) as [[_ Ht]|[_ Hr]];
    [rewrite Ht; discriminate|].
  rewrite Hr. unfold answersFor. clear Hr.
  generalize (allQuestionData (s0 :: r)). intros all [= <-].
  rewrite recordAttempt_fold.
  destruct (List.filter _ all) as [|first rest]; [reflexivity|].
  simpl.
  destruct (recordInEntry_fold rest (recordInEntry None first))
    as (final & -> & Ha & Hl & Hb).
  exists final. split; [reflexivity|]. split; [exact Ha|]. split; [exact Hl|].
  rewrite Hb. unfold recordInEntry. simpl.
  destruct (_ || _); reflexivity.
Qed.

(** X21: in the result of [getCorrectAnswers], a question has an entry
    exactly when the submissions contain an answer to it; the entry
    lists all its answers in submission order, its [bestAnswer] is one
    of them, and its [latestAnswer] is the first answer, not the last
    one (it is never updated after the entry is created). *)
Theorem getCorrectAnswers_entries :
  forall (submissions : list CanvasSubmission)
         (questions : list (Z * QuestionAnswers)) (id : Z),
    getCorrectAnswers submissions = Returned (Some questions) ->
    (JsMap.get Z.eqb questions id = None <-> answersFor id submissions = [])
    /\ (forall entry,
           JsMap.get Z.eqb questions id = Some entry ->
           attempts entry = List.map attemptOf (answersFor id submissions)
           /\ List.head (attempts entry) = Some (latestAnswer entry)
           /\ In (bestAnswer entry) (attempts entry)).
Proof.
  intros submissions questions id H.
  pose proof (getCorrectAnswers_entry submissions questions id H) as He.
  destruct (answersFor id submissions) as [|first rest].
  - rewrite He. split; [tauto|discriminate].
  - destruct He as (entry & Hg & Ha & Hl & Hb). rewrite Hg. split.
    + split; discriminate.
    + intros e [= <-]. split; [exact Ha|]. rewrite Ha, Hl.
      split; [reflexivity|]. rewrite Hb. simpl.
      destruct (betterAttempt_fold_In rest (attemptOf first)) as [->|Hin];
        auto.
Qed.

Lemma getCorrectAnswers_entries_witness :
  attempts (recordInEntry None answer_5)
  = List.map attemptOf
      (answersFor 5 [{| submission_data := Some [answer_5] |}])
  /\ List.head (attempts (recordInEntry None answer_5))
     = Some (latestAnswer (recordInEntry None answer_5))
  /\ In (bestAnswer (recordInEntry None answer_5))
       (attempts (recordInEntry None answer_5)).
Proof.
  destruct (getCorrectAnswers_entries
              [{| submission_data := Some [answer_5] |}]
              [(5, recordInEntry None answer_5)] 5 eq_refl) as [_ H].
  apply H. reflexivity.
Defined.

Lemma firstMaxPoints_bound (p : list QuestionData) (raw c : QuestionData) :
  firstMaxPoints p raw -> In c p ->
  (toNumber (qd_points c) <= toNumber (qd_points raw))%Q.
Proof.
  intros (l1 & l2 & -> & Hb & Ha) Hin.
  apply in_app_or in Hin. destruct Hin as [Hin|[<-|Hin]].
  - apply Qlt_le_weak. now apply Hb.
  - apply Qle_refl.
  - now apply Ha.
Qed.

Lemma betterAttempt_first_max (rest p : list QuestionData)
    (raw0 : QuestionData) :
  (forall c, In c (p ++ rest) -> gradedWrong c) ->
  firstMaxPoints p raw0 ->
  exists raw,
    List.fold_left betterAttempt rest (attemptOf raw0) = attemptOf raw
    /\ firstMaxPoints (p ++ rest) raw.
Proof.
  revert p raw0. induction rest as [|x r IH]; intros p raw0 Hall Hfm; simpl.
  - exists raw0. now rewrite app_nil_r.
  - replace (p ++ x :: r) with ((p ++ [x]) ++ r) in *
      by now rewrite <- app_assoc.
    assert (Hx : gradedWrong x).
    { apply Hall. apply in_or_app. left. apply in_or_app. right. now left. }
    assert (H0 : gradedWrong raw0).
    { apply Hall. apply in_or_app. left. apply in_or_app. left.
      destruct Hfm as (l1 & l2 & -> & _). apply in_elt. }
    destruct Hx as [Hxc (b & Hxb)]. destruct H0 as [_ (a & H0a)].
    unfold betterAttempt at 2. rewrite Hxc. simpl. rewrite H0a, Hxb. simpl.
    destruct (Qgtb b a) eqn:G.
    + apply Qgtb_true in G. apply IH; [exact Hall|].
      exists p, []. split; [reflexivity|]. split; [|intros c []].
      intros c Hc. pose proof (firstMaxPoints_bound _ _ _ Hfm Hc) as Hle.
      rewrite H0a, Hxb in *. simpl in *. lra.
    + apply Qgtb_false in G. apply IH; [exact Hall|].
      destruct Hfm as (l1 & l2 & -> & Hb & Ha).
      exists l1, (l2 ++ [x]). split; [now rewrite <- app_assoc|].
      split; [exact Hb|]. intros c Hc. apply in_app_or in Hc.
      destruct Hc as [Hc|[<-|[]]]; [now apply Ha|].
      rewrite H0a, Hxb. simpl. exact G.
Qed.

(** X22: how [getCorrectAnswers] picks [bestAnswer].  If the last
    answer to a question is marked correct, it is the best answer.  If
    no answer to the question is marked correct (and all have numeric
    points), the best answer is the first answer with the most points:
    later answers with equal points do not replace it. *)
Theorem getCorrectAnswers_best_answer :
  forall (submissions : list CanvasSubmission)
         (questions : list (Z * QuestionAnswers)) (id : Z)
         (entry : QuestionAnswers),
    getCorrectAnswers submissions = Returned (Some questions) ->
    JsMap.get Z.eqb questions id = Some entry ->
    (forall l last,
        answersFor id submissions = l ++ [last] ->
        isCorrectTrue (qd_correct last) = true ->
        bestAnswer entry = attemptOf last)
    /\ ((forall raw, In raw (answersFor id submissions) -> gradedWrong raw) ->
        exists raw,
          bestAnswer entry = attemptOf raw
          /\ firstMaxPoints (answersFor id submissions) raw).
Proof.
  intros submissions questions id entry H Hg.
  pose proof (getCorrectAnswers_entry submissions questions id H) as He.
  destruct (answersFor id submissions) as [|first rest]; [congruence|].
  destruct He as (e & Hg' & _ & _ & Hb).
  assert (e = entry) by congruence. subst e. rewrite Hb. split.
  - intros l last Hl Hc. destruct l as [|x l]; simpl in Hl.
    + injection Hl as -> ->. reflexivity.
    + injection Hl as -> ->. rewrite fold_left_app. simpl.
      unfold betterAttempt at 1. now rewrite Hc.
  - intros Hall.
    destruct (betterAttempt_first_max rest [first] first) as (raw & Hr & Hfm).
    + exact Hall.
    + exists [], []. split; [reflexivity|]. split; intros c [].
    + exists raw. split; [exact Hr|exact Hfm].
Qed.

Lemma getCorrectAnswers_best_answer_witness :
  exists questions entry,
    getCorrectAnswers three_attempts = Returned (Some questions)
    /\ JsMap.get Z.eqb questions 5 = Some entry
    /\ exists raw, bestAnswer entry = attemptOf raw
                   /\ firstMaxPoints (answersFor 5 three_attempts) raw.
Proof.
  eexists. eexists. split; [reflexivity|]. split; [reflexivity|].
  eapply getCorrectAnswers_best_answer; try reflexivity.
  intros raw Hin. vm_compute in Hin.
  destruct Hin as [<-|[<-|[<-|[]]]]; (split; [reflexivity|eexists; reflexivity]).
Defined.

(** ** Choice between the knowledge bank and Canvas *)



(** ** Access check *)

Lemma checkAccess_granted_flags (this : AccessFlags) (read : StorageRead)
    (now later : Z) (reply : AccessReply) (writeOk : bool) :
  granted (checkAccess this read now later reply writeOk) = true ->
  accessChecked (flags (checkAccess this read now later reply writeOk)) = true
  /\ hasAccess (flags (checkAccess this read now later reply writeOk)) = true.
Proof.
  unfold checkAccess.
  destruct (accessChecked this && hasAccess this) eqn:S.
  - apply andb_true_iff in S. simpl. tauto.
  - destruct read as [[c|]|]; simpl;
      try destruct (dateAfter (expires_at c) now && negb (is_revoked c));
      simpl; try discriminate; auto;
      destruct reply as [| |[[|row rows]|]]; simpl; try discriminate;
      try (destruct (has_access row); [destruct writeOk|]; simpl;
           try discriminate; auto);
      try (destruct (dateAfter (expires_at c) later); simpl;
           try discriminate; auto).
Qed.

Lemma managerRun_sticky (events : list ManagerEvent) (o : AccessOutcome) :
  List.forallb (fun e => negb (revokes e)) events = true ->
  In o (managerRun {| hasAccess := true; accessChecked := true |} events) ->
  o = {| flags := {| hasAccess := true; accessChecked := true |};
         storage := NoWrite; serverAsked := false; granted := true |}.
Proof.
  induction events as [|e rest IH]; simpl; [intros _ []|].
  intros Hall. apply andb_true_iff in Hall. destruct Hall as [He Hrest].
  destruct e as [read now later reply writeOk|message].
  - cbn [managerRun checkAccess accessChecked hasAccess andb flags].
    intros [<-|Hin]; [reflexivity|]. now apply IH.
  - cbn [managerRun]. unfold handleAccessDenied.
    unfold revokes in He. apply negb_true_iff in He.
    destruct (truthyStr message) as [m|]; [rewrite He|]; now apply IH.
Qed.

(** X24: access is sticky between revocations.  Once [checkAccess] has
    returned true, every later [checkAccess] on the same manager returns
    true without reading the cache or asking the server, whatever the
    cache, the clock and the server say by then and however many calls
    and failed procedure calls come in between, as long as no failure
    carries [ACCESS_DENIED].  Such a failure ends it:
    [handleAccessDenied] clears both flags, and the next check, finding
    no cache and an erring server, returns false. *)
Theorem checkAccess_is_sticky :
  forall (this : AccessFlags) (read : StorageRead) (now later : Z)
         (reply : AccessReply) (writeOk : bool),
    granted (checkAccess this read now later reply writeOk) = true ->
    let after := flags (checkAccess this read now later reply writeOk) in
    (forall (events : list ManagerEvent) (o : AccessOutcome),
        List.forallb (fun e => negb (revokes e)) events = true ->
        In o (managerRun after events) ->
        o = {| flags := after; storage := NoWrite; serverAsked := false;
               granted := true |})
    /\ (forall (message : option string) (now' later' : Z) (writeOk' : bool),
           revokes (RpcFailed message) = true ->
           managerRun after
             [RpcFailed message;
              CheckAccess (ReadValue None) now' later' ReplyError writeOk']
           = [{| flags := {| hasAccess := false; accessChecked := true |};
                 storage := NoWrite; serverAsked := true;
                 granted := false |}]).
Proof.
  intros this read now later reply w H after.
  destruct (checkAccess_granted_flags _ _ _ _ _ _ H) as [Hc Ha].
  subst after.
  destruct (flags (checkAccess this read now later reply w)) as [h c].
  simpl in Hc, Ha. subst h c. split.
  - intros events o. apply managerRun_sticky.
  - intros message now' later' w' Hrev. cbn [managerRun].
    unfold handleAccessDenied. unfold revokes in Hrev.
    destruct (truthyStr message) as [m|]; [|discriminate].
    rewrite Hrev. reflexivity.
Qed.

Lemma checkAccess_is_sticky_witness :
  managerRun
    (flags (checkAccess {| hasAccess := false; accessChecked := false |}
              (ReadValue None) 0 0
              (ReplyData (Some [{| has_access := true;
                                   access_expires_at := Some 10;
                                   row_voucher_code := None |}])) true))
    [RpcFailed (Some "ACCESS_DENIED: voucher revoked"%string);
     CheckAccess (ReadValue None) 99 99 ReplyError false]
  = [{| flags := {| hasAccess := false; accessChecked := true |};
        storage := NoWrite; serverAsked := true; granted := false |}]
  /\ forall o,
       In o
         (managerRun
            (flags
               (checkAccess {| hasAccess := false; accessChecked := false |}
                  (ReadValue None) 0 0
                  (ReplyData (Some [{| has_access := true;
                                       access_expires_at := Some 10;
                                       row_voucher_code := None |}])) true))
            [CheckAccess ReadThrows 99 99 ReplyError false;
             RpcFailed (Some "timeout"%string);
             CheckAccess (ReadValue None) 200 200 ReplyThrows false]) ->
       granted o = true.
Proof.
  destruct (checkAccess_is_sticky
              {| hasAccess := false; accessChecked := false |}
              (ReadValue None) 0 0
              (ReplyData (Some [{| has_access := true;
                                   access_expires_at := Some 10;
                                   row_voucher_code := None |}])) true
              eq_refl) as [Hsticky Hreset].
  split.
  - apply Hreset. reflexivity.
  - intros o Ho. apply Hsticky in Ho; [rewrite Ho|]; reflexivity.
Defined.

(** X25: on a manager that has not yet been granted access, a cached
    voucher that has not expired and is not marked revoked is accepted:
    access is granted, both flags are set, nothing is written and the
    server is not asked; in every other case of a cached voucher the
    server is asked.  But when the server is asked and answers with an
    error, an unexpired cached voucher grants access even if it is
    marked revoked. *)
Theorem checkAccess_cache_rules :
  forall (this : AccessFlags) (c : AccessCache) (now later : Z)
         (reply : AccessReply) (writeOk : bool),
    accessChecked this && hasAccess this = false ->
    (dateAfter (expires_at c) now = true -> is_revoked c = false ->
     checkAccess this (ReadValue (Some c)) now later reply writeOk
     = {| flags := {| hasAccess := true; accessChecked := true |};
          storage := NoWrite; serverAsked := false; granted := true |})
    /\ (serverAsked
          (checkAccess this (ReadValue (Some c)) now later reply writeOk)
        = false
        <-> dateAfter (expires_at c) now = true /\ is_revoked c = false)
    /\ (is_revoked c = true ->
        granted
          (checkAccess this (ReadValue (Some c)) now later ReplyError writeOk)
        = dateAfter (expires_at c) later).
Proof.
  intros this c now later reply w S. unfold checkAccess. rewrite S.
  split; [|split].
  - intros -> ->. reflexivity.
  - destruct (dateAfter (expires_at c) now); destruct (is_revoked c);
      cbn [andb negb];
      try (split; [intros _; split; reflexivity|reflexivity]);
      match goal with
      | |- (serverAsked ?t = false <-> _) =>
          assert (Hasked : serverAsked t = true)
            by (destruct reply as [| |[[|row rows]|]]; try reflexivity;
                simpl; destruct (has_access row); [destruct w|];
                reflexivity);
          rewrite Hasked
      end;
      (split; [discriminate|intros [? ?]; discriminate]).
  - intros R. rewrite R, andb_false_r. reflexivity.
Qed.

Lemma checkAccess_cache_rules_witness :
  granted
    (checkAccess {| hasAccess := false; accessChecked := false |}
       (ReadValue (Some {| expires_at := Some 100; cache_voucher_code := None;
                           is_revoked := true |}))
       10 20 ReplyError true)
  = true
  /\ granted
       (checkAccess {| hasAccess := false; accessChecked := false |}
          (ReadValue (Some {| expires_at := Some 100;
                              cache_voucher_code := None;
                              is_revoked := false |}))
          10 20 ReplyThrows true)
     = true.
Proof.
  split.
  - destruct (checkAccess_cache_rules
                {| hasAccess := false; accessChecked := false |}
                {| expires_at := Some 100; cache_voucher_code := None;
                   is_revoked := true |} 10 20 ReplyError true eq_refl)
      as (_ & _ & H).
    rewrite H; reflexivity.
  - destruct (checkAccess_cache_rules
                {| hasAccess := false; accessChecked := false |}
                {| expires_at := Some 100; cache_voucher_code := None;
                   is_revoked := false |} 10 20 ReplyThrows true eq_refl)
      as (H & _ & _).
    rewrite H; reflexivity.
Defined.

(** X26: when a procedure call fails with a message containing
    [ACCESS_DENIED], [safeRpcCall] throws the access-revoked error,
    clears both flags and removes the cached voucher, so that the next
    [checkAccess] (which then finds no cache) asks the server and
    grants access only if the server's first row has access and the new
    cache entry can be written.  Any other failure is rethrown
    unchanged and leaves flags and cache alone. *)
Theorem safeRpcCall_revocation :
  forall (A : Type) (this : AccessFlags) (message : option string),
    (exists m, truthyStr message = Some m
               /\ JsString.includes "ACCESS_DENIED" m = true) ->
    safeRpcCall (A := A) this (inr message)
    = ({| hasAccess := false; accessChecked := false |}, RemoveCache,
       inr AccessRevoked)
    /\ forall (now later : Z) (reply : AccessReply) (writeOk : bool),
         let next :=
           checkAccess {| hasAccess := false; accessChecked := false |}
             (ReadValue None) now later reply writeOk in
         serverAsked next = true
         /\ (granted next = true <->
             writeOk = true
             /\ exists row rows,
                  reply = ReplyData (Some (row :: rows))
                  /\ has_access row = true).
Proof.
  intros A this message (m & Hm & Hinc). split.
  - unfold safeRpcCall, handleAccessDenied. now rewrite Hm, Hinc.
  - intros now later reply w next. subst next. unfold checkAccess. simpl.
    destruct reply as [| |[[|row rows]|]]; simpl;
      try (split; [reflexivity|]; split; [discriminate|];
           intros (_ & r & rs & H & _); discriminate).
    destruct (has_access row) eqn:Hr; [destruct w|]; simpl;
      (split; [reflexivity|]); split; try discriminate.
    + intros _. split; [reflexivity|]. now exists row, rows.
    + reflexivity.
    + intros [H _]. discriminate.
    + intros (_ & r & rs & [= <- <-] & H). congruence.
Qed.

Lemma safeRpcCall_revocation_witness :
  safeRpcCall (A := unit) {| hasAccess := true; accessChecked := true |}
    (inr (Some "ACCESS_DENIED: voucher revoked"%string))
  = ({| hasAccess := false; accessChecked := false |}, RemoveCache,
     inr AccessRevoked).
Proof.
  apply (safeRpcCall_revocation unit
           {| hasAccess := true; accessChecked := true |}
           (Some "ACCESS_DENIED: voucher revoked"%string)).
  eexists. split; reflexivity.
Defined.

Lemma safeRpcCall_other_failure (A : Type) (this : AccessFlags)
    (message : option string) :
  (forall m, truthyStr message = Some m ->
             JsString.includes "ACCESS_DENIED" m = false) ->
  safeRpcCall (A := A) this (inr message)
  = (this, NoWrite, inr (OriginalError message)).
Proof.
  intros H. unfold safeRpcCall, handleAccessDenied.
  destruct (truthyStr message) as [m|]; [|reflexivity].
  now rewrite (H m eq_refl).
Qed.

(** ** Version comparison *)

Lemma compareLoop_antisym (rem i : nat) (p1 p2 : list (option Z)) :
  compareLoop rem i p2 p1 = - compareLoop rem i p1 p2.
Proof.
  revert i. induction rem as [|k IH]; intros i; simpl; [reflexivity|].
  destruct (partOrZero p2 i <? partOrZero p1 i) eqn:A;
    destruct (partOrZero p1 i <? partOrZero p2 i) eqn:B;
    try reflexivity; [|apply IH].
  apply Z.ltb_lt in A. apply Z.ltb_lt in B. lia.
Qed.

Lemma compareLoop_refl (rem i : nat) (p : list (option Z)) :
  compareLoop rem i p p = 0.
Proof.
  revert i. induction rem as [|k IH]; intros i; simpl; [reflexivity|].
  rewrite Z.ltb_irrefl. apply IH.
Qed.

Lemma compareLoop_range (rem i : nat) (p1 p2 : list (option Z)) :
  -1 <= compareLoop rem i p1 p2 <= 1.
Proof.
  revert i. induction rem as [|k IH]; intros i; simpl; [lia|].
  destruct (_ <? _); [lia|]. destruct (_ <? _); [lia|]. apply IH.
Qed.

Lemma partOrZero_beyond (p : list (option Z)) (i : nat) :
  (List.length p <= i)%nat -> partOrZero p i = 0.
Proof.
  intros H. unfold partOrZero.
  now rewrite (proj2 (nth_error_None p i) H).
Qed.

Lemma compareLoop_beyond (k i : nat) (p1 p2 : list (option Z)) :
  (List.length p1 <= i)%nat -> (List.length p2 <= i)%nat ->
  compareLoop k i p1 p2 = 0.
Proof.
  revert i. induction k as [|k IH]; intros i H1 H2; simpl; [reflexivity|].
  rewrite (partOrZero_beyond p1 i H1), (partOrZero_beyond p2 i H2).
  simpl. apply IH; lia.
Qed.

Lemma compareLoop_more (rem k i : nat) (p1 p2 : list (option Z)) :
  (List.length p1 <= i + rem)%nat -> (List.length p2 <= i + rem)%nat ->
  compareLoop (rem + k) i p1 p2 = compareLoop rem i p1 p2.
Proof.
  revert i. induction rem as [|r IH]; intros i H1 H2.
  - simpl. apply compareLoop_beyond; lia.
  - simpl. destruct (_ <? _); [reflexivity|].
    destruct (_ <? _); [reflexivity|]. apply IH; lia.
Qed.

Lemma compareLoop_trans (rem i : nat) (a b c : list (option Z)) :
  compareLoop rem i a b <= 0 -> compareLoop rem i b c <= 0 ->
  compareLoop rem i a c <= 0.
Proof.
  revert i. induction rem as [|k IH]; intros i; simpl; [lia|].
  destruct (partOrZero a i <? partOrZero b i) eqn:AB;
    destruct (partOrZero b i <? partOrZero a i) eqn:BA;
    destruct (partOrZero b i <? partOrZero c i) eqn:BC;
    destruct (partOrZero c i <? partOrZero b i) eqn:CB;
    destruct (partOrZero a i <? partOrZero c i) eqn:AC;
    destruct (partOrZero c i <? partOrZero a i) eqn:CA;
    try lia;
    rewrite ?Z.ltb_lt, ?Z.ltb_ge in *; try lia.
  apply IH.
Qed.

Lemma compareVersions_as_loop (v1 v2 : string) (n : nat) :
  (List.length (splitDots v1) <= n)%nat ->
  (List.length (splitDots v2) <= n)%nat ->
  compareVersions v1 v2
  = compareLoop n 0 (List.map numberOfPart (splitDots v1))
      (List.map numberOfPart (splitDots v2)).
Proof.
  intros H1 H2. unfold compareVersions. rewrite !length_map.
  set (m := Nat.max (List.length (splitDots v1)) (List.length (splitDots v2))).
  replace n with (m + (n - m))%nat by lia.
  symmetry. apply compareLoop_more; rewrite length_map; lia.
Qed.

Lemma splitDots_nonempty (v : string) : splitDots v <> [].
Proof.
  destruct v as [|c r]; simpl; [discriminate|].
  destruct (Ascii.eqb c "."); [discriminate|].
  destruct (splitDots r); discriminate.
Qed.

Lemma splitDots_append_zero (v : string) :
  splitDots (v ++ ".0") = splitDots v ++ ["0"%string].
Proof.
  induction v as [|c r IH]; simpl; [reflexivity|].
  rewrite IH. destruct (Ascii.eqb c "."); [reflexivity|].
  pose proof (splitDots_nonempty r) as Hne.
  destruct (splitDots r); [congruence|reflexivity].
Qed.

Lemma partOrZero_snoc_zero (p : list (option Z)) (i : nat) :
  partOrZero (p ++ [Some 0]) i = partOrZero p i.
Proof.
  unfold partOrZero.
  destruct (Nat.lt_ge_cases i (List.length p)) as [H|H].
  - now rewrite nth_error_app1.
  - rewrite nth_error_app2 by exact H.
    rewrite (proj2 (nth_error_None p i) H).
    destruct (i - List.length p)%nat as [|[|n]]; reflexivity.
Qed.

Lemma compareLoop_snoc_zero (rem i : nat) (p : list (option Z)) :
  compareLoop rem i (p ++ [Some 0]) p = 0.
Proof.
  revert i. induction rem as [|k IH]; intros i; simpl; [reflexivity|].
  rewrite partOrZero_snoc_zero, Z.ltb_irrefl. apply IH.
Qed.

(** X27: on version texts made of digits and dots, [compareVersions]
    behaves as an order: a version equals itself, swapping the
    arguments negates the result, "not greater" is transitive, the
    result is -1, 0 or 1, and a trailing [.0] makes no difference
    ([1.2.0] equals [1.2]). *)
Theorem compareVersions_is_an_order :
  forall v1 v2 v3 : string,
    isVersionText v1 = true -> isVersionText v2 = true ->
    isVersionText v3 = true ->
    compareVersions v1 v1 = 0
    /\ compareVersions v2 v1 = - compareVersions v1 v2
    /\ -1 <= compareVersions v1 v2 <= 1
    /\ (compareVersions v1 v2 <= 0 -> compareVersions v2 v3 <= 0 ->
        compareVersions v1 v3 <= 0)
    /\ compareVersions (v1 ++ ".0") v1 = 0.
Proof.
  intros v1 v2 v3 _ _ _. split; [|split; [|split; [|split]]].
  - apply compareLoop_refl.
  - unfold compareVersions. rewrite Nat.max_comm. apply compareLoop_antisym.
  - apply compareLoop_range.
  - set (n := Nat.max (List.length (splitDots v1))
                (Nat.max (List.length (splitDots v2))
                   (List.length (splitDots v3)))).
    rewrite (compareVersions_as_loop v1 v2 n),
      (compareVersions_as_loop v2 v3 n),
      (compareVersions_as_loop v1 v3 n) by lia.
    apply compareLoop_trans.
  - unfold compareVersions. rewrite splitDots_append_zero, map_app.
    apply compareLoop_snoc_zero.
Qed.

Lemma compareVersions_is_an_order_witness :
  compareVersions "1.2.10" "1.2.9" = - compareVersions "1.2.9" "1.2.10"
  /\ compareVersions ("1.2.9" ++ ".0") "1.2.9" = 0.
Proof.
  destruct (compareVersions_is_an_order "1.2.9" "1.2.10" "2.0.0"
              eq_refl eq_refl eq_refl) as (_ & Hanti & _ & _ & Hzero).
  split; [exact Hanti|exact Hzero].
Defined.

(** ** Voucher input *)

Lemma cleanChar_voucher (c : ascii) :
  JsString.all isVoucherChar
    (unitsToString (List.filter isVoucherUnit (upperUnits c))) = true.
Proof.
  apply (forall_ascii
           (fun c => JsString.all isVoucherChar
                       (unitsToString
                          (List.filter isVoucherUnit (upperUnits c))))).
  vm_compute. reflexivity.
Qed.

Lemma cleanChar_fixed (c : ascii) :
  isVoucherChar c = true ->
  unitsToString (List.filter isVoucherUnit (upperUnits c))
  = String c EmptyString.
Proof.
  intros H.
  assert (E : implb (isVoucherChar c)
                (String.eqb
                   (unitsToString (List.filter isVoucherUnit (upperUnits c)))
                   (String c EmptyString)) = true).
  { apply (forall_ascii
             (fun c => implb (isVoucherChar c)
                (String.eqb
                   (unitsToString (List.filter isVoucherUnit (upperUnits c)))
                   (String c EmptyString)))).
    vm_compute. reflexivity. }
  rewrite H in E. now apply String.eqb_eq.
Qed.

Lemma all_append (p : ascii -> bool) (s1 s2 : string) :
  JsString.all p (s1 ++ s2) = JsString.all p s1 && JsString.all p s2.
Proof.
  induction s1 as [|c r IH]; simpl; [reflexivity|].
  now rewrite IH, andb_assoc.
Qed.

Lemma cleanVoucherInput_fixed (s : string) :
  JsString.all isVoucherChar s = true -> cleanVoucherInput s = s.
Proof.
  induction s as [|c r IH]; simpl; [reflexivity|].
  intros H. apply andb_true_iff in H. destruct H as [Hc Hr].
  now rewrite (cleanChar_fixed c Hc), (IH Hr).
Qed.

(** X28: the voucher field keeps only the characters [A-Z], [0-9] and
    [-] (lower-case letters are raised, everything else is dropped),
    and cleaning is idempotent: a cleaned value is left as it is. *)
Theorem cleanVoucherInput_normalises :
  forall value : string,
    JsString.all isVoucherChar (cleanVoucherInput value) = true
    /\ cleanVoucherInput (cleanVoucherInput value) = cleanVoucherInput value.
Proof.
  intros value.
  assert (H : JsString.all isVoucherChar (cleanVoucherInput value) = true).
  { induction value as [|c r IH]; simpl; [reflexivity|].
    now rewrite all_append, cleanChar_voucher, IH. }
  split; [exact H|]. now apply cleanVoucherInput_fixed.
Qed.
